(** * QManimPlayer: parameter store, extractor, process controller, presets

    A shallow embedding of the non-GUI core of QManimPlayer
    ([param_manager.py], [parser.py], [manim_runner.py],
    [preset_manager.py]) together with the properties its
    specification states about it. *)

From Stdlib Require Import ZArith List String Ascii Bool Lia.
From Stdlib Require Import Floats.SpecFloat.
From stdpp Require Import gmap strings list fin_maps pretty.

Set Warnings "-register-all".

Local Open Scope Z_scope.
Local Open Scope string_scope.
Local Open Scope list_scope.

(** ** Python values

    The scalar fragment of the values the PARAMETERS literal can hold:
    [None], booleans, integers, floats (IEEE binary64, as [spec_float]),
    strings, and the four builtin type objects used as type markers. *)

Inductive pytype := PyFloat | PyInt | PyBool | PyStr.

Inductive pyval :=
  | VNone
  | VBool (b : bool)
  | VInt (n : Z)
  | VFloat (x : spec_float)
  | VStr (s : string)
  | VType (t : pytype).

#[global] Instance pytype_eq_dec : EqDecision pytype.
Proof. solve_decision. Defined.

(** Exceptions the modelled code can raise. *)
Inductive exn := TypeError | KeyError | SyntaxError.

Inductive result (A : Type) :=
  | Ok (a : A)
  | Raise (e : exn).
Arguments Ok {A} a.
Arguments Raise {A} e.

Definition bind {A B} (r : result A) (k : A -> result B) : result B :=
  match r with
  | Ok a => k a
  | Raise e => Raise e
  end.

Notation "x <- r ;; k" := (bind r (fun x => k))
  (at level 100, r at next level, right associativity).

(** *** Numbers

    Python compares [int], [bool] and [float] by exact mathematical
    value.  A number is read as an extended dyadic rational: not-a-number,
    an infinity, or [m * 2 ^ e]. *)

Inductive xnum :=
  | XNaN
  | XInf (negative : bool)
  | XFin (m e : Z).

Definition float_num (x : spec_float) : xnum :=
  match x with
  | S754_zero _ => XFin 0 0
  | S754_infinity s => XInf s
  | S754_nan => XNaN
  | S754_finite s m e => XFin (if s then Z.neg m else Z.pos m) e
  end.

Definition num_of (v : pyval) : option xnum :=
  match v with
  | VBool b => Some (XFin (Z.b2z b) 0)
  | VInt n => Some (XFin n 0)
  | VFloat x => Some (float_num x)
  | _ => None
  end.

(** [None] stands for "unordered" (a NaN is involved). *)
Definition xcompare (a b : xnum) : option comparison :=
  match a, b with
  | XNaN, _ | _, XNaN => None
  | XInf s1, XInf s2 =>
      Some (match s1, s2 with
            | true, false => Lt
            | false, true => Gt
            | _, _ => Eq
            end)
  | XInf s, XFin _ _ => Some (if s then Lt else Gt)
  | XFin _ _, XInf s => Some (if s then Gt else Lt)
  | XFin m1 e1, XFin m2 e2 =>
      let e := Z.min e1 e2 in
      Some (Z.compare (m1 * 2 ^ (e1 - e)) (m2 * 2 ^ (e2 - e)))
  end.

Definition is_cmp (c : comparison) (o : option comparison) : bool :=
  match o with
  | Some c' => if decide (c = c') then true else false
  | None => false
  end.

(** *** [==], [<], [>], [<=], [>=] *)

Definition py_eq (a b : pyval) : bool :=
  match num_of a, num_of b with
  | Some x, Some y => is_cmp Eq (xcompare x y)
  | _, _ =>
      match a, b with
      | VNone, VNone => true
      | VStr s, VStr t => String.eqb s t
      | VType s, VType t => if decide (s = t) then true else false
      | _, _ => false
      end
  end.

(** Ordering of two values: the comparison when both are numbers or both
    are strings, [TypeError] otherwise. *)
Definition py_compare (a b : pyval) : result (option comparison) :=
  match num_of a, num_of b with
  | Some x, Some y => Ok (xcompare x y)
  | _, _ =>
      match a, b with
      | VStr s, VStr t => Ok (Some (String.compare s t))
      | _, _ => Raise TypeError
      end
  end.

Definition py_lt (a b : pyval) : result bool :=
  c <- py_compare a b ;; Ok (is_cmp Lt c).
Definition py_gt (a b : pyval) : result bool :=
  c <- py_compare a b ;; Ok (is_cmp Gt c).
Definition py_le (a b : pyval) : result bool :=
  c <- py_compare a b ;; Ok (is_cmp Lt c || is_cmp Eq c).
Definition py_ge (a b : pyval) : result bool :=
  c <- py_compare a b ;; Ok (is_cmp Gt c || is_cmp Eq c).

(** [isinstance(v, T)]: [bool] is a subclass of [int]. *)
Definition isinstance (v : pyval) (t : pytype) : bool :=
  match t, v with
  | PyFloat, VFloat _ => true
  | PyInt, VInt _ => true
  | PyInt, VBool _ => true
  | PyBool, VBool _ => true
  | PyStr, VStr _ => true
  | _, _ => false
  end.

(** ** Parameter store ([param_manager.py]) *)

Module Store.

(** [ParameterChange]; the [timestamp] field is written once and never
    read by the store, and is left out. *)
Record ParameterChange := {
  param_name : string;
  old_value : pyval;
  new_value : pyval
}.

(** What the store does to the outside world, in order: a call of
    [_update_file], of [_notify_change], of [_notify_file_modified]. *)
Inductive event :=
  | FilePatched (name : string) (value : pyval)
  | ChangeNotified (name : string) (old new : pyval)
  | FileModifiedNotified.

(** [parameters] maps a name to its metadata dictionary; entries of
    PARAMETERS that are not dictionaries never receive a current value and
    are never looked at again, so they do not appear. *)
Record ParameterManager := {
  parameters : gmap string (gmap string pyval);
  current_values : gmap string pyval;
  undo_stack : list (list ParameterChange);
  redo_stack : list (list ParameterChange);
  is_modified : bool;
  events : list event
}.

(** [__init__] with [_initialize_current_values]. *)
Definition init (params : gmap string (gmap string pyval)) : ParameterManager :=
  {| parameters := params;
     current_values := omap (fun pd : gmap string pyval => pd !! "value") params;
     undo_stack := [];
     redo_stack := [];
     is_modified := false;
     events := [] |}.

Definition get_parameter (st : ParameterManager) (name : string) : pyval :=
  default VNone (current_values st !! name).

Definition can_undo (st : ParameterManager) : bool :=
  negb (Nat.eqb (length (undo_stack st)) 0).
Definition can_redo (st : ParameterManager) : bool :=
  negb (Nat.eqb (length (redo_stack st)) 0).

Definition _validate_type (st : ParameterManager) (name : string) (value : pyval) : bool :=
  match parameters st !! name with
  | None => false
  | Some param_data =>
      match param_data !! "type" with
      | None => true
      | Some expected_type =>
          if py_eq expected_type (VType PyFloat) then
            (isinstance value PyInt || isinstance value PyFloat) && negb (isinstance value PyBool)
          else if py_eq expected_type (VType PyInt) then
            isinstance value PyInt && negb (isinstance value PyBool)
          else if py_eq expected_type (VType PyBool) then
            isinstance value PyBool
          else if py_eq expected_type (VType PyStr) then
            isinstance value PyStr
          else true
      end
  end.

Definition _validate_bounds (st : ParameterManager) (name : string) (value : pyval) : result bool :=
  let param_data := default ∅ (parameters st !! name) in
  below <- match param_data !! "min" with
           | Some lo => py_lt value lo
           | None => Ok false
           end ;;
  if below then Ok false else
  above <- match param_data !! "max" with
           | Some hi => py_gt value hi
           | None => Ok false
           end ;;
  if above then Ok false else Ok true.

(** [self.current_values[name] = value; self.parameters[name]["value"] = value];
    the second assignment raises [KeyError] on an unknown name. *)
Definition assign (st : ParameterManager) (name : string) (value : pyval)
  : result ParameterManager :=
  match parameters st !! name with
  | None => Raise KeyError
  | Some param_data =>
      Ok {| parameters := <[name := <["value" := value]> param_data]> (parameters st);
            current_values := <[name := value]> (current_values st);
            undo_stack := undo_stack st;
            redo_stack := redo_stack st;
            is_modified := is_modified st;
            events := events st |}
  end.

Definition emit (st : ParameterManager) (es : list event) : ParameterManager :=
  {| parameters := parameters st;
     current_values := current_values st;
     undo_stack := undo_stack st;
     redo_stack := redo_stack st;
     is_modified := is_modified st;
     events := events st ++ es |}.

Definition set_parameter (st : ParameterManager) (name : string) (value : pyval)
  : result (bool * ParameterManager) :=
  match current_values st !! name with
  | None => Ok (false, st)
  | Some old =>
      if py_eq old value then Ok (false, st)
      else if negb (_validate_type st name value) then Ok (false, st)
      else
        ok <- _validate_bounds st name value ;;
        if negb ok then Ok (false, st)
        else
          st1 <- assign st name value ;;
          Ok (true,
              {| parameters := parameters st1;
                 current_values := current_values st1;
                 undo_stack := undo_stack st1 ++ [[{| param_name := name; old_value := old; new_value := value |}]];
                 redo_stack := [];
                 is_modified := true;
                 events := events st1 ++ [FilePatched name value; ChangeNotified name old value; FileModifiedNotified] |})
  end.

(** The verdict of the first loop of [set_parameters_batch] on one entry. *)
Definition validate_entry (st : ParameterManager) (name : string) (value : pyval) : result bool :=
  match current_values st !! name with
  | None => Ok false
  | Some _ =>
      if negb (_validate_type st name value) then Ok false
      else
        ok <- _validate_bounds st name value ;;
        if negb ok then Ok false else Ok true
  end.

Fixpoint validate_all (st : ParameterManager) (updates : list (string * pyval))
    (results : gmap string bool) : result (gmap string bool) :=
  match updates with
  | [] => Ok results
  | (name, value) :: rest =>
      ok <- validate_entry st name value ;;
      validate_all st rest (<[name := ok]> results)
  end.

(** The second loop: [results[name]] and [current_values[name]] raise
    [KeyError] when the key is missing. *)
Fixpoint apply_all (st : ParameterManager) (updates : list (string * pyval))
    (results : gmap string bool) (changes : list ParameterChange)
  : result (ParameterManager * list ParameterChange) :=
  match updates with
  | [] => Ok (st, changes)
  | (name, value) :: rest =>
      match results !! name with
      | None => Raise KeyError
      | Some false => apply_all st rest results changes
      | Some true =>
          match current_values st !! name with
          | None => Raise KeyError
          | Some old =>
              st1 <- assign st name value ;;
              apply_all (emit st1 [FilePatched name value; ChangeNotified name old value])
                        rest results
                        (changes ++ [{| param_name := name; old_value := old; new_value := value |}])
          end
      end
  end.

(** [updates] is a Python dictionary, given as its items in order. *)
Definition set_parameters_batch (st : ParameterManager) (updates : list (string * pyval))
  : result (gmap string bool * ParameterManager) :=
  results <- validate_all st updates ∅ ;;
  r <- apply_all st updates results [] ;;
  let '(st1, changes) := r in
  match changes with
  | [] => Ok (results, st1)
  | _ :: _ =>
      Ok (results,
          {| parameters := parameters st1;
             current_values := current_values st1;
             undo_stack := undo_stack st1 ++ [changes];
             redo_stack := [];
             is_modified := true;
             events := events st1 ++ [FileModifiedNotified] |})
  end.

(** The loop of [undo] ([forward = false]) and of [redo] ([forward = true]). *)
Fixpoint replay (forward : bool) (st : ParameterManager) (changes : list ParameterChange)
  : result ParameterManager :=
  match changes with
  | [] => Ok st
  | change :: rest =>
      let target := if forward then new_value change else old_value change in
      let source := if forward then old_value change else new_value change in
      st1 <- assign st (param_name change) target ;;
      replay forward
             (emit st1 [FilePatched (param_name change) target;
                        ChangeNotified (param_name change) source target])
             rest
  end.

(** [list.pop()]: the last element and the rest. *)
Definition pop {A} (l : list A) : option (A * list A) :=
  match rev l with
  | [] => None
  | x :: r => Some (x, rev r)
  end.

Definition undo (st : ParameterManager) : result (bool * ParameterManager) :=
  match pop (undo_stack st) with
  | None => Ok (false, st)
  | Some (changes, remaining) =>
      st1 <- replay false
               {| parameters := parameters st;
                  current_values := current_values st;
                  undo_stack := remaining;
                  redo_stack := redo_stack st;
                  is_modified := is_modified st;
                  events := events st |}
               changes ;;
      Ok (true,
          {| parameters := parameters st1;
             current_values := current_values st1;
             undo_stack := undo_stack st1;
             redo_stack := redo_stack st1 ++ [changes];
             is_modified := true;
             events := events st1 ++ [FileModifiedNotified] |})
  end.

Definition redo (st : ParameterManager) : result (bool * ParameterManager) :=
  match pop (redo_stack st) with
  | None => Ok (false, st)
  | Some (changes, remaining) =>
      st1 <- replay true
               {| parameters := parameters st;
                  current_values := current_values st;
                  undo_stack := undo_stack st;
                  redo_stack := remaining;
                  is_modified := is_modified st;
                  events := events st |}
               changes ;;
      Ok (true,
          {| parameters := parameters st1;
             current_values := current_values st1;
             undo_stack := undo_stack st1 ++ [changes];
             redo_stack := redo_stack st1;
             is_modified := true;
             events := events st1 ++ [FileModifiedNotified] |})
  end.

(** *** The specification's reading of "type" and "bounds" *)

(** The runtime kind of a value is the declared type itself. *)
Definition kind_matches (t : pytype) (v : pyval) : bool :=
  match t, v with
  | PyFloat, VFloat _ => true
  | PyInt, VInt _ => true
  | PyBool, VBool _ => true
  | PyStr, VStr _ => true
  | _, _ => false
  end.

(** What [_validate_type] lets through for a declared type: an integer
    also passes for [float]. *)
Definition type_accepts (t : pytype) (v : pyval) : bool :=
  match t, v with
  | PyFloat, VFloat _ => true
  | PyFloat, VInt _ => true
  | PyInt, VInt _ => true
  | PyBool, VBool _ => true
  | PyStr, VStr _ => true
  | _, _ => false
  end.

Definition holds (r : result bool) : bool :=
  match r with
  | Ok true => true
  | _ => false
  end.

(** [min <= value <= max] for the bounds that are present. *)
Definition within_bounds (param_data : gmap string pyval) (v : pyval) : bool :=
  match param_data !! "min" with
  | Some lo => holds (py_ge v lo)
  | None => true
  end
  &&
  match param_data !! "max" with
  | Some hi => holds (py_le v hi)
  | None => true
  end.

(** [value < min] or [value > max] for a bound that is present. *)
Definition violates_bounds (param_data : gmap string pyval) (v : pyval) : bool :=
  match param_data !! "min" with
  | Some lo => holds (py_lt v lo)
  | None => false
  end
  ||
  match param_data !! "max" with
  | Some hi => holds (py_gt v hi)
  | None => false
  end.

Definition is_number (v : pyval) : bool :=
  match num_of v with
  | Some _ => true
  | None => false
  end.

(** The bounds that are present are numbers. *)
Definition numeric_bounds (param_data : gmap string pyval) : bool :=
  match param_data !! "min" with
  | Some lo => is_number lo
  | None => true
  end
  &&
  match param_data !! "max" with
  | Some hi => is_number hi
  | None => true
  end.

(** *** The bounds check, case by case *)

(** A comparison that was made and came out false, and one that raised. *)
Definition fails (r : result bool) : bool :=
  match r with
  | Ok false => true
  | _ => false
  end.

Definition raises (r : result bool) : bool :=
  match r with
  | Raise _ => true
  | Ok _ => false
  end.

(** [value < min] is true for the [min] that is present. *)
Definition below_min (param_data : gmap string pyval) (v : pyval) : bool :=
  match param_data !! "min" with
  | Some lo => holds (py_lt v lo)
  | None => false
  end.

(** No [min] is present, or [value < min] is false. *)
Definition min_passed (param_data : gmap string pyval) (v : pyval) : bool :=
  match param_data !! "min" with
  | Some lo => fails (py_lt v lo)
  | None => true
  end.

(** [value > max] is true for the [max] that is present. *)
Definition above_max (param_data : gmap string pyval) (v : pyval) : bool :=
  match param_data !! "max" with
  | Some hi => holds (py_gt v hi)
  | None => false
  end.

(** The value is below the minimum, or past the minimum and above the
    maximum. *)
Definition out_of_bounds (param_data : gmap string pyval) (v : pyval) : bool :=
  below_min param_data v || min_passed param_data v && above_max param_data v.

(** The comparison with [min] cannot be made, or the value is past the
    minimum and the comparison with [max] cannot be made. *)
Definition bound_unordered (param_data : gmap string pyval) (v : pyval) : bool :=
  match param_data !! "min" with
  | Some lo => raises (py_lt v lo)
  | None => false
  end
  || min_passed param_data v &&
     match param_data !! "max" with
     | Some hi => raises (py_gt v hi)
     | None => false
     end.



(** A spec that declares a bound declares numeric bounds and one of the
    types [float], [int], [bool]. *)
Definition spec_ok (param_data : gmap string pyval) : bool :=
  match param_data !! "min", param_data !! "max" with
  | None, None => true
  | _, _ =>
      numeric_bounds param_data &&
      match param_data !! "type" with
      | Some (VType PyFloat) | Some (VType PyInt) | Some (VType PyBool) => true
      | _ => false
      end
  end.

Definition schema_ok (st : ParameterManager) : Prop :=
  map_Forall (fun (_ : string) pd => spec_ok pd = true) (parameters st).

(** An entry of a batch passes when the name is known and both checks
    say yes. *)
Definition entry_passes (st : ParameterManager) (e : string * pyval) : bool :=
  bool_decide (is_Some (current_values st !! e.1))
  && _validate_type st e.1 e.2
  && holds (_validate_bounds st e.1 e.2).

Definition apply_entry (values : gmap string pyval) (e : string * pyval) : gmap string pyval :=
  <[e.1 := e.2]> values.

(** The entries of a batch that pass, in their original order. *)
Definition applied (st : ParameterManager) (updates : list (string * pyval))
  : list (string * pyval) :=
  List.filter (entry_passes st) updates.

Definition change_of (st : ParameterManager) (e : string * pyval) : ParameterChange :=
  {| param_name := e.1; old_value := get_parameter st e.1; new_value := e.2 |}.

(** The part of two stores the claims compare: values, specs, stacks. *)
Definition same_store (a b : ParameterManager) : Prop :=
  parameters a = parameters b /\
  current_values a = current_values b /\
  undo_stack a = undo_stack b /\
  redo_stack a = redo_stack b.

(** [n] rounds of [undo(); redo()], each of which has to return [True]. *)
Fixpoint undo_redo_cycles (n : nat) (st : ParameterManager) : result (bool * ParameterManager) :=
  match n with
  | O => Ok (true, st)
  | S k =>
      u <- undo st ;;
      r <- redo (snd u) ;;
      c <- undo_redo_cycles k (snd r) ;;
      Ok (fst u && fst r && fst c, snd c)
  end.

(** The state a successful [set_parameter] leaves. *)
Definition after_set (st : ParameterManager) (name : string) (pd : gmap string pyval)
    (old value : pyval) : ParameterManager :=
  {| parameters := <[name := <["value" := value]> pd]> (parameters st);
     current_values := <[name := value]> (current_values st);
     undo_stack := undo_stack st ++ [[{| param_name := name; old_value := old; new_value := value |}]];
     redo_stack := [];
     is_modified := true;
     events := events st ++ [FilePatched name value; ChangeNotified name old value; FileModifiedNotified] |}.

(** The state [undo] leaves after a successful [set_parameter]: the
    store fields are those before the call, up to the ["value"] entry of
    the spec, and the batch sits on the redo stack. *)
Definition undone (st : ParameterManager) (name : string) (pd : gmap string pyval)
    (old value : pyval) (s : ParameterManager) : Prop :=
  parameters s = <[name := <["value" := old]> pd]> (parameters st) /\
  current_values s = <[name := old]> (current_values st) /\
  undo_stack s = undo_stack st /\
  redo_stack s = [[{| param_name := name; old_value := old; new_value := value |}]].

(** *** The rest of the interface *)

Definition reset_parameter (st : ParameterManager) (name : string) (default_value : pyval)
  : result (bool * ParameterManager) :=
  set_parameter st name default_value.

(** [get_all_parameters] hands out a copy of the current values. *)
Definition get_all_parameters (st : ParameterManager) : gmap string pyval :=
  current_values st.

Definition clear_history (st : ParameterManager) : ParameterManager :=
  {| parameters := parameters st;
     current_values := current_values st;
     undo_stack := [];
     redo_stack := [];
     is_modified := is_modified st;
     events := events st |}.

(** *** Stores the interface can produce *)

(** Every current value is the ["value"] field of its spec. *)
Definition synced (st : ParameterManager) : Prop :=
  forall n v, current_values st !! n = Some v ->
              exists pd, parameters st !! n = Some pd /\ pd !! "value" = Some v.

(** Every change on the two stacks names a parameter that has a spec. *)
Definition stacks_known (st : ParameterManager) : Prop :=
  forall batch c,
    batch ∈ undo_stack st \/ batch ∈ redo_stack st ->
    c ∈ batch ->
    is_Some (parameters st !! param_name c).

(** A store built by [__init__] and driven through the methods. *)
Inductive reachable : ParameterManager -> Prop :=
  | reach_init params : reachable (init params)
  | reach_set st name value b st' :
      reachable st -> set_parameter st name value = Ok (b, st') -> reachable st'
  | reach_batch st updates results st' :
      reachable st -> set_parameters_batch st updates = Ok (results, st') -> reachable st'
  | reach_undo st b st' : reachable st -> undo st = Ok (b, st') -> reachable st'
  | reach_redo st b st' : reachable st -> redo st = Ok (b, st') -> reachable st'
  | reach_clear st : reachable st -> reachable (clear_history st).

(** The value a change is replayed to, and the fold it amounts to. *)
Definition target_of (forward : bool) (c : ParameterChange) : pyval :=
  if forward then new_value c else old_value c.

Definition replay_values (forward : bool) (values : gmap string pyval)
    (changes : list ParameterChange) : gmap string pyval :=
  foldl (fun m c => <[param_name c := target_of forward c]> m) values changes.

(** *** A sample store

    [amplitude] (float, 0 to 10), [damping] (float, 0 to 1), [count]
    (int, 1 to 5), [show_grid] (bool) and [label] (str). *)

Definition f0_0 : spec_float := S754_zero false.
Definition f0_5 : spec_float := S754_finite false 4503599627370496 (-53).
Definition f1_0 : spec_float := S754_finite false 4503599627370496 (-52).
Definition f2_5 : spec_float := S754_finite false 5629499534213120 (-51).
Definition f10_0 : spec_float := S754_finite false 5629499534213120 (-49).

Definition sample_parameters : gmap string (gmap string pyval) :=
  list_to_map
    [("amplitude",
      list_to_map [("value", VFloat f1_0); ("type", VType PyFloat);
                   ("unit", VStr "m"); ("description", VStr "Amplitude");
                   ("min", VFloat f0_0); ("max", VFloat f10_0)]);
     ("damping",
      list_to_map [("value", VFloat f0_5); ("type", VType PyFloat);
                   ("unit", VStr ""); ("description", VStr "Damping");
                   ("min", VFloat f0_0); ("max", VFloat f1_0)]);
     ("count",
      list_to_map [("value", VInt 3); ("type", VType PyInt);
                   ("unit", VStr ""); ("description", VStr "Count");
                   ("min", VInt 1); ("max", VInt 5)]);
     ("show_grid",
      list_to_map [("value", VBool true); ("type", VType PyBool);
                   ("unit", VStr ""); ("description", VStr "Grid")]);
     ("label",
      list_to_map [("value", VStr "wave"); ("type", VType PyStr);
                   ("unit", VStr ""); ("description", VStr "Label")])].

Definition sample : ParameterManager := init sample_parameters.

(** The sample store with [min] and [max] of [label] set to [None]. *)
Definition sample_unbounded_label : ParameterManager :=
  init (<["label" :=
            list_to_map [("value", VStr "wave"); ("type", VType PyStr);
                         ("unit", VStr ""); ("description", VStr "Label");
                         ("min", VNone); ("max", VNone)]]> sample_parameters).

(** A store of declarations that carry all six fields, the bounds that
    do not apply being [None]: [amplitude] (float, 0 to 10), [count]
    (int, at least 1), [level] (int, at most 5), [show_grid] (bool). *)
Definition declared_parameters : gmap string (gmap string pyval) :=
  list_to_map
    [("amplitude",
      list_to_map [("value", VFloat f1_0); ("type", VType PyFloat);
                   ("unit", VStr "m"); ("description", VStr "Amplitude");
                   ("min", VFloat f0_0); ("max", VFloat f10_0)]);
     ("count",
      list_to_map [("value", VInt 3); ("type", VType PyInt);
                   ("unit", VStr ""); ("description", VStr "Count");
                   ("min", VInt 1); ("max", VNone)]);
     ("level",
      list_to_map [("value", VInt 3); ("type", VType PyInt);
                   ("unit", VStr ""); ("description", VStr "Level");
                   ("min", VNone); ("max", VInt 5)]);
     ("show_grid",
      list_to_map [("value", VBool true); ("type", VType PyBool);
                   ("unit", VStr ""); ("description", VStr "Grid");
                   ("min", VNone); ("max", VNone)])].

Definition declared : ParameterManager := init declared_parameters.

(** What "Reset All" sends for that store: every parameter with its
    declared value. *)
Definition declared_defaults : list (string * pyval) :=
  [("amplitude", VFloat f1_0); ("count", VInt 3); ("level", VInt 3);
   ("show_grid", VBool true)].

Definition sample_updates : list (string * pyval) :=
  [("amplitude", VFloat f2_5); ("count", VInt 9); ("volume", VInt 1);
   ("show_grid", VBool true); ("damping", VStr "high")].

End Store.

(** ** Text

    A string is a sequence of characters; the characters here are those
    with a code point below 256. *)

Module Text.

Definition code (c : ascii) : nat := nat_of_ascii c.

(** [str.isspace] and the regular expression class [\s]. *)
Definition isspace (c : ascii) : bool :=
  let n := code c in
  ((9 <=? n) && (n <=? 13) || (28 <=? n) && (n <=? 32) || (n =? 133) || (n =? 160))%nat.

(** The class [[A-Z]]. *)
Definition upper_az (c : ascii) : bool :=
  let n := code c in ((65 <=? n) && (n <=? 90))%nat.

(** The class [[^#\n]]. *)
Definition not_hash_newline (c : ascii) : bool :=
  let n := code c in negb ((n =? 35) || (n =? 10))%nat.

(** The class [[Cc]]. *)
Definition c_or_C (c : ascii) : bool :=
  let n := code c in ((n =? 67) || (n =? 99))%nat.

(** [str.lower] on one character. *)
Definition lower_char (c : ascii) : ascii :=
  let n := code c in
  if ((65 <=? n) && (n <=? 90) || (192 <=? n) && (n <=? 222) && negb (n =? 215))%nat
  then ascii_of_nat (n + 32) else c.

Fixpoint lower (s : string) : string :=
  match s with
  | EmptyString => EmptyString
  | String c r => String (lower_char c) (lower r)
  end.

Fixpoint lstrip (s : string) : string :=
  match s with
  | EmptyString => EmptyString
  | String c r => if isspace c then lstrip r else s
  end.

Fixpoint rstrip (s : string) : string :=
  match s with
  | EmptyString => EmptyString
  | String c r =>
      match rstrip r with
      | EmptyString => if isspace c then EmptyString else String c EmptyString
      | r' => String c r'
      end
  end.

Definition strip (s : string) : string := rstrip (lstrip s).

(** [needle in hay]. *)
Fixpoint contains (needle hay : string) : bool :=
  String.prefix needle hay ||
  match hay with
  | EmptyString => false
  | String _ r => contains needle r
  end.

(** [s.split('\n')]. *)
Fixpoint split_lines (s : string) : list string :=
  match s with
  | EmptyString => [EmptyString]
  | String c r =>
      if (code c =? 10)%nat then EmptyString :: split_lines r
      else match split_lines r with
           | h :: t => String c h :: t
           | [] => [String c EmptyString]
           end
  end.

(** *** Regular expressions

    The fragment of [re] the extractor's two patterns are written in,
    matched by backtracking in the order [re] tries the alternatives:
    leftmost start, first alternative first, greedy repetition longest
    first, lazy repetition shortest first. *)

Inductive regex :=
  | RClass (p : ascii -> bool)
  | RLit (s : string)
  | RSeq (r1 r2 : regex)
  | RAlt (r1 r2 : regex)
  | RStar (p : ascii -> bool)
  | RLazyPlus (p : ascii -> bool)
  | ROpt (r : regex)
  | RGroup (r : regex)
  | REnd.

(** A group is the pair of offsets where it starts and ends. *)
Definition span : Type := nat * nat.
Definition cont : Type := string -> nat -> option span -> option span.

Fixpoint drop_prefix (lit s : string) : option string :=
  match lit, s with
  | EmptyString, _ => Some s
  | String a lit', String b s' =>
      if (code a =? code b)%nat then drop_prefix lit' s' else None
  | String _ _, EmptyString => None
  end.

(** [p*]: as many characters as possible, then fewer. *)
Fixpoint star_greedy (p : ascii -> bool) (k : cont) (g : option span) (s : string) (pos : nat)
  : option span :=
  match s with
  | String c r =>
      if p c then
        match star_greedy p k g r (S pos) with
        | Some m => Some m
        | None => k s pos g
        end
      else k s pos g
  | EmptyString => k s pos g
  end.

(** [p*?]: as few characters as possible, then more. *)
Fixpoint star_lazy (p : ascii -> bool) (k : cont) (g : option span) (s : string) (pos : nat)
  : option span :=
  match k s pos g with
  | Some m => Some m
  | None =>
      match s with
      | String c r => if p c then star_lazy p k g r (S pos) else None
      | EmptyString => None
      end
  end.

Fixpoint rmatch (r : regex) (s : string) (pos : nat) (g : option span) (k : cont)
  : option span :=
  match r with
  | RClass p =>
      match s with
      | String c s' => if p c then k s' (S pos) g else None
      | EmptyString => None
      end
  | RLit lit =>
      match drop_prefix lit s with
      | Some s' => k s' (pos + String.length lit)%nat g
      | None => None
      end
  | RSeq r1 r2 => rmatch r1 s pos g (fun s' pos' g' => rmatch r2 s' pos' g' k)
  | RAlt r1 r2 =>
      match rmatch r1 s pos g k with
      | Some m => Some m
      | None => rmatch r2 s pos g k
      end
  | RStar p => star_greedy p k g s pos
  | RLazyPlus p =>
      match s with
      | String c s' => if p c then star_lazy p k g s' (S pos) else None
      | EmptyString => None
      end
  | ROpt r1 =>
      match rmatch r1 s pos g k with
      | Some m => Some m
      | None => k s pos g
      end
  | RGroup r1 => rmatch r1 s pos g (fun s' pos' _ => k s' pos' (Some (pos, pos')))
  | REnd =>
      match s with
      | EmptyString => k s pos g
      | String c EmptyString => if (code c =? 10)%nat then k s pos g else None
      | _ => None
      end
  end.

Fixpoint search_from (r : regex) (s : string) (pos : nat) : option span :=
  match rmatch r s pos None (fun _ _ g => Some (default (0, 0)%nat g)) with
  | Some m => Some m
  | None =>
      match s with
      | String _ s' => search_from r s' (S pos)
      | EmptyString => None
      end
  end.

(** [pattern.search(line)], giving [match.group(1)]. *)
Definition search_group (r : regex) (line : string) : option string :=
  match search_from r line 0 with
  | Some (a, b) => Some (String.substring a (b - a) line)
  | None => None
  end.

End Text.

(** ** Dictionaries that keep insertion order

    A Python [dict] as the list of its items; [eqb] is the equality of
    keys. *)

Section Dict.
Context {K V : Type} (eqb : K -> K -> bool).

Fixpoint dict_get (d : list (K * V)) (k : K) : option V :=
  match d with
  | [] => None
  | (k', v) :: r => if eqb k' k then Some v else dict_get r k
  end.

(** [d[k] = v]: an existing key keeps its place. *)
Fixpoint dict_set (d : list (K * V)) (k : K) (v : V) : list (K * V) :=
  match d with
  | [] => [(k, v)]
  | (k', v') :: r => if eqb k' k then (k', v) :: r else (k', v') :: dict_set r k v
  end.

(** [d[k]], which raises [KeyError] on a missing key. *)
Definition getitem (d : list (K * V)) (k : K) : result V :=
  match dict_get d k with
  | Some v => Ok v
  | None => Raise KeyError
  end.

(** [k in l] and [l.remove(k)] on a list. *)
Definition list_contains (l : list K) (k : K) : bool := existsb (fun x => eqb x k) l.

Fixpoint list_remove (l : list K) (k : K) : list K :=
  match l with
  | [] => []
  | x :: r => if eqb x k then r else x :: list_remove r k
  end.
End Dict.

#[global] Instance spec_float_eq_dec : EqDecision spec_float.
Proof. solve_decision. Defined.

#[global] Instance pyval_eq_dec : EqDecision pyval.
Proof. solve_decision. Defined.

(** Equality of two objects as containers test it: the same object, or
    [==]. *)
Definition key_eqb (a b : pyval) : bool := bool_decide (a = b) || py_eq a b.

(** Keys are pairwise different, as in a dictionary. *)
Fixpoint distinct_keys (l : list pyval) : Prop :=
  match l with
  | [] => True
  | x :: r => (forall y, y ∈ r -> key_eqb x y = false) /\ distinct_keys r
  end.

(** ** Extractor ([parser.py]) *)

Module Parser.

Import Text.

(** The part of Python's syntax tree the extractor looks at.  A dictionary
    key is absent for a [**mapping] entry. *)
Inductive unaryop := USub | UAdd | Invert | Not.

Inductive expr :=
  | EDict (keys : list (option expr)) (values : list expr)
  | EList (elts : list expr)
  | ETuple (elts : list expr)
  | EConstant (value : pyval)
  | EName (id : string)
  | EUnaryOp (op : unaryop) (operand : expr)
  | EOther.

(** Statements: a plain assignment ([ast.Assign]), a node that holds
    statements (a [def], a [class], an [if], a loop, a [with], a [try]
    and its handlers, a [match] and its cases), anything else (an
    annotated or augmented assignment among them). *)
Inductive stmt :=
  | Assign (targets : list expr) (value : expr) (lineno : nat)
  | Block (body : list stmt)
  | OtherStmt.

(** What [_extract_value] returns. *)
Inductive pyobj :=
  | OVal (v : pyval)
  | ODict (items : list (pyval * pyobj))
  | OList (elts : list pyobj)
  | OTuple (elts : list pyobj).

(** The parser object: the text and the tree [ast.parse] gave for it. *)
Record ParameterParser := {
  source_code : string;
  tree : list stmt
}.

Definition lines (p : ParameterParser) : list string := split_lines (source_code p).

(** *** [ast.walk]

    [ast.walk] yields the nodes breadth first; among statements that is
    level by level, each level from left to right. *)

Definition children (s : stmt) : list stmt :=
  match s with
  | Block body => body
  | _ => []
  end.

Fixpoint height (s : stmt) : nat :=
  match s with
  | Block body => S (fold_right (fun c h => Nat.max (height c) h) 0%nat body)
  | _ => 1%nat
  end.

Fixpoint walk_levels (fuel : nat) (level : list stmt) : list stmt :=
  match fuel with
  | O => []
  | S fuel' =>
      match level with
      | [] => []
      | _ :: _ => level ++ walk_levels fuel' (flat_map children level)
      end
  end.

Definition walk (body : list stmt) : list stmt :=
  walk_levels (fold_right (fun c h => Nat.max (height c) h) 0%nat body) body.

Definition is_parameters_target (target : expr) : bool :=
  match target with
  | EName id => String.eqb id "PARAMETERS"
  | _ => false
  end.

(** The first assignment, in [ast.walk] order, one of whose targets is
    the name [PARAMETERS]. *)
Fixpoint first_assignment (nodes : list stmt) : option (expr * nat) :=
  match nodes with
  | [] => None
  | Assign targets value lineno :: rest =>
      if existsb is_parameters_target targets then Some (value, lineno)
      else first_assignment rest
  | _ :: rest => first_assignment rest
  end.

(** *** [_extract_value] and [_extract_dict_value] *)

(** [-operand] and [+operand]. *)
Definition negate (o : pyobj) : result pyobj :=
  match o with
  | OVal (VInt n) => Ok (OVal (VInt (- n)))
  | OVal (VBool b) => Ok (OVal (VInt (- Z.b2z b)))
  | OVal (VFloat x) => Ok (OVal (VFloat (SFopp x)))
  | _ => Raise TypeError
  end.

Definition posate (o : pyobj) : result pyobj :=
  match o with
  | OVal (VInt n) => Ok (OVal (VInt n))
  | OVal (VBool b) => Ok (OVal (VInt (Z.b2z b)))
  | OVal (VFloat x) => Ok (OVal (VFloat x))
  | _ => Raise TypeError
  end.

Definition extract_name (id : string) : pyobj :=
  if String.eqb id "True" then OVal (VBool true)
  else if String.eqb id "False" then OVal (VBool false)
  else if String.eqb id "None" then OVal VNone
  else if String.eqb id "float" then OVal (VType PyFloat)
  else if String.eqb id "int" then OVal (VType PyInt)
  else if String.eqb id "bool" then OVal (VType PyBool)
  else if String.eqb id "str" then OVal (VType PyStr)
  else OVal VNone.

Definition extract_each (extract : expr -> result pyobj) : list expr -> result (list pyobj) :=
  fix go (elts : list expr) : result (list pyobj) :=
    match elts with
    | [] => Ok []
    | e :: rest => x <- extract e ;; xs <- go rest ;; Ok (x :: xs)
    end.

(** The loop over [zip(node.keys, node.values)]. *)
Definition extract_items (extract : expr -> result pyobj)
  : list (option expr) -> list expr -> list (pyval * pyobj) -> result (list (pyval * pyobj)) :=
  fix go (keys : list (option expr)) (values : list expr) (acc : list (pyval * pyobj))
    {struct values} : result (list (pyval * pyobj)) :=
    match values, keys with
    | value_node :: values', key_node :: keys' =>
        match key_node with
        | Some (EConstant key) =>
            value <- extract value_node ;;
            go keys' values' (dict_set key_eqb acc key value)
        | _ => go keys' values' acc
        end
    | _, _ => Ok acc
    end.

Fixpoint _extract_value (node : expr) : result pyobj :=
  match node with
  | EDict keys values =>
      items <- extract_items _extract_value keys values [] ;; Ok (ODict items)
  | EList elts => xs <- extract_each _extract_value elts ;; Ok (OList xs)
  | ETuple elts => xs <- extract_each _extract_value elts ;; Ok (OTuple xs)
  | EConstant value => Ok (OVal value)
  | EName id => Ok (extract_name id)
  | EUnaryOp op operand =>
      o <- _extract_value operand ;;
      match op with
      | USub => negate o
      | UAdd => posate o
      | _ => Ok (OVal VNone)
      end
  | EOther => Ok (OVal VNone)
  end.

Definition _extract_dict_value (node : expr) : result (list (pyval * pyobj)) :=
  match node with
  | EDict keys values => extract_items _extract_value keys values []
  | _ => Ok []
  end.

Definition extract_parameters (p : ParameterParser) : result (list (pyval * pyobj)) :=
  match first_assignment (walk (tree p)) with
  | Some (value, _) => _extract_dict_value value
  | None => Ok []
  end.

Definition _find_parameters_line (p : ParameterParser) : option nat :=
  match first_assignment (walk (tree p)) with
  | Some (_, lineno) => Some (lineno - 1)%nat
  | None => None
  end.

(** *** [get_categories] *)

Definition dquote : string := String (ascii_of_nat 34) EmptyString.
Definition squote : string := "'".

(** The pattern of the first loop of [get_categories]: a hash, blanks,
    group 1, blanks, end of line; group 1 is an upper-case letter
    followed, lazily, by one or more characters other than hash and
    newline. *)
Definition header_pattern : regex :=
  RSeq (RLit "#")
    (RSeq (RStar isspace)
      (RSeq (RGroup (RSeq (RClass upper_az) (RLazyPlus not_hash_newline)))
        (RSeq (RStar isspace) REnd))).

(** The pattern of [_extract_category_lines]: a hash, blanks, group 1,
    blanks, end of line; group 1 is an upper-case letter, lazily one or
    more characters other than hash and newline, and then [Parameter]
    or [Parameters], or else [Setting] or [Settings], or else [Config]
    or [config] followed by any number of such characters. *)
Definition category_pattern : regex :=
  RSeq (RLit "#")
    (RSeq (RStar isspace)
      (RSeq (RGroup
               (RAlt (RSeq (RClass upper_az)
                        (RSeq (RLazyPlus not_hash_newline)
                           (RSeq (RLit "Parameter") (ROpt (RLit "s")))))
                  (RAlt (RSeq (RClass upper_az)
                           (RSeq (RLazyPlus not_hash_newline)
                              (RSeq (RLit "Setting") (ROpt (RLit "s")))))
                        (RSeq (RClass upper_az)
                           (RSeq (RLazyPlus not_hash_newline)
                              (RSeq (RClass c_or_C)
                                 (RSeq (RLit "onfig") (RStar not_hash_newline))))))))
        (RSeq (RStar isspace) REnd))).

Definition keywords : list string :=
  ["parameter"; "setting"; "config"; "option"; "property"].

Definition is_empty {A} (l : list A) : bool :=
  match l with
  | [] => true
  | _ :: _ => false
  end.

(** [sorted(items, reverse=True)] on items with distinct line numbers. *)
Fixpoint insert_desc (x : nat * string) (l : list (nat * string)) : list (nat * string) :=
  match l with
  | [] => [x]
  | y :: r => if (fst y <=? fst x)%nat then x :: y :: r else y :: insert_desc x r
  end.

Definition sorted_desc (l : list (nat * string)) : list (nat * string) :=
  fold_right insert_desc [] l.

(** The category comment closest above [param_line], or ["Default"]. *)
Definition nearest_category (categories_by_line : list (nat * string)) (param_line : nat)
  : string :=
  match List.find (fun c => (fst c <? param_line)%nat) (sorted_desc categories_by_line) with
  | Some (_, cat_name) => cat_name
  | None => "Default"
  end.

(** One round of the loop that maps parameters to categories. *)
Definition assign_step (category_of : nat -> string) (res : list (string * list pyval))
    (item : pyval * nat) : result (list (string * list pyval)) :=
  let '(param_key, param_line) := item in
  let assigned_category := category_of param_line in
  let res1 :=
    match dict_get String.eqb res assigned_category with
    | None => dict_set String.eqb res assigned_category []
    | Some _ => res
    end in
  members <- getitem String.eqb res1 assigned_category ;;
  let res2 :=
    if list_contains key_eqb members param_key then res1
    else dict_set String.eqb res1 assigned_category (members ++ [param_key]) in
  if negb (String.eqb assigned_category "Default") then
    default_list <- getitem String.eqb res2 "Default" ;;
    if list_contains key_eqb default_list param_key
    then Ok (dict_set String.eqb res2 "Default" (list_remove key_eqb default_list param_key))
    else Ok res2
  else Ok res2.

Fixpoint assign_all (category_of : nat -> string) (res : list (string * list pyval))
    (items : list (pyval * nat)) : result (list (string * list pyval)) :=
  match items with
  | [] => Ok res
  | item :: rest =>
      res' <- assign_step category_of res item ;;
      assign_all category_of res' rest
  end.

Fixpoint find_from (f : string -> bool) (ls : list string) (i : nat) : option nat :=
  match ls with
  | [] => None
  | line :: rest => if f line then Some i else find_from f rest (S i)
  end.

Fixpoint category_lines_from (ls : list string) (i : nat) (categories : list (nat * string))
  : list (nat * string) :=
  match ls with
  | [] => categories
  | line :: rest =>
      category_lines_from rest (S i)
        match search_group category_pattern line with
        | Some g => dict_set Nat.eqb categories i (strip g)
        | None => categories
        end
  end.

Definition _extract_category_lines (p : ParameterParser) (start_line : nat)
  : list (nat * string) :=
  category_lines_from (drop start_line (lines p)) start_line [].

(** The first loop of [get_categories]: its state is [categories],
    [current_category] and [current_params]. *)
Definition header_step (st : list (string * list pyval) * string * list pyval) (line : string)
  : list (string * list pyval) * string * list pyval :=
  let '(categories, current_category, current_params) := st in
  match search_group header_pattern line with
  | Some g =>
      let category_text := strip g in
      if existsb (fun keyword => contains keyword (lower category_text)) keywords then
        (if is_empty current_params then categories
         else dict_set String.eqb categories current_category current_params,
         category_text, [])
      else st
  | None => st
  end.

Definition scan_headers (p : ParameterParser) (params_line_num : nat)
  : list (string * list pyval) :=
  let '(categories, current_category, current_params) :=
    fold_left header_step (drop params_line_num (lines p)) ([], "Default", []) in
  if negb (is_empty current_params)
  then dict_set String.eqb categories current_category current_params
  else match dict_get String.eqb categories current_category with
       | None => dict_set String.eqb categories current_category []
       | Some _ => categories
       end.

Section Categories.
(** [repr] of a float, which is Python's own. *)
Variable float_repr : spec_float -> string.

(** [str(v)], as the f-string formats a key. *)
Definition py_str (v : pyval) : string :=
  match v with
  | VStr s => s
  | VInt n => pretty n
  | VBool true => "True"
  | VBool false => "False"
  | VNone => "None"
  | VFloat x => float_repr x
  | VType PyFloat => "<class 'float'>"
  | VType PyInt => "<class 'int'>"
  | VType PyBool => "<class 'bool'>"
  | VType PyStr => "<class 'str'>"
  end.

Definition mentions (key : pyval) (line : string) : bool :=
  contains (String.append dquote (String.append (py_str key) dquote)) line
  || contains (String.append squote (String.append (py_str key) squote)) line.

Definition _find_parameter_lines (p : ParameterParser) (param_keys : list pyval)
    (start_line : nat) : list (pyval * nat) :=
  fold_left
    (fun param_lines key =>
       match find_from (mentions key) (drop start_line (lines p)) start_line with
       | Some i => dict_set key_eqb param_lines key i
       | None => param_lines
       end)
    param_keys [].

(** [result["Default"]] starts as the list [param_keys] itself; nothing
    reads [param_keys] afterwards, so sharing it is not observable. *)
Definition get_categories (p : ParameterParser) : result (list (string * list pyval)) :=
  parameters <- extract_parameters p ;;
  if is_empty parameters then Ok []
  else
    match _find_parameters_line p with
    | None => Ok [("Default", map fst parameters)]
    | Some params_line_num =>
        let categories := scan_headers p params_line_num in
        let param_keys := map fst parameters in
        let param_line_numbers := _find_parameter_lines p param_keys params_line_num in
        let categories_by_line := _extract_category_lines p params_line_num in
        let res :=
          dict_set String.eqb (map (fun c => (fst c, [])) categories) "Default" param_keys in
        res' <- assign_all (nearest_category categories_by_line) res param_line_numbers ;;
        Ok (List.filter (fun c => negb (is_empty (snd c))) res')
    end.
End Categories.

(** *** What the category loop preserves *)

(** The names a category map lists. *)
Definition values_of (d : list (string * list pyval)) : list pyval := concat (map snd d).

(** What every round of the loop preserves: the category names are distinct, the
    lists together hold each of [P] once, the keys still to come sit in
    ["Default"], and no other list holds anything equal to one of them. *)
Definition assigning (P : list pyval) (res : list (string * list pyval))
    (remaining : list pyval) : Prop :=
  NoDup (map fst res) /\
  Permutation (values_of res) P /\
  exists dl,
    dict_get String.eqb res "Default" = Some dl /\
    (forall k, k ∈ remaining -> k ∈ dl) /\
    (forall c l x k, (c, l) ∈ res -> c <> "Default" -> x ∈ l -> k ∈ remaining ->
                     key_eqb x k = false).

(** *** Building the parser object

    [ast.parse] is Python's own; it gives the tree of a text, or nothing
    when the text is not valid Python and [SyntaxError] is raised. *)

Section Construction.
Variable ast_parse : string -> option (list stmt).

(** [ParameterParser.__init__] on the text of the file. *)
Definition new_parser (source : string) : result ParameterParser :=
  match ast_parse source with
  | Some t => Ok {| source_code := source; tree := t |}
  | None => Raise SyntaxError
  end.

(** The specification's [parse]: build the parser, extract. *)
Definition parse_parameters (source : string) : result (list (pyval * pyobj)) :=
  p <- new_parser source ;; extract_parameters p.
End Construction.

(** Every line number is at most the ones before it. *)
Fixpoint descending (l : list (nat * string)) : Prop :=
  match l with
  | [] => True
  | x :: r => (forall y, y ∈ r -> (fst y <= fst x)%nat) /\ descending r
  end.

(** *** Where a key is put *)

(** The category of the comment nearest above the first line, from the
    [PARAMETERS] line on, that mentions the key in quotes; ["Default"]
    when no line mentions it. *)
Definition category_of_key (float_repr : spec_float -> string) (p : ParameterParser)
    (params_line_num : nat) (key : pyval) : string :=
  match find_from (mentions float_repr key) (drop params_line_num (lines p)) params_line_num with
  | Some i => nearest_category (_extract_category_lines p params_line_num) i
  | None => "Default"
  end.

(** During the loop each key of [P] sits under ["Default"] while it is
    still to come, and under its own category afterwards. *)
Definition placed (P : list pyval) (category : pyval -> string)
    (res : list (string * list pyval)) (remaining : list pyval) : Prop :=
  forall k, k ∈ P ->
    exists l,
      dict_get String.eqb res (if bool_decide (k ∈ remaining) then "Default" else category k)
        = Some l /\
      k ∈ l.

(** From [res] to [res'] no list loses an element other than [k]. *)
Definition grows (k : pyval) (res res' : list (string * list pyval)) : Prop :=
  forall c l x,
    dict_get String.eqb res c = Some l -> x ∈ l -> key_eqb x k = false ->
    exists l', dict_get String.eqb res' c = Some l' /\ x ∈ l'.

(** The first mention of each key, as [_find_parameter_lines] collects them. *)
Definition mention_of (float_repr : spec_float -> string) (p : ParameterParser)
    (start_line : nat) (key : pyval) : list (pyval * nat) :=
  match find_from (mentions float_repr key) (drop start_line (lines p)) start_line with
  | Some i => [(key, i)]
  | None => []
  end.

(** *** [validate_parameters]

    An error message is kept as the data it is formatted from: the
    parameter name, the set of missing fields (listed in the order of
    [required_fields]; Python prints a set in no fixed order) and the
    offending type entry. *)
Inductive problem :=
  | NotFound
  | NotADictionary (param_name : pyval)
  | MissingFields (param_name : pyval) (missing_fields : list string)
  | InvalidType (param_name : pyval) (param_type : pyobj).

Definition required_fields : list string :=
  ["value"; "type"; "unit"; "description"; "min"; "max"].

(** [field in param_data]. *)
Definition has_field (param_data : list (pyval * pyobj)) (field : string) : bool :=
  match dict_get key_eqb param_data (VStr field) with
  | Some _ => true
  | None => false
  end.

(** [param_type in (int, float, bool, str)]. *)
Definition is_type_object (param_type : pyobj) : bool :=
  match param_type with
  | OVal (VType _) => true
  | _ => false
  end.

(** One round of the loop over [parameters.items()]. *)
Definition check_parameter (errors : list problem) (item : pyval * pyobj) : list problem :=
  let '(param_name, param_data) := item in
  match param_data with
  | ODict fields =>
      let missing_fields := List.filter (fun f => negb (has_field fields f)) required_fields in
      let errors1 :=
        if is_empty missing_fields then errors
        else errors ++ [MissingFields param_name missing_fields] in
      match dict_get key_eqb fields (VStr "type") with
      | Some param_type =>
          if is_type_object param_type then errors1
          else errors1 ++ [InvalidType param_name param_type]
      | None => errors1
      end
  | _ => errors ++ [NotADictionary param_name]
  end.

(** The messages one declaration adds. *)
Definition problems_of (item : pyval * pyobj) : list problem := check_parameter [] item.

Definition validate_parameters (p : ParameterParser) : result (bool * list problem) :=
  parameters <- extract_parameters p ;;
  if is_empty parameters then Ok (false, [NotFound])
  else
    let errors := fold_left check_parameter parameters [] in
    Ok (is_empty errors, errors).

(** *** Every statement of a tree *)

(** A statement and all the statements below it. *)
Fixpoint nodes (s : stmt) : list stmt :=
  s :: match s with
       | Block body => flat_map nodes body
       | _ => []
       end.

(** A plain assignment one of whose targets is the name [PARAMETERS]. *)
Definition assigns_parameters (s : stmt) : bool :=
  match s with
  | Assign targets _ _ => existsb is_parameters_target targets
  | _ => false
  end.

(** A declaration that has the six fields and a type object. *)
Definition well_formed (param_data : pyobj) : Prop :=
  exists fields,
    param_data = ODict fields /\
    (forall f, f ∈ required_fields -> has_field fields f = true) /\
    exists t, dict_get key_eqb fields (VStr "type") = Some (OVal (VType t)).

(** *** A sample script

    Three parameters below a "Physical Parameters" comment and a fourth
    below a "Display Options" comment. *)

Definition nl : string := String (ascii_of_nat 10) EmptyString.

Definition join_lines (ls : list string) : string :=
  fold_right (fun l r => String.append l (String.append nl r)) EmptyString ls.

Definition spec_of (value type_marker : expr) : expr :=
  EDict [Some (EConstant (VStr "value")); Some (EConstant (VStr "type"))]
        [value; type_marker].

Definition sample_source : string :=
  join_lines
    ["from manimlib import *";
     "";
     "PARAMETERS = {";
     "    # Physical Parameters";
     "    'amplitude': {'value': 1.0, 'type': float},";
     "    'damping': {'value': 0.5, 'type': float},";
     "    'show_grid': {'value': True, 'type': bool},";
     "    # Display Options";
     "    'label': {'value': 'wave', 'type': str},";
     "}"].

Definition sample_tree : list stmt :=
  [OtherStmt;
   Assign [EName "PARAMETERS"]
     (EDict [Some (EConstant (VStr "amplitude")); Some (EConstant (VStr "damping"));
             Some (EConstant (VStr "show_grid")); Some (EConstant (VStr "label"))]
            [spec_of (EConstant (VFloat Store.f1_0)) (EName "float");
             spec_of (EConstant (VFloat Store.f0_5)) (EName "float");
             spec_of (EConstant (VBool true)) (EName "bool");
             spec_of (EConstant (VStr "wave")) (EName "str")])
     3].

Definition sample_script : ParameterParser :=
  {| source_code := sample_source; tree := sample_tree |}.

(** What [ast.parse] answers on the texts used below: the tree of the
    sample script, the tree of [x = 1], and nothing for any other text
    (taken not to parse). *)
Definition sample_ast_parse (source : string) : option (list stmt) :=
  if String.eqb source sample_source then Some sample_tree
  else if String.eqb source "x = 1" then Some [Assign [EName "x"] (EConstant (VInt 1)) 1]
  else None.

(** A script whose function body assigns [PARAMETERS] on line 2, before
    the module itself does on line 5. *)
Definition nested_script : ParameterParser :=
  {| source_code := "";
     tree := [Block [Assign [EName "PARAMETERS"] (EDict [] []) 2];
              Assign [EName "PARAMETERS"]
                (EDict [Some (EConstant (VStr "n"))]
                       [spec_of (EConstant (VInt 1)) (EName "int")]) 5] |}.

(** [PARAMETERS = {'depth': {'value': 1, 'min': -LIMIT}}]. *)
Definition signed_script : ParameterParser :=
  {| source_code := "";
     tree := [Assign [EName "PARAMETERS"]
                (EDict [Some (EConstant (VStr "depth"))]
                       [EDict [Some (EConstant (VStr "value")); Some (EConstant (VStr "min"))]
                              [EConstant (VInt 1); EUnaryOp USub (EName "LIMIT")]]) 1] |}.

(** The sample script with its first comment reworded, so that neither
    comment is a category comment for [_extract_category_lines]. *)
Definition options_script : ParameterParser :=
  {| source_code :=
       join_lines
         ["from manimlib import *";
          "";
          "PARAMETERS = {";
          "    # Physical Properties";
          "    'amplitude': {'value': 1.0, 'type': float},";
          "    'damping': {'value': 0.5, 'type': float},";
          "    'show_grid': {'value': True, 'type': bool},";
          "    # Display Options";
          "    'label': {'value': 'wave', 'type': str},";
          "}"];
     tree := sample_tree |}.

(** A complete declaration, and one without bounds whose type is a string. *)
Definition complete_spec (value type_marker : expr) : expr :=
  EDict [Some (EConstant (VStr "value")); Some (EConstant (VStr "type"));
         Some (EConstant (VStr "unit")); Some (EConstant (VStr "description"));
         Some (EConstant (VStr "min")); Some (EConstant (VStr "max"))]
        [value; type_marker; EConstant (VStr ""); EConstant (VStr "");
         EConstant VNone; EConstant VNone].

Definition complete_script : ParameterParser :=
  {| source_code := "";
     tree := [Assign [EName "PARAMETERS"]
                (EDict [Some (EConstant (VStr "label"))]
                       [complete_spec (EConstant (VStr "wave")) (EName "str")]) 1] |}.

(** A script that assigns nothing to [PARAMETERS]. *)
Definition plain_script : ParameterParser :=
  {| source_code := "x = 1";
     tree := [Assign [EName "x"] (EConstant (VInt 1)) 1] |}.

End Parser.

(** ** Process controller ([manim_runner.py]) *)

Module Runner.

Inductive ManimProcessStatus := IDLE | RUNNING | STOPPING | FINISHED | ERROR | STOPPED.

(** [process] is the [Popen] handle, if any, with what [poll()] answers
    at the moment of the call: nothing while the process is alive, its
    return code afterwards.  [threads] lists the workers started so far,
    by name. *)
Record ManimRunner := {
  status : ManimProcessStatus;
  process : option (option Z);
  stop_event : bool;
  status_queue : list ManimProcessStatus;
  threads : list string
}.

#[global] Instance status_eq_dec : EqDecision ManimProcessStatus.
Proof. solve_decision. Defined.

Definition _set_status (r : ManimRunner) (s : ManimProcessStatus) : ManimRunner :=
  {| status := s;
     process := process r;
     stop_event := stop_event r;
     status_queue := status_queue r ++ [s];
     threads := threads r |}.

Definition is_running (r : ManimRunner) : bool :=
  match process r with
  | Some None => true
  | _ => false
  end.

(** [stop]: the method itself, up to the start of the cleanup thread;
    what that thread does later is not part of the call. *)
Definition stop (r : ManimRunner) : bool * ManimRunner :=
  if negb (bool_decide (status r = RUNNING)) then (false, r)
  else
    match process r with
    | Some None =>
        let r1 := {| status := status r;
                     process := process r;
                     stop_event := true;
                     status_queue := status_queue r;
                     threads := threads r |} in
        let r2 := _set_status r1 STOPPING in
        (true,
         {| status := status r2;
            process := process r2;
            stop_event := stop_event r2;
            status_queue := status_queue r2;
            threads := threads r2 ++ ["ManimCleanupThread"] |})
    | _ => (false, _set_status r STOPPED)
    end.

(** A run whose process has already exited with code 0 while the
    recorded status is still [RUNNING]. *)
Definition exited_run : ManimRunner :=
  {| status := RUNNING;
     process := Some (Some 0);
     stop_event := false;
     status_queue := [];
     threads := ["capture"] |}.

Definition live_run : ManimRunner :=
  {| status := RUNNING;
     process := Some None;
     stop_event := false;
     status_queue := [];
     threads := ["capture"] |}.

End Runner.

(** ** Presets ([preset_manager.py]) *)

Module Presets.

(** What is handed to [json.dumps] and comes back from [json.loads]: a
    scalar, a dictionary with string keys, or a list. *)
Inductive json :=
  | JVal (v : pyval)
  | JObj (items : list (string * json))
  | JArr (elts : list json).

(** The manager, with the parts of [script_path] that [pathlib] derives:
    [parent], [name] and [stem]. *)
Record PresetManager := {
  presets_dir : string;
  script_name : string;
  script_stem : string
}.

Definition PRESET_SUFFIX : string := ".preset.json".

(** [s.replace(old, new)] for one-character [old] and [new]. *)
Fixpoint replace_char (old new : ascii) (s : string) : string :=
  match s with
  | EmptyString => EmptyString
  | String c r =>
      String (if (Text.code c =? Text.code old)%nat then new else c) (replace_char old new r)
  end.

Definition safe_name (preset_name : string) : string :=
  replace_char "/" "_" (replace_char " " "_" preset_name).

Definition preset_path (pm : PresetManager) (preset_name : string) : string :=
  String.append (presets_dir pm)
    (String.append "/"
       (String.append (script_stem pm)
          (String.append "_" (String.append (safe_name preset_name) PRESET_SUFFIX)))).

(** A dictionary of parameter values as an object. *)
Definition parameters_object (parameters : list (string * pyval)) : json :=
  JObj (map (fun kv => (fst kv, JVal (snd kv))) parameters).

Definition preset_data (pm : PresetManager) (now preset_name : string)
    (parameters : list (string * pyval)) : json :=
  JObj [("name", JVal (VStr preset_name));
        ("created", JVal (VStr now));
        ("script", JVal (VStr (script_name pm)));
        ("parameters", parameters_object parameters)].

(** *** [json.dumps(_, indent=2)] and [json.loads]

    The encoder and the decoder as [json] has them, on texts whose
    characters have a code point below 256. *)

Local Infix "+++" := String.append (at level 60, right associativity).

Definition has_code (c : ascii) (n : nat) : bool := (Text.code c =? n)%nat.

Definition dq : ascii := ascii_of_nat 34.
Definition bs : ascii := ascii_of_nat 92.

Definition hex_digit (n : nat) : ascii :=
  match n with
  | 0 => "0" | 1 => "1" | 2 => "2" | 3 => "3" | 4 => "4" | 5 => "5" | 6 => "6" | 7 => "7"
  | 8 => "8" | 9 => "9" | 10 => "a" | 11 => "b" | 12 => "c" | 13 => "d" | 14 => "e"
  | _ => "f"
  end%char%nat.

(** One character of a string as the encoder writes it: the quote, the
    backslash and five control characters by name, the other characters
    outside the range from the blank to the tilde as [\u00XX]. *)
Definition escape_char (c : ascii) : string :=
  let n := Text.code c in
  if (n =? 34)%nat then String bs (String dq EmptyString)
  else if (n =? 92)%nat then String bs (String bs EmptyString)
  else if (n =? 8)%nat then String bs "b"
  else if (n =? 12)%nat then String bs "f"
  else if (n =? 10)%nat then String bs "n"
  else if (n =? 13)%nat then String bs "r"
  else if (n =? 9)%nat then String bs "t"
  else if ((n <? 32) || (126 <? n))%nat then
    String bs (String "u" (String "0" (String "0"
      (String (hex_digit (n / 16)) (String (hex_digit (n mod 16)) EmptyString)))))
  else String c EmptyString.

Fixpoint escape (s : string) : string :=
  match s with
  | EmptyString => EmptyString
  | String c r => escape_char c +++ escape r
  end.

Definition quote (s : string) : string := String dq (escape s +++ String dq EmptyString).

Fixpoint spaces (n : nat) : string :=
  match n with
  | O => EmptyString
  | S k => String " " (spaces k)
  end.

(** A newline and the indentation of a nesting level. *)
Definition newline_indent (level : nat) : string :=
  String (ascii_of_nat 10) (spaces (2 * level)).

(** The items of a dictionary, separated by a comma and [sep]. *)
Definition dumps_items (dumps : json -> option string) (sep : string)
  : list (string * json) -> option string :=
  fix go (items : list (string * json)) : option string :=
    match items with
    | [] => Some EmptyString
    | (k, v) :: rest =>
        match dumps v with
        | None => None
        | Some tv =>
            match rest with
            | [] => Some (quote k +++ ": " +++ tv)
            | _ :: _ =>
                match go rest with
                | None => None
                | Some tr => Some (quote k +++ ": " +++ tv +++ "," +++ sep +++ tr)
                end
            end
        end
    end.

Definition dumps_elts (dumps : json -> option string) (sep : string)
  : list json -> option string :=
  fix go (elts : list json) : option string :=
    match elts with
    | [] => Some EmptyString
    | v :: rest =>
        match dumps v with
        | None => None
        | Some tv =>
            match rest with
            | [] => Some tv
            | _ :: _ =>
                match go rest with
                | None => None
                | Some tr => Some (tv +++ "," +++ sep +++ tr)
                end
            end
        end
    end.

(** Whitespace, and the characters of a number. *)
Definition is_ws (c : ascii) : bool := has_code c 32 || has_code c 9 || has_code c 10 || has_code c 13.

Definition is_digit (c : ascii) : bool :=
  let n := Text.code c in ((48 <=? n) && (n <=? 57))%nat.

Fixpoint skip_ws (s : string) : string :=
  match s with
  | String c r => if is_ws c then skip_ws r else s
  | EmptyString => EmptyString
  end.

Fixpoint span_digits (s : string) : string * string :=
  match s with
  | String c r =>
      if is_digit c then let '(d, rest) := span_digits r in (String c d, rest)
      else (EmptyString, s)
  | EmptyString => (EmptyString, EmptyString)
  end.

Fixpoint digits_value (acc : N) (s : string) : N :=
  match s with
  | EmptyString => acc
  | String c r => digits_value (10 * acc + N.of_nat (Text.code c - 48)) r
  end.

(** The integer part of a number: a zero, or a digit other than zero
    and the digits that follow. *)
Definition scan_int (s : string) : option (string * string) :=
  match s with
  | String c r =>
      if has_code c 48 then Some ("0", r)
      else if is_digit c then Some (span_digits s)
      else None
  | EmptyString => None
  end.

(** A point and one or more digits, if they are there. *)
Definition scan_frac (s : string) : string * string :=
  match s with
  | String c (String d r) =>
      if has_code c 46 && is_digit d
      then let '(ds, rest) := span_digits (String d r) in (String c ds, rest)
      else (EmptyString, s)
  | _ => (EmptyString, s)
  end.

(** An [e] or [E], a sign if any, and one or more digits, if they are
    there. *)
Definition scan_exp (s : string) : string * string :=
  match s with
  | String e (String g r) =>
      if has_code e 101 || has_code e 69 then
        if has_code g 43 || has_code g 45 then
          match r with
          | String d _ =>
              if is_digit d
              then let '(ds, rest) := span_digits r in (String e (String g ds), rest)
              else (EmptyString, s)
          | EmptyString => (EmptyString, s)
          end
        else if is_digit g
        then let '(ds, rest) := span_digits (String g r) in (String e ds, rest)
        else (EmptyString, s)
      else (EmptyString, s)
  | _ => (EmptyString, s)
  end.

Definition hex_value (c : ascii) : option nat :=
  let n := Text.code c in
  if ((48 <=? n) && (n <=? 57))%nat then Some (n - 48)%nat
  else if ((97 <=? n) && (n <=? 102))%nat then Some (n - 87)%nat
  else if ((65 <=? n) && (n <=? 70))%nat then Some (n - 55)%nat
  else None.

(** The character a backslash and [e] stand for. *)
Definition simple_escape (e : ascii) : option ascii :=
  if has_code e 34 then Some dq
  else if has_code e 92 then Some bs
  else if has_code e 47 then Some "/"%char
  else if has_code e 98 then Some (ascii_of_nat 8)
  else if has_code e 102 then Some (ascii_of_nat 12)
  else if has_code e 110 then Some (ascii_of_nat 10)
  else if has_code e 114 then Some (ascii_of_nat 13)
  else if has_code e 116 then Some (ascii_of_nat 9)
  else None.

(** The characters of a string up to its closing quote, and the text
    after it; nothing for a control character, a wrong escape, or an
    escape for a code point of 256 or more. *)
Fixpoint parse_string (s : string) : option (string * string) :=
  match s with
  | EmptyString => None
  | String c r =>
      if has_code c 34 then Some (EmptyString, r)
      else if has_code c 92 then
        match r with
        | String e r1 =>
            match simple_escape e with
            | Some ch =>
                match parse_string r1 with
                | Some (t, rest) => Some (String ch t, rest)
                | None => None
                end
            | None =>
                if has_code e 117 then
                  match r1 with
                  | String h1 (String h2 (String h3 (String h4 r2))) =>
                      match hex_value h1, hex_value h2, hex_value h3, hex_value h4 with
                      | Some a, Some b, Some x, Some y =>
                          if (a =? 0)%nat && (b =? 0)%nat then
                            match parse_string r2 with
                            | Some (t, rest) => Some (String (ascii_of_nat (16 * x + y)) t, rest)
                            | None => None
                            end
                          else None
                      | _, _, _, _ => None
                      end
                  | _ => None
                  end
                else None
            end
        | EmptyString => None
        end
      else if (Text.code c <? 32)%nat then None
      else
        match parse_string r with
        | Some (t, rest) => Some (String c t, rest)
        | None => None
        end
  end.

Section Json.
(** [repr] of a float and [float] of a number text, which are Python's
    own. *)
Variable float_repr : spec_float -> string.
Variable float_parse : string -> spec_float.

Definition float_text (x : spec_float) : string :=
  match x with
  | S754_nan => "NaN"
  | S754_infinity false => "Infinity"
  | S754_infinity true => "-Infinity"
  | _ => float_repr x
  end.

(** A type object cannot be written: [json.dumps] raises. *)
Definition dumps_scalar (v : pyval) : option string :=
  match v with
  | VNone => Some "null"
  | VBool true => Some "true"
  | VBool false => Some "false"
  | VInt n => Some (pretty n)
  | VFloat x => Some (float_text x)
  | VStr s => Some (quote s)
  | VType _ => None
  end.

Fixpoint dumps_at (level : nat) (j : json) : option string :=
  match j with
  | JVal v => dumps_scalar v
  | JObj [] => Some "{}"
  | JObj items =>
      match dumps_items (dumps_at (S level)) (newline_indent (S level)) items with
      | Some body =>
          Some ("{" +++ newline_indent (S level) +++ body +++ newline_indent level +++ "}")
      | None => None
      end
  | JArr [] => Some "[]"
  | JArr elts =>
      match dumps_elts (dumps_at (S level)) (newline_indent (S level)) elts with
      | Some body =>
          Some ("[" +++ newline_indent (S level) +++ body +++ newline_indent level +++ "]")
      | None => None
      end
  end.

Definition dumps (j : json) : option string := dumps_at 0 j.

(** A number: an integer when it has neither fraction nor exponent. *)
Definition parse_number (s : string) : option (pyval * string) :=
  let '(negative, s0) :=
    match s with
    | String c r => if has_code c 45 then (true, r) else (false, s)
    | EmptyString => (false, s)
    end in
  match scan_int s0 with
  | None => None
  | Some (int, r1) =>
      let '(frac, r2) := scan_frac r1 in
      let '(exp, r3) := scan_exp r2 in
      match frac, exp with
      | EmptyString, EmptyString =>
          let n := Z.of_N (digits_value 0 int) in
          Some (VInt (if negative then - n else n), r3)
      | _, _ =>
          Some (VFloat (float_parse ((if negative then "-" else EmptyString)
                                       +++ int +++ frac +++ exp)), r3)
      end
  end.

(** A value that is neither a string, nor a dictionary, nor a list. *)
Definition parse_scalar (s : string) : option (pyval * string) :=
  match Text.drop_prefix "null" s with
  | Some r => Some (VNone, r)
  | None =>
  match Text.drop_prefix "true" s with
  | Some r => Some (VBool true, r)
  | None =>
  match Text.drop_prefix "false" s with
  | Some r => Some (VBool false, r)
  | None =>
  match parse_number s with
  | Some x => Some x
  | None =>
  match Text.drop_prefix "NaN" s with
  | Some r => Some (VFloat S754_nan, r)
  | None =>
  match Text.drop_prefix "Infinity" s with
  | Some r => Some (VFloat (S754_infinity false), r)
  | None =>
  match Text.drop_prefix "-Infinity" s with
  | Some r => Some (VFloat (S754_infinity true), r)
  | None => None
  end end end end end end end.

(** The decoder proper; [fuel] bounds the number of values, keys and
    list elements it reads.  [parse_members] starts after the opening
    quote of a key, [parse_elements] at an element; a key that comes
    twice keeps its place and takes the later value. *)
Fixpoint parse_value (fuel : nat) (s : string) : option (json * string) :=
  match fuel with
  | O => None
  | S f =>
      match s with
      | EmptyString => None
      | String c r =>
          if has_code c 34 then
            match parse_string r with
            | Some (t, rest) => Some (JVal (VStr t), rest)
            | None => None
            end
          else if has_code c 123 then
            match skip_ws r with
            | String c1 r1 =>
                if has_code c1 125 then Some (JObj [], r1)
                else if has_code c1 34 then parse_members f r1 []
                else None
            | EmptyString => None
            end
          else if has_code c 91 then
            match skip_ws r with
            | String c1 r1 =>
                if has_code c1 93 then Some (JArr [], r1)
                else parse_elements f (String c1 r1) []
            | EmptyString => None
            end
          else
            match parse_scalar s with
            | Some (v, rest) => Some (JVal v, rest)
            | None => None
            end
      end
  end
with parse_members (fuel : nat) (s : string) (acc : list (string * json))
  : option (json * string) :=
  match fuel with
  | O => None
  | S f =>
      match parse_string s with
      | None => None
      | Some (key, r) =>
          match skip_ws r with
          | String c r1 =>
              if has_code c 58 then
                match parse_value f (skip_ws r1) with
                | None => None
                | Some (v, r2) =>
                    let acc' := dict_set String.eqb acc key v in
                    match skip_ws r2 with
                    | String c2 r3 =>
                        if has_code c2 125 then Some (JObj acc', r3)
                        else if has_code c2 44 then
                          match skip_ws r3 with
                          | String c3 r4 =>
                              if has_code c3 34 then parse_members f r4 acc' else None
                          | EmptyString => None
                          end
                        else None
                    | EmptyString => None
                    end
                end
              else None
          | EmptyString => None
          end
      end
  end
with parse_elements (fuel : nat) (s : string) (acc : list json) : option (json * string) :=
  match fuel with
  | O => None
  | S f =>
      match parse_value f s with
      | None => None
      | Some (v, r) =>
          match skip_ws r with
          | String c r1 =>
              if has_code c 93 then Some (JArr (acc ++ [v]), r1)
              else if has_code c 44 then parse_elements f (skip_ws r1) (acc ++ [v])
              else None
          | EmptyString => None
          end
      end
  end.

(** [json.loads]: one value, with blanks around it and nothing else. *)
Definition loads (text : string) : option json :=
  match parse_value (S (String.length text)) (skip_ws text) with
  | Some (v, rest) =>
      match skip_ws rest with
      | EmptyString => Some v
      | String _ _ => None
      end
  | None => None
  end.

(** *** The presets *)

(** Whether the file system takes a write to, or the removal of, a
    path; where it does not, [write_text] and [unlink] raise. *)
Variable fs_ok : string -> bool.

(** The files are a map from path to text; [now] is
    [datetime.now().isoformat()].  Any exception, from the encoder or
    from the write, makes [save_preset] return [False]. *)
Definition save_preset (pm : PresetManager) (files : gmap string string)
    (now preset_name : string) (parameters : list (string * pyval))
  : bool * gmap string string :=
  match dumps (preset_data pm now preset_name parameters) with
  | Some text =>
      if fs_ok (preset_path pm preset_name)
      then (true, <[preset_path pm preset_name := text]> files)
      else (false, files)
  | None => (false, files)
  end.

(** [data.get("parameters", {})] on what the decoder gave: it raises on
    anything but a dictionary. *)
Definition parameters_of (data : json) : option json :=
  match data with
  | JObj items => Some (default (JObj []) (dict_get String.eqb items "parameters"))
  | _ => None
  end.

(** [None] when the file is missing or anything raises. *)
Definition load_preset (pm : PresetManager) (files : gmap string string)
    (preset_name : string) : option json :=
  match files !! preset_path pm preset_name with
  | None => None
  | Some text =>
      match loads text with
      | Some data => parameters_of data
      | None => None
      end
  end.

(** [unlink] on the file of the preset, when there is one. *)
Definition delete_preset (pm : PresetManager) (files : gmap string string)
    (preset_name : string) : bool * gmap string string :=
  match files !! preset_path pm preset_name with
  | Some _ =>
      if fs_ok (preset_path pm preset_name)
      then (true, delete (preset_path pm preset_name) files)
      else (false, files)
  | None => (false, files)
  end.



End Json.

(** *** What can be saved *)

(** What may follow a value: nothing, a blank, a comma or a closing
    bracket. *)
Definition ends_value (rest : string) : bool :=
  match rest with
  | EmptyString => true
  | String c _ => is_ws c || has_code c 44 || has_code c 125 || has_code c 93
  end.

Definition is_empty (s : string) : bool :=
  match s with
  | EmptyString => true
  | String _ _ => false
  end.

(** A text that is, in full, a number of JSON with a fraction or an
    exponent, as [repr] writes the finite floats: [1.5], [-0.0],
    [1e+16], [2.5e-05]. *)
Definition float_literal (t : string) : bool :=
  let s0 :=
    match t with
    | String c r => if has_code c 45 then r else t
    | EmptyString => t
    end in
  match scan_int s0 with
  | None => false
  | Some (_, r1) =>
      let '(frac, r2) := scan_frac r1 in
      let '(exp, r3) := scan_exp r2 in
      is_empty r3 && negb (is_empty frac && is_empty exp)
  end.

(** A value that comes back from the file equal to itself: [None], a
    boolean, a string, an integer below the interpreter's limit of 4300
    digits for conversions to and from text, an infinity, or a finite
    float whose [repr] is a number with a fraction or an exponent that
    [float] reads as that float.  A NaN is written and read, but differs
    from every float, itself included; a type object is not written. *)
Definition reads_back (float_repr : spec_float -> string) (float_parse : string -> spec_float)
    (v : pyval) : Prop :=
  match v with
  | VType _ => False
  | VInt n => Z.abs n < 10 ^ 4300
  | VFloat S754_nan => False
  | VFloat (S754_infinity _) => True
  | VFloat x => float_literal (float_repr x) = true /\ float_parse (float_repr x) = x
  | _ => True
  end.

(** The names are distinct and every value reads back. *)
Definition saveable (float_repr : spec_float -> string) (float_parse : string -> spec_float)
    (parameters : list (string * pyval)) : Prop :=
  NoDup (map fst parameters) /\
  forall k v, (k, v) ∈ parameters -> reads_back float_repr float_parse v.

(** The text of [j] at a nesting level starts with no blank and is read
    back as [j], whatever value end follows it. *)
Definition round_trips (float_repr : spec_float -> string)
    (float_parse : string -> spec_float) (level : nat) (j : json) : Prop :=
  exists c text,
    dumps_at float_repr level j = Some (String c text) /\
    is_ws c = false /\
    forall fuel rest,
      (String.length (String c text +++ rest) < fuel)%nat -> ends_value rest = true ->
      parse_value float_parse fuel (String c text +++ rest) = Some (j, rest).

(** *** Names that [safe_name] identifies *)

(** What the two replacements do to one character. *)
Definition safe_char (c : ascii) : ascii :=
  let c1 := if (Text.code c =? Text.code " ")%nat then "_"%char else c in
  if (Text.code c1 =? Text.code "/")%nat then "_"%char else c1.

(** A space, a slash or an underscore. *)
Definition blank_like (c : ascii) : bool :=
  let n := Text.code c in ((n =? 32) || (n =? 47) || (n =? 95))%nat.

(** Two names of the same length that differ only where both have a
    space, a slash or an underscore. *)
Fixpoint interchangeable (a b : string) : bool :=
  match a, b with
  | EmptyString, EmptyString => true
  | String c a', String d b' =>
      ((Text.code c =? Text.code d)%nat || blank_like c && blank_like d)
      && interchangeable a' b'
  | _, _ => false
  end.

(** *** Sample presets *)

Definition sample_manager : PresetManager :=
  {| presets_dir := "/scripts"; script_name := "wave.py"; script_stem := "wave" |}.

Definition sample_values : list (string * pyval) :=
  [("count", VInt 3); ("show_grid", VBool true); ("label", VStr "wave");
   ("phase", VFloat (S754_zero false))].


(** Float conversions for samples whose only float is zero. *)
Definition no_repr (x : spec_float) : string := "0.0".
Definition no_parse (t : string) : spec_float := S754_zero false.

(** A file system that takes every path, and one that takes the paths
    without a NUL character. *)
Definition any_path (path : string) : bool := true.




End Presets.

(** ** Writing a value back to the script ([param_manager.py]) *)

Module Patch.

Import Text.

(** The tree [ast.parse] gives, with what [_update_file] reads of an
    assignment: its targets, [lineno] and [end_lineno]. *)
Inductive node :=
  | NAssign (targets : list Parser.expr) (lineno : nat) (end_lineno : option nat)
  | NBlock (body : list node)
  | NOther.

Definition children (s : node) : list node :=
  match s with
  | NBlock body => body
  | _ => []
  end.

Fixpoint height (s : node) : nat :=
  match s with
  | NBlock body => S (fold_right (fun c h => Nat.max (height c) h) 0%nat body)
  | _ => 1%nat
  end.

Fixpoint walk_levels (fuel : nat) (level : list node) : list node :=
  match fuel with
  | O => []
  | S fuel' =>
      match level with
      | [] => []
      | _ :: _ => level ++ walk_levels fuel' (flat_map children level)
      end
  end.

Definition walk (body : list node) : list node :=
  walk_levels (fold_right (fun c h => Nat.max (height c) h) 0%nat body) body.

(** The loop over [ast.walk(tree)]: its [break] leaves the loop over the
    targets only, so every later assignment to [PARAMETERS] overwrites
    [params_start] and [params_end]. *)
Definition span_step (acc : option (nat * nat)) (n : node) : option (nat * nat) :=
  match n with
  | NAssign targets lineno end_lineno =>
      if existsb Parser.is_parameters_target targets
      then Some ((lineno - 1)%nat,
                 match end_lineno with
                 | Some (S e) => S e
                 | _ => lineno
                 end)
      else acc
  | _ => acc
  end.

Definition span_of (nodes : list node) : option (nat * nat) :=
  fold_left span_step nodes None.

(** ['\n'.join(lines)]. *)
Fixpoint join_nl (ls : list string) : string :=
  match ls with
  | [] => EmptyString
  | l :: rest =>
      match rest with
      | [] => l
      | _ :: _ => String.append l (String (ascii_of_nat 10) (join_nl rest))
      end
  end.

(** *** [_replace_parameter_value] *)

(** The two classes of the pattern: a double or single quote, and any
    character other than comma and closing brace. *)
Definition is_quote (c : ascii) : bool :=
  let n := code c in ((n =? 34) || (n =? 39))%nat.

Definition not_comma_brace (c : ascii) : bool :=
  let n := code c in negb ((n =? 44) || (n =? 125))%nat.

(** The pattern: group 1 is [value] between two quotes; then blanks, a
    colon, blanks, and one or more characters other than comma and
    closing brace. *)
Definition value_pattern : regex :=
  RSeq (RGroup (RSeq (RClass is_quote) (RSeq (RLit "value") (RClass is_quote))))
    (RSeq (RStar isspace)
      (RSeq (RLit ":")
        (RSeq (RStar isspace)
          (RSeq (RClass not_comma_brace) (RStar not_comma_brace))))).

(** A match of the pattern at the start of [s]: where it ends, and where
    group 1 ends. *)
Definition match_at (s : string) : option (nat * nat) :=
  rmatch value_pattern s 0 None (fun _ pos' g => Some (pos', snd (default (0, 0)%nat g))).

(** [re.sub] for this pattern, which matches no empty string: every
    match, from left to right, is replaced by what the template gives
    for its group 1; [skip] counts the characters of a match still to
    be passed over. *)
Fixpoint sub_go (repl : string -> string) (s : string) (skip : nat) : string :=
  match s with
  | EmptyString => EmptyString
  | String c s' =>
      match skip with
      | S n => sub_go repl s' n
      | O =>
          match match_at s with
          | Some (e, group_end) =>
              String.append (repl (String.substring 0 group_end s)) (sub_go repl s' (e - 1))
          | None => String c (sub_go repl s' 0)
          end
      end
  end.

Definition all_chars (p : ascii -> bool) : string -> bool :=
  fix go (s : string) : bool :=
    match s with
    | EmptyString => true
    | String c r => p c && go r
    end.

(** The text ends here or goes on with a character outside [p]. *)
Definition stops (p : ascii -> bool) (s : string) : bool :=
  match s with
  | EmptyString => true
  | String c _ => negb (p c)
  end.

Section Update.
(** [repr] of a float, [ast.parse] (nothing where it raises), and the
    reading of a replacement template by [re]: nothing where [re]
    rejects the template, else the replacement as a function of
    group 1. *)
Variable float_repr : spec_float -> string.
Variable ast_parse : string -> option (list node).
Variable expand : string -> option (string -> string).

Definition formatted (new_value : pyval) : string :=
  match new_value with
  | VStr s => String.append Parser.dquote (String.append s Parser.dquote)
  | v => Parser.py_str float_repr v
  end.

(** The template: a backslash, [1], a colon, a blank, the formatted value. *)
Definition template (new_value : pyval) : string :=
  String.append "\1: " (formatted new_value).

Definition _replace_parameter_value (line : string) (new_value : pyval) : option string :=
  match expand (template new_value) with
  | Some repl => Some (sub_go repl line 0)
  | None => None
  end.

(** *** [_update_file] *)

Definition names (param_name : string) (line : string) : bool :=
  Parser.mentions float_repr (VStr param_name) line.

(** The loop over [range(i, min(i + 20, params_end))], [count] rounds
    from [j] on; nothing where [lines[j]] or the replacement raises. *)
Fixpoint patch_from (new_value : pyval) (lines : list string) (j count : nat)
  : option (list string) :=
  match count with
  | O => Some lines
  | S n =>
      match lines !! j with
      | None => None
      | Some line =>
          if names "value" line then
            match _replace_parameter_value line new_value with
            | Some new_line => Some (<[j := new_line]> lines)
            | None => None
            end
          else patch_from new_value lines (S j) n
      end
  end.

(** The loop over [range(params_start, params_end)], [count] rounds
    from [i] on. *)
Fixpoint find_and_patch (param_name : string) (new_value : pyval) (params_end : nat)
    (lines : list string) (i count : nat) : option (list string) :=
  match count with
  | O => Some lines
  | S n =>
      match lines !! i with
      | None => None
      | Some line =>
          if names param_name line
          then patch_from new_value lines i (Nat.min (i + 20) params_end - i)
          else find_and_patch param_name new_value params_end lines (S i) n
      end
  end.

(** The text written to the script, or nothing when the script is not
    written: [PARAMETERS] is not assigned, or something raised. *)
Definition _update_file (source param_name : string) (new_value : pyval) : option string :=
  match ast_parse source with
  | None => None
  | Some tree =>
      match span_of (walk tree) with
      | None => None
      | Some (params_start, params_end) =>
          match find_and_patch param_name new_value params_end (split_lines source)
                  params_start (params_end - params_start) with
          | Some lines => Some (join_nl lines)
          | None => None
          end
      end
  end.
End Update.

(** *** A sample script *)

(** Templates without an escape after the group reference. *)
Definition plain_expand (t : string) : option (string -> string) :=
  match t with
  | String a (String b rest) =>
      if (code a =? 92)%nat && (code b =? 49)%nat && negb (contains "\" rest)
      then Some (fun g => String.append g rest)
      else None
  | _ => None
  end.

Definition wave_source : string :=
  join_nl
    ["PARAMETERS = {";
     "    'mode': {'value': 'amplitude', 'type': str},";
     "    'amplitude': {";
     "        'value': 1.0,  # metres";
     "        'type': float},";
     "}"].

Definition wave_tree : list node :=
  [NAssign [Parser.EName "PARAMETERS"] 1 (Some 6%nat)].

Definition wave_parse (source : string) : option (list node) :=
  if String.eqb source wave_source then Some wave_tree else None.

End Patch.

(** * Properties *)

(** ** Values *)

Example py_eq_int_float : py_eq (VInt 1) (VFloat (S754_finite false 4503599627370496 (-52))) = true.
Proof. reflexivity. Qed.
Example py_eq_bool_int : py_eq (VBool true) (VInt 1) = true.
Proof. reflexivity. Qed.
Example py_lt_str_int : py_lt (VStr "a") (VInt 0) = Raise TypeError.
Proof. reflexivity. Qed.
Example py_lt_half_one : py_lt (VFloat (S754_finite false 4503599627370496 (-53))) (VInt 1) = Ok true.
Proof. reflexivity. Qed.

Lemma is_cmp_Lt_Gt c : is_cmp Gt c || is_cmp Eq c = true -> is_cmp Lt c = false.
Proof. destruct c as [[]|]; simpl; intros; done. Qed.

Lemma is_cmp_Gt_Lt c : is_cmp Lt c || is_cmp Eq c = true -> is_cmp Gt c = false.
Proof. destruct c as [[]|]; simpl; intros; done. Qed.

Lemma py_ge_not_lt v lo : py_ge v lo = Ok true -> py_lt v lo = Ok false.
Proof.
  unfold py_ge, py_lt. destruct (py_compare v lo) as [c|]; simpl; [|done].
  intros [= H]. by rewrite is_cmp_Lt_Gt.
Qed.

Lemma py_le_not_gt v hi : py_le v hi = Ok true -> py_gt v hi = Ok false.
Proof.
  unfold py_le, py_gt. destruct (py_compare v hi) as [c|]; simpl; [|done].
  intros [= H]. by rewrite is_cmp_Gt_Lt.
Qed.

Lemma py_compare_numbers v w :
  num_of v <> None -> num_of w <> None -> exists c, py_compare v w = Ok c.
Proof.
  unfold py_compare.
  destruct (num_of v), (num_of w); try done. eauto.
Qed.

(** A value ordered against a number is itself a number. *)
Lemma py_compare_number_r v w c :
  num_of w <> None -> py_compare v w = Ok c -> num_of v <> None.
Proof.
  unfold py_compare.
  destruct (num_of v) eqn:Hv; [done|].
  destruct (num_of w) eqn:Hw; [|done].
  intros _. destruct v, w; simpl in *; congruence.
Qed.

(** ** Parameter store *)

Module StoreFacts.
Import Store.

(** Membership in a list that is written out. *)
Ltac in_list := apply list_elem_of_In; simpl; tauto.

(** Settle a decidable closed proposition by evaluation. *)
Ltac by_evaluation :=
  lazymatch goal with
  | |- ?P =>
      let d := constr:(_ : Decision P) in
      apply (@bool_decide_unpack P d); vm_compute; exact I
  end.

Lemma holds_true r : holds r = true -> r = Ok true.
Proof. destruct r as [[]|]; simpl; congruence. Qed.

Lemma pop_snoc {A} (l : list A) (x : A) : pop (l ++ [x]) = Some (x, l).
Proof. unfold pop. rewrite rev_app_distr. simpl. by rewrite rev_involutive. Qed.

Lemma pop_nil {A} (l : list A) : l = [] -> pop l = None.
Proof. by intros ->. Qed.

Lemma kind_matches_accepts t v : kind_matches t v = true -> type_accepts t v = true.
Proof. destruct t, v; simpl; congruence. Qed.

(** [_validate_type] on a parameter whose marker is one of the four types. *)
Lemma validate_type_marker st name pd t v :
  parameters st !! name = Some pd ->
  pd !! "type" = Some (VType t) ->
  _validate_type st name v = type_accepts t v.
Proof.
  intros Hp Ht. unfold _validate_type. rewrite Hp, Ht.
  destruct t, v; reflexivity.
Qed.

Lemma validate_bounds_within st name pd v :
  parameters st !! name = Some pd ->
  within_bounds pd v = true ->
  _validate_bounds st name v = Ok true.
Proof.
  intros Hp Hb. unfold _validate_bounds. rewrite Hp. simpl.
  unfold within_bounds in Hb. apply andb_prop in Hb as [Hlo Hhi].
  destruct (pd !! "min") as [lo|].
  - apply holds_true, py_ge_not_lt in Hlo. rewrite Hlo. simpl.
    destruct (pd !! "max") as [hi|]; [|done].
    apply holds_true, py_le_not_gt in Hhi. by rewrite Hhi.
  - simpl. destruct (pd !! "max") as [hi|]; [|done].
    apply holds_true, py_le_not_gt in Hhi. by rewrite Hhi.
Qed.


Lemma set_parameter_passes st name pd old value :
  current_values st !! name = Some old ->
  parameters st !! name = Some pd ->
  py_eq old value = false ->
  _validate_type st name value = true ->
  _validate_bounds st name value = Ok true ->
  set_parameter st name value = Ok (true, after_set st name pd old value).
Proof.
  intros Hc Hp He Ht Hb. unfold set_parameter, assign.
  rewrite Hc, He, Ht. simpl. rewrite Hb. simpl. rewrite Hp. simpl. reflexivity.
Qed.

(** A call that returned [True] went through every check. *)
Lemma set_parameter_true_inv st name value st1 :
  set_parameter st name value = Ok (true, st1) ->
  exists old pd,
    current_values st !! name = Some old /\
    parameters st !! name = Some pd /\
    py_eq old value = false /\
    st1 = after_set st name pd old value.
Proof.
  unfold set_parameter, assign. intros H.
  destruct (current_values st !! name) as [old|] eqn:Hc; [|done].
  destruct (py_eq old value) eqn:He; [done|].
  destruct (_validate_type st name value) eqn:Ht; [|done]. simpl in H.
  destruct (_validate_bounds st name value) as [[]|] eqn:Hb; simpl in H; try done.
  destruct (parameters st !! name) as [pd|] eqn:Hp; simpl in H; [|done].
  injection H as <-. by exists old, pd.
Qed.

(** [undo] and [redo] on a stack whose top batch holds one change. *)
Lemma undo_single st rest c pd :
  undo_stack st = rest ++ [[c]] ->
  parameters st !! param_name c = Some pd ->
  undo st = Ok (true,
    {| parameters := <[param_name c := <["value" := old_value c]> pd]> (parameters st);
       current_values := <[param_name c := old_value c]> (current_values st);
       undo_stack := rest;
       redo_stack := redo_stack st ++ [[c]];
       is_modified := true;
       events := (events st ++ [FilePatched (param_name c) (old_value c);
                                ChangeNotified (param_name c) (new_value c) (old_value c)])
                 ++ [FileModifiedNotified] |}).
Proof.
  intros Hu Hp. unfold undo. rewrite Hu, pop_snoc. simpl.
  unfold assign. simpl. rewrite Hp. reflexivity.
Qed.

Lemma redo_single st rest c pd :
  redo_stack st = rest ++ [[c]] ->
  parameters st !! param_name c = Some pd ->
  redo st = Ok (true,
    {| parameters := <[param_name c := <["value" := new_value c]> pd]> (parameters st);
       current_values := <[param_name c := new_value c]> (current_values st);
       undo_stack := undo_stack st ++ [[c]];
       redo_stack := rest;
       is_modified := true;
       events := (events st ++ [FilePatched (param_name c) (new_value c);
                                ChangeNotified (param_name c) (old_value c) (new_value c)])
                 ++ [FileModifiedNotified] |}).
Proof.
  intros Hu Hp. unfold redo. rewrite Hu, pop_snoc. simpl.
  unfold assign. simpl. rewrite Hp. reflexivity.
Qed.

Lemma undo_empty st : undo_stack st = [] -> undo st = Ok (false, st).
Proof. intros H. unfold undo. by rewrite H. Qed.

Lemma redo_empty st : redo_stack st = [] -> redo st = Ok (false, st).
Proof. intros H. unfold redo. by rewrite H. Qed.


Lemma undo_after_set st name pd old value s1 :
  same_store s1 (after_set st name pd old value) ->
  exists sU, undo s1 = Ok (true, sU) /\ undone st name pd old value sU.
Proof.
  intros (Hp & Hc & Hu & Hr). simpl in *.
  eexists. split.
  - eapply (undo_single s1 _ {| param_name := name; old_value := old; new_value := value |});
      [exact Hu|]. simpl. rewrite Hp. apply lookup_insert_eq.
  - unfold undone. simpl. rewrite Hp, Hc, Hr.
    by rewrite !insert_insert_eq.
Qed.

Lemma redo_after_undo st name pd old value sU :
  undone st name pd old value sU ->
  exists sR, redo sU = Ok (true, sR) /\ same_store sR (after_set st name pd old value).
Proof.
  intros (Hp & Hc & Hu & Hr).
  eexists. split.
  - eapply (redo_single sU [] {| param_name := name; old_value := old; new_value := value |});
      [exact Hr|]. simpl. rewrite Hp. apply lookup_insert_eq.
  - unfold same_store. simpl. rewrite Hp, Hc, Hu.
    by rewrite !insert_insert_eq.
Qed.

Lemma cycles_after_set st name pd old value n : forall s1,
  same_store s1 (after_set st name pd old value) ->
  exists sB, undo_redo_cycles n s1 = Ok (true, sB) /\
             same_store sB (after_set st name pd old value).
Proof.
  induction n as [|n IH]; intros s1 Hs.
  - exists s1. by split.
  - destruct (undo_after_set _ _ _ _ _ _ Hs) as (sU & HU & HsU).
    destruct (redo_after_undo _ _ _ _ _ _ HsU) as (sR & HR & HsR).
    destruct (IH sR HsR) as (sB & HB & HsB).
    exists sB. split; [|done].
    simpl. rewrite HU. simpl. rewrite HR. simpl. rewrite HB. reflexivity.
Qed.

Lemma undone_unique st name pd old value a b :
  undone st name pd old value a -> undone st name pd old value b -> same_store a b.
Proof.
  intros (?&?&?&?) (?&?&?&?). unfold same_store. repeat split; congruence.
Qed.

(** X17.  A value of the declared kind and different from the current
    one, for which [min <= value] and [value <= max] hold for the bounds
    that are present (each comparison being one Python can make), is
    stored: [set_parameter] returns [True], [get_parameter] then returns
    that value, one batch holding the single change is pushed on the
    undo stack, and the redo stack is empty. *)
Theorem set_parameter_applies st name pd t old value :
  current_values st !! name = Some old ->
  parameters st !! name = Some pd ->
  pd !! "type" = Some (VType t) ->
  kind_matches t value = true ->
  within_bounds pd value = true ->
  py_eq old value = false ->
  exists st',
    set_parameter st name value = Ok (true, st') /\
    get_parameter st' name = value /\
    undo_stack st' =
      undo_stack st ++ [[{| param_name := name; old_value := old; new_value := value |}]] /\
    redo_stack st' = [].
Proof.
  intros Hc Hp Ht Hk Hb He.
  exists (after_set st name pd old value). split; [|split; [|split]].
  - apply set_parameter_passes; try done.
    + rewrite (validate_type_marker st name pd t); [|done..].
      by apply kind_matches_accepts.
    + by apply validate_bounds_within with pd.
  - unfold get_parameter. simpl. by rewrite lookup_insert_eq.
  - reflexivity.
  - reflexivity.
Qed.

Lemma set_parameter_applies_witness :
  exists st',
    set_parameter sample "amplitude" (VFloat f2_5) = Ok (true, st') /\
    get_parameter st' "amplitude" = VFloat f2_5 /\
    undo_stack st' =
      undo_stack sample ++ [[{| param_name := "amplitude"; old_value := VFloat f1_0;
                                new_value := VFloat f2_5 |}]] /\
    redo_stack st' = [].
Proof.
  apply (set_parameter_applies sample "amplitude"
           (list_to_map [("value", VFloat f1_0); ("type", VType PyFloat);
                         ("unit", VStr "m"); ("description", VStr "Amplitude");
                         ("min", VFloat f0_0); ("max", VFloat f10_0)])
           PyFloat (VFloat f1_0) (VFloat f2_5));
    vm_compute; reflexivity.
Defined.

(** C3.  After a successful [set_parameter], [undo] returns [True], puts
    the prior value back and moves the batch to the redo stack; [redo]
    then returns [True] and puts the new value back; any number of
    undo/redo rounds ends in the same two states (values, specs and both
    stacks); and [undo] on an empty undo stack returns [False] and
    changes nothing. *)
Theorem undo_redo_after_set st name value st1 :
  set_parameter st name value = Ok (true, st1) ->
  exists old sU sR,
    current_values st !! name = Some old /\
    undo st1 = Ok (true, sU) /\
    get_parameter sU name = old /\
    current_values sU = current_values st /\
    undo_stack sU = undo_stack st /\
    redo_stack sU =
      redo_stack st1 ++ [[{| param_name := name; old_value := old; new_value := value |}]] /\
    redo sU = Ok (true, sR) /\
    get_parameter sR name = value /\
    same_store sR st1 /\
    (forall n, exists sB sA,
        undo_redo_cycles n st1 = Ok (true, sB) /\ same_store sB st1 /\
        undo sB = Ok (true, sA) /\ same_store sA sU) /\
    (forall s, undo_stack s = [] -> undo s = Ok (false, s)).
Proof.
  intros H. apply set_parameter_true_inv in H as (old & pd & Hc & Hp & He & ->).
  assert (Hs1 : same_store (after_set st name pd old value) (after_set st name pd old value))
    by done.
  destruct (undo_after_set _ _ _ _ _ _ Hs1) as (sU & HU & HsU).
  destruct (redo_after_undo _ _ _ _ _ _ HsU) as (sR & HR & HsR).
  exists old, sU, sR.
  pose proof HsU as (HUp & HUc & HUu & HUr).
  pose proof HsR as (HRp & HRc & HRu & HRr).
  repeat split; try done.
  - unfold get_parameter. rewrite HUc. by rewrite lookup_insert_eq.
  - rewrite HUc. by apply insert_id.
  - unfold get_parameter. rewrite HRc. simpl. by rewrite lookup_insert_eq.
  - intros n. destruct (cycles_after_set st name pd old value n _ Hs1) as (sB & HB & HsB).
    destruct (undo_after_set _ _ _ _ _ _ HsB) as (sA & HA & HsA).
    exists sB, sA. repeat split; try done; try apply HsB.
    all: eapply undone_unique; eauto.
  - apply undo_empty.
Qed.

Lemma undo_redo_after_set_witness :
  exists old sU sR,
    current_values sample !! "amplitude" = Some old /\
    undo (after_set sample "amplitude" (sample_parameters !!! "amplitude") (VFloat f1_0) (VFloat f2_5))
      = Ok (true, sU) /\
    get_parameter sU "amplitude" = old /\
    redo sU = Ok (true, sR) /\
    get_parameter sR "amplitude" = VFloat f2_5.
Proof.
  destruct (undo_redo_after_set sample "amplitude" (VFloat f2_5)
              (after_set sample "amplitude" (sample_parameters !!! "amplitude")
                         (VFloat f1_0) (VFloat f2_5)))
    as (old & sU & sR & H1 & H2 & H3 & _ & _ & _ & H4 & H5 & _).
  - vm_compute. reflexivity.
  - exists old, sU, sR. repeat split; assumption.
Defined.

(** *** Rejected calls *)

Lemma py_lt_numbers v w :
  num_of v <> None -> num_of w <> None -> exists b, py_lt v w = Ok b.
Proof.
  intros Hv Hw. destruct (py_compare_numbers v w Hv Hw) as [c Hc].
  unfold py_lt. rewrite Hc. simpl. eauto.
Qed.

Lemma py_gt_numbers v w :
  num_of v <> None -> num_of w <> None -> exists b, py_gt v w = Ok b.
Proof.
  intros Hv Hw. destruct (py_compare_numbers v w Hv Hw) as [c Hc].
  unfold py_gt. rewrite Hc. simpl. eauto.
Qed.

Lemma is_number_num_of v : is_number v = true -> num_of v <> None.
Proof. unfold is_number. by destruct (num_of v). Qed.

Lemma py_gt_number_l v hi b :
  num_of hi <> None -> py_gt v hi = Ok b -> num_of v <> None.
Proof.
  unfold py_gt. intros Hh H.
  destruct (py_compare v hi) as [c|] eqn:Hc; [|done].
  by eapply py_compare_number_r.
Qed.

Lemma validate_bounds_violated st name pd v :
  parameters st !! name = Some pd ->
  numeric_bounds pd = true ->
  violates_bounds pd v = true ->
  _validate_bounds st name v = Ok false.
Proof.
  intros Hp Hn Hv. unfold _validate_bounds. rewrite Hp. simpl.
  unfold numeric_bounds in Hn. unfold violates_bounds in Hv.
  apply andb_prop in Hn as [Hlo Hhi].
  destruct (pd !! "min") as [lo|].
  - destruct (holds (py_lt v lo)) eqn:Hl.
    + apply holds_true in Hl. by rewrite Hl.
    + simpl in Hv. destruct (pd !! "max") as [hi|]; [|done].
      apply holds_true in Hv.
      apply is_number_num_of in Hlo, Hhi.
      pose proof (py_gt_number_l _ _ _ Hhi Hv) as Hnum.
      destruct (py_lt_numbers v lo Hnum Hlo) as [[] Hb]; rewrite Hb; simpl; [done|].
      by rewrite Hv.
  - simpl in *. destruct (pd !! "max") as [hi|]; [|done].
    apply holds_true in Hv. by rewrite Hv.
Qed.



(** *** Batches *)

Lemma validate_type_number st name pd v :
  parameters st !! name = Some pd ->
  spec_ok pd = true ->
  is_Some (pd !! "min") \/ is_Some (pd !! "max") ->
  _validate_type st name v = true ->
  numeric_bounds pd = true /\ num_of v <> None.
Proof.
  intros Hp Hs Hb Ht. unfold spec_ok in Hs.
  assert (Hs' : numeric_bounds pd &&
                match pd !! "type" with
                | Some (VType PyFloat) | Some (VType PyInt) | Some (VType PyBool) => true
                | _ => false
                end = true).
  { destruct (pd !! "min"), (pd !! "max"); try done.
    destruct Hb as [[? ?]|[? ?]]; done. }
  apply andb_prop in Hs' as [Hn Hty]. split; [done|].
  destruct (pd !! "type") as [[| | | | |t]|] eqn:Htype; try done.
  rewrite (validate_type_marker st name pd t v Hp Htype) in Ht.
  destruct t, v; simpl in *; done.
Qed.

Lemma validate_bounds_numbers st name pd v :
  parameters st !! name = Some pd ->
  numeric_bounds pd = true ->
  num_of v <> None ->
  exists b, _validate_bounds st name v = Ok b.
Proof.
  intros Hp Hn Hv. unfold _validate_bounds. rewrite Hp. simpl.
  unfold numeric_bounds in Hn. apply andb_prop in Hn as [Hlo Hhi].
  assert (Hmax : exists b,
    (above <- match pd !! "max" with
              | Some hi => py_gt v hi
              | None => Ok false
              end ;;
     if above then Ok false else Ok true) = Ok b).
  { destruct (pd !! "max") as [hi|]; simpl; eauto.
    apply is_number_num_of in Hhi.
    destruct (py_gt_numbers v hi Hv Hhi) as [[] ->]; simpl; eauto. }
  destruct (pd !! "min") as [lo|]; simpl; [|done].
  apply is_number_num_of in Hlo.
  destruct (py_lt_numbers v lo Hv Hlo) as [[] ->]; simpl; eauto.
Qed.

Lemma validate_bounds_unbounded st name pd v :
  parameters st !! name = Some pd ->
  pd !! "min" = None -> pd !! "max" = None ->
  _validate_bounds st name v = Ok true.
Proof.
  intros Hp Hlo Hhi. unfold _validate_bounds. rewrite Hp. simpl.
  by rewrite Hlo, Hhi.
Qed.

(** On a well-formed schema the first loop never raises, and its verdict
    is [entry_passes]. *)
Lemma validate_entry_total st name v :
  schema_ok st ->
  validate_entry st name v = Ok (entry_passes st (name, v)).
Proof.
  intros Hs. unfold validate_entry, entry_passes. simpl.
  destruct (current_values st !! name) as [old|] eqn:Hc.
  2:{ rewrite bool_decide_eq_false_2; [done|]. by intros [? ?]. }
  rewrite bool_decide_eq_true_2 by eauto. simpl.
  destruct (_validate_type st name v) eqn:Ht; [|done]. simpl.
  assert (exists pd, parameters st !! name = Some pd) as [pd Hp].
  { unfold _validate_type in Ht. destruct (parameters st !! name); [eauto|done]. }
  assert (exists b, _validate_bounds st name v = Ok b) as [b Hb].
  { pose proof (map_Forall_lookup_1 _ _ _ _ Hs Hp) as Hok. simpl in Hok.
    destruct (pd !! "min") as [lo|] eqn:Hlo.
    - destruct (validate_type_number st name pd v Hp Hok) as [Hn Hv]; eauto.
      by apply validate_bounds_numbers with pd.
    - destruct (pd !! "max") as [hi|] eqn:Hhi.
      + destruct (validate_type_number st name pd v Hp Hok) as [Hn Hv]; eauto.
        by apply validate_bounds_numbers with pd.
      + exists true. by apply validate_bounds_unbounded with pd. }
  rewrite Hb. simpl. by destruct b.
Qed.

Lemma validate_all_spec st : schema_ok st -> forall updates results0,
  NoDup updates.*1 ->
  exists results,
    validate_all st updates results0 = Ok results /\
    (forall e, e ∈ updates -> results !! e.1 = Some (entry_passes st e)) /\
    (forall n, n ∉ updates.*1 -> results !! n = results0 !! n).
Proof.
  intros Hs. induction updates as [|[name v] rest IH]; intros results0 Hnd.
  - exists results0. split; [done|]. split; [|done]. intros e He. by apply elem_of_nil in He.
  - simpl in Hnd. apply NoDup_cons in Hnd as [Hnotin Hnd].
    destruct (IH (<[name := entry_passes st (name, v)]> results0) Hnd) as (results & Hr & Hin & Hout).
    exists results. split; [|split].
    + simpl. rewrite validate_entry_total by done. simpl. exact Hr.
    + intros e He. apply elem_of_cons in He as [->|He]; [|by apply Hin].
      simpl. rewrite Hout by done. apply lookup_insert_eq.
    + intros n Hn. simpl in Hn. apply not_elem_of_cons in Hn as [Hne Hn].
      rewrite Hout by done. by apply lookup_insert_ne.
Qed.

Lemma map_filter_ext {A B} (f g : A -> B) (p : A -> bool) (l : list A) :
  (forall x, x ∈ l -> f x = g x) ->
  map f (List.filter p l) = map g (List.filter p l).
Proof.
  induction l as [|a l IH]; intros H; [done|]. simpl.
  assert (IH' : map f (List.filter p l) = map g (List.filter p l)).
  { apply IH. intros x Hx. apply H. by apply list_elem_of_further. }
  destruct (p a); simpl; [|done].
  rewrite IH'. f_equal. apply H. apply list_elem_of_here.
Qed.

Lemma apply_all_spec results (p : string * pyval -> bool) : forall updates st changes0,
  NoDup updates.*1 ->
  (forall e, e ∈ updates ->
     results !! e.1 = Some (p e) /\
     (p e = true -> is_Some (current_values st !! e.1) /\ is_Some (parameters st !! e.1))) ->
  exists st',
    apply_all st updates results changes0 =
      Ok (st', changes0 ++ map (change_of st) (List.filter p updates)) /\
    current_values st' = foldl apply_entry (current_values st) (List.filter p updates) /\
    undo_stack st' = undo_stack st /\
    redo_stack st' = redo_stack st.
Proof.
  induction updates as [|[name v] rest IH]; intros st changes0 Hnd H.
  - exists st. simpl. by rewrite app_nil_r.
  - simpl in Hnd. apply NoDup_cons in Hnd as [Hnotin Hnd].
    destruct (H (name, v)) as [Hres Hp]; [apply list_elem_of_here|]. simpl in Hres.
    simpl. rewrite Hres. destruct (p (name, v)) eqn:Hpe.
    + destruct Hp as [[old Hc] [pd Hpd]]; [done|]. simpl in Hc, Hpd.
      rewrite Hc. unfold assign. rewrite Hpd. simpl.
      match goal with |- context [apply_all ?s _ _ _] => set (st2 := s) end.
      destruct (IH st2 (changes0 ++ [{| param_name := name; old_value := old; new_value := v |}]) Hnd)
        as (st' & Ha & Hcv & Hu & Hr).
      { intros e He. destruct (H e) as [He1 He2]; [by apply list_elem_of_further|].
        split; [done|]. intros Hpt. destruct (He2 Hpt) as [Hs1 Hs2].
        subst st2. simpl. split; apply lookup_insert_is_Some'; by right. }
      exists st'. split; [|done].
      rewrite Ha. f_equal. f_equal. rewrite <- app_assoc. f_equal. simpl. f_equal.
      * unfold change_of, get_parameter. simpl. by rewrite Hc.
      * apply map_filter_ext. intros [n w] Hin.
        unfold change_of, get_parameter. subst st2. simpl.
        rewrite lookup_insert_ne; [done|].
        intros ->. apply Hnotin. by apply (list_elem_of_fmap_2 fst) in Hin.
    + apply IH; [done|]. intros e He. apply H. by apply list_elem_of_further.
Qed.

Lemma batch_spec st updates :
  NoDup updates.*1 ->
  schema_ok st ->
  exists results st',
    set_parameters_batch st updates = Ok (results, st') /\
    (forall e, e ∈ updates -> results !! e.1 = Some (entry_passes st e)) /\
    (forall n, n ∉ updates.*1 -> results !! n = None) /\
    current_values st' = foldl apply_entry (current_values st) (applied st updates) /\
    undo_stack st' =
      match applied st updates with
      | [] => undo_stack st
      | _ :: _ => undo_stack st ++ [map (change_of st) (applied st updates)]
      end /\
    redo_stack st' =
      match applied st updates with
      | [] => redo_stack st
      | _ :: _ => []
      end.
Proof.
  intros Hnd Hs.
  destruct (validate_all_spec st Hs updates ∅ Hnd) as (results & Hv & Hin & Hout).
  destruct (apply_all_spec results (entry_passes st) updates st [] Hnd)
    as (st1 & Ha & Hcv & Hu & Hr).
  { intros e He. split; [by apply Hin|].
    unfold entry_passes. intros Hp.
    apply andb_prop in Hp as [Hp _]. apply andb_prop in Hp as [Hc Ht].
    split; [by apply bool_decide_eq_true_1 in Hc|].
    unfold _validate_type in Ht. destruct (parameters st !! e.1); [eauto|done]. }
  simpl in Ha. fold (applied st updates) in Ha, Hcv.
  unfold set_parameters_batch. rewrite Hv. simpl. rewrite Ha. simpl.
  destruct (applied st updates) as [|e l] eqn:Happ; simpl.
  - exists results, st1.
    split; [done|]. split; [done|]. split; [intros n Hn; by rewrite Hout|]. done.
  - eexists results, _. split; [reflexivity|]. simpl.
    split; [done|]. split; [intros n Hn; by rewrite Hout|].
    split; [done|]. split; [by rewrite Hu|done].
Qed.

Lemma sample_schema_ok : schema_ok sample.
Proof. unfold schema_ok. by_evaluation. Qed.

Lemma sample_updates_NoDup : NoDup sample_updates.*1.
Proof. by_evaluation. Qed.


(** *** A batch entry that changes nothing *)

Lemma filter_keys_subset (p : string * pyval -> bool) (l : list (string * pyval)) n :
  n ∈ (List.filter p l).*1 -> n ∈ l.*1.
Proof.
  induction l as [|a l IH]; simpl; [done|].
  destruct (p a); simpl; rewrite !elem_of_cons; intuition.
Qed.

Lemma foldl_apply_notin n : forall (l : list (string * pyval)) m,
  n ∉ l.*1 -> foldl apply_entry m l !! n = m !! n.
Proof.
  induction l as [|[k w] l IH]; intros m Hn; [done|].
  simpl in *. apply not_elem_of_cons in Hn as [Hne Hn].
  rewrite IH by done. unfold apply_entry. simpl. by rewrite lookup_insert_ne.
Qed.

Lemma foldl_applied_lookup (p : string * pyval -> bool) n v :
  forall (l : list (string * pyval)) m,
    NoDup l.*1 -> (n, v) ∈ l -> p (n, v) = true ->
    foldl apply_entry m (List.filter p l) !! n = Some v.
Proof.
  induction l as [|[k w] l IH]; intros m Hnd Hin Hp.
  - by apply elem_of_nil in Hin.
  - simpl in Hnd. apply NoDup_cons in Hnd as [Hnotin Hnd].
    apply elem_of_cons in Hin as [Heq|Hin].
    + injection Heq as <- <-. simpl. rewrite Hp. simpl.
      rewrite foldl_apply_notin.
      * unfold apply_entry. simpl. apply lookup_insert_eq.
      * intros H. by apply filter_keys_subset in H.
    + simpl. destruct (p (k, w)); simpl; by apply IH.
Qed.

Lemma applied_elem st updates e :
  e ∈ updates -> entry_passes st e = true -> e ∈ applied st updates.
Proof.
  intros Hin Hp. unfold applied. apply list_elem_of_In, filter_In.
  split; [by apply list_elem_of_In|done].
Qed.


End StoreFacts.


(** ** Extractor *)

Module ParserFacts.
Import Text Parser.

(** *** Equality of keys *)

Lemma xcompare_Eq_sym x y : is_cmp Eq (xcompare x y) = is_cmp Eq (xcompare y x).
Proof.
  destruct x as [|s1|m1 e1], y as [|s2|m2 e2]; simpl; try reflexivity;
    try (destruct s1, s2; reflexivity); try (destruct s1; reflexivity);
    try (destruct s2; reflexivity).
  - rewrite (Z.min_comm e2 e1).
    match goal with
    | |- context [Z.compare ?a ?b] => rewrite (Z.compare_antisym a b); by destruct (Z.compare a b)
    end.
Qed.

Lemma py_eq_sym a b : py_eq a b = py_eq b a.
Proof.
  unfold py_eq.
  destruct (num_of a) as [x|] eqn:Ha, (num_of b) as [y|] eqn:Hb.
  - apply xcompare_Eq_sym.
  - destruct a, b; simpl in *; congruence.
  - destruct a, b; simpl in *; congruence.
  - destruct a, b; simpl in *; try congruence.
    + apply String.eqb_sym.
    + repeat case_decide; congruence.
Qed.

Lemma key_eqb_sym a b : key_eqb a b = key_eqb b a.
Proof.
  unfold key_eqb. rewrite py_eq_sym. f_equal. apply bool_decide_ext. split; congruence.
Qed.

Lemma key_eqb_refl a : key_eqb a a = true.
Proof. unfold key_eqb. by rewrite bool_decide_eq_true_2. Qed.


Lemma distinct_keys_snoc l k :
  distinct_keys l -> (forall x, x ∈ l -> key_eqb x k = false) -> distinct_keys (l ++ [k]).
Proof.
  induction l as [|a l IH]; simpl; intros Hd Hk.
  - split; [|done]. intros y Hy. by apply elem_of_nil in Hy.
  - destruct Hd as [Ha Hd]. split.
    + intros y Hy. apply elem_of_app in Hy as [Hy|Hy]; [by apply Ha|].
      apply list_elem_of_singleton in Hy as ->. apply Hk, list_elem_of_here.
    + apply IH; [done|]. intros x Hx. by apply Hk, list_elem_of_further.
Qed.

Lemma distinct_keys_eq l x k :
  distinct_keys l -> x ∈ l -> k ∈ l -> key_eqb x k = true -> x = k.
Proof.
  induction l as [|a l IH]; simpl; intros Hd Hx Hk He.
  - by apply elem_of_nil in Hx.
  - destruct Hd as [Ha Hd].
    apply elem_of_cons in Hx as [->|Hx], Hk as [->|Hk]; try done.
    + rewrite (Ha k Hk) in He. done.
    + rewrite key_eqb_sym, (Ha x Hx) in He. done.
    + by apply IH.
Qed.

Lemma distinct_keys_NoDup l : distinct_keys l -> NoDup l.
Proof.
  induction l as [|a l IH]; simpl; [constructor|].
  intros [Ha Hd]. apply NoDup_cons. split; [|by apply IH].
  intros Hin. specialize (Ha a Hin). by rewrite key_eqb_refl in Ha.
Qed.

(** *** Dictionaries keyed by objects *)

Section KeyDict.
Context {V : Type}.
Implicit Types d : list (pyval * V).

Lemma dict_get_None_keys d k :
  dict_get key_eqb d k = None -> forall x, x ∈ map fst d -> key_eqb x k = false.
Proof.
  induction d as [|[k' v'] d IH]; simpl; intros H x Hx.
  - by apply elem_of_nil in Hx.
  - destruct (key_eqb k' k) eqn:He; [done|].
    apply elem_of_cons in Hx as [->|Hx]; [done|]. by apply IH.
Qed.

Lemma dict_set_keys d k v :
  map fst (dict_set key_eqb d k v) =
    match dict_get key_eqb d k with
    | Some _ => map fst d
    | None => map fst d ++ [k]
    end.
Proof.
  induction d as [|[k' v'] d IH]; simpl; [done|].
  destruct (key_eqb k' k) eqn:He; simpl; [done|].
  rewrite IH. by destruct (dict_get key_eqb d k).
Qed.

Lemma dict_set_distinct d k v :
  distinct_keys (map fst d) -> distinct_keys (map fst (dict_set key_eqb d k v)).
Proof.
  intros Hd. rewrite dict_set_keys.
  destruct (dict_get key_eqb d k) eqn:Hg; [done|].
  apply distinct_keys_snoc; [done|]. by apply dict_get_None_keys.
Qed.

Lemma dict_set_keys_subset d k v x :
  x ∈ map fst (dict_set key_eqb d k v) -> x ∈ map fst d \/ x = k.
Proof.
  rewrite dict_set_keys. destruct (dict_get key_eqb d k); [by left|].
  intros H. apply elem_of_app in H as [H|H]; [by left|].
  right. by apply list_elem_of_singleton in H.
Qed.
End KeyDict.

(** *** Dictionaries keyed by strings *)

Section NameDict.
Context {V : Type}.
Implicit Types d : list (string * V).

Lemma sdict_get_set_eq d c v : dict_get String.eqb (dict_set String.eqb d c v) c = Some v.
Proof.
  induction d as [|[c' v'] d IH]; simpl.
  - by rewrite String.eqb_refl.
  - destruct (String.eqb c' c) eqn:He; simpl; by rewrite He.
Qed.

Lemma sdict_get_set_ne d c c' v :
  c <> c' -> dict_get String.eqb (dict_set String.eqb d c v) c' = dict_get String.eqb d c'.
Proof.
  intros Hne. induction d as [|[c0 v0] d IH]; simpl.
  - destruct (String.eqb c c') eqn:He; [|done]. by apply String.eqb_eq in He.
  - destruct (String.eqb c0 c) eqn:He; simpl.
    + apply String.eqb_eq in He as ->.
      destruct (String.eqb c c') eqn:He'; [|done]. by apply String.eqb_eq in He'.
    + by rewrite IH.
Qed.

Lemma sdict_get_elem d c v : dict_get String.eqb d c = Some v -> (c, v) ∈ d.
Proof.
  induction d as [|[c' v'] d IH]; simpl; [done|].
  destruct (String.eqb c' c) eqn:He.
  - apply String.eqb_eq in He as ->. intros [= ->]. apply list_elem_of_here.
  - intros H. by apply list_elem_of_further, IH.
Qed.

Lemma sdict_set_elem d c v c' v' :
  (c', v') ∈ dict_set String.eqb d c v -> (c', v') ∈ d \/ (c' = c /\ v' = v).
Proof.
  induction d as [|[c0 v0] d IH]; simpl; intros H.
  - apply list_elem_of_singleton in H as [= -> ->]. by right.
  - destruct (String.eqb c0 c) eqn:He.
    + apply String.eqb_eq in He as ->.
      apply elem_of_cons in H as [[= -> ->]|H]; [by right|].
      left. by apply list_elem_of_further.
    + apply elem_of_cons in H as [[= -> ->]|H]; [left; apply list_elem_of_here|].
      destruct (IH H) as [?|?]; [left; by apply list_elem_of_further|by right].
Qed.

Lemma sdict_set_names d c v :
  map fst (dict_set String.eqb d c v) =
    match dict_get String.eqb d c with
    | Some _ => map fst d
    | None => map fst d ++ [c]
    end.
Proof.
  induction d as [|[c' v'] d IH]; simpl; [done|].
  destruct (String.eqb c' c) eqn:He; simpl; [done|].
  rewrite IH. by destruct (dict_get String.eqb d c).
Qed.

Lemma sdict_get_None_names d c : dict_get String.eqb d c = None -> c ∉ map fst d.
Proof.
  induction d as [|[c' v'] d IH]; simpl; intros H Hin.
  - by apply elem_of_nil in Hin.
  - destruct (String.eqb c' c) eqn:He; [done|].
    apply elem_of_cons in Hin as [->|Hin]; [by rewrite String.eqb_refl in He|].
    by apply IH.
Qed.

Lemma sdict_set_NoDup d c v :
  NoDup (map fst d) -> NoDup (map fst (dict_set String.eqb d c v)).
Proof.
  intros Hd. rewrite sdict_set_names.
  destruct (dict_get String.eqb d c) eqn:Hg; [done|].
  apply NoDup_app. split; [done|]. split; [|apply NoDup_singleton].
  intros x Hx Hx'. apply list_elem_of_singleton in Hx' as ->.
  by apply sdict_get_None_names in Hg.
Qed.
End NameDict.

(** *** The names a category map lists *)

Lemma values_set_None d c l :
  dict_get String.eqb d c = None ->
  values_of (dict_set String.eqb d c l) = values_of d ++ l.
Proof.
  unfold values_of. induction d as [|[c' l'] d IH]; simpl; intros H.
  - by rewrite app_nil_r.
  - destruct (String.eqb c' c); [done|]. simpl. rewrite IH by done. by rewrite app_assoc.
Qed.

Lemma values_set_Some d c l0 l :
  dict_get String.eqb d c = Some l0 ->
  exists pre post,
    values_of d = pre ++ l0 ++ post /\
    values_of (dict_set String.eqb d c l) = pre ++ l ++ post.
Proof.
  unfold values_of. induction d as [|[c' l'] d IH]; simpl; intros H; [done|].
  destruct (String.eqb c' c).
  - injection H as ->. by exists [], (concat (map snd d)).
  - destruct (IH H) as (pre & post & H1 & H2).
    exists (l' ++ pre), post. simpl. rewrite H1, H2. by rewrite <- !app_assoc.
Qed.

Lemma values_filter d :
  values_of (List.filter (fun c => negb (is_empty (snd c))) d) = values_of d.
Proof.
  unfold values_of. induction d as [|[c l] d IH]; simpl; [done|].
  destruct l as [|x l]; simpl; [done|]. by rewrite IH.
Qed.

Lemma values_all_empty (cs : list (string * list pyval)) :
  values_of (map (fun c => (fst c, [])) cs) = [].
Proof. unfold values_of. induction cs as [|c cs IH]; simpl; done. Qed.

Lemma contains_elem l k : k ∈ l -> list_contains key_eqb l k = true.
Proof.
  intros H. unfold list_contains. apply existsb_exists.
  exists k. split; [by apply list_elem_of_In|apply key_eqb_refl].
Qed.

Lemma contains_none l k :
  (forall x, x ∈ l -> key_eqb x k = false) -> list_contains key_eqb l k = false.
Proof.
  intros H. unfold list_contains. apply not_true_is_false. intros He.
  apply existsb_exists in He as (x & Hx & He). apply list_elem_of_In in Hx.
  by rewrite (H x Hx) in He.
Qed.

Lemma remove_found l k :
  list_contains key_eqb l k = true ->
  exists x, x ∈ l /\ key_eqb x k = true /\ Permutation l (x :: list_remove key_eqb l k).
Proof.
  induction l as [|a l IH]; simpl; [done|].
  destruct (key_eqb a k) eqn:He; simpl.
  - intros _. exists a. split; [apply list_elem_of_here|done].
  - intros H. destruct (IH H) as (x & Hx & Hxk & Hp).
    exists x. split; [by apply list_elem_of_further|]. split; [done|].
    rewrite Hp at 1. apply perm_swap.
Qed.

Lemma remove_keeps l k y :
  y ∈ l -> key_eqb y k = false -> y ∈ list_remove key_eqb l k.
Proof.
  induction l as [|a l IH]; simpl; intros Hy He; [done|].
  apply elem_of_cons in Hy as [->|Hy].
  - rewrite He. apply list_elem_of_here.
  - destruct (key_eqb a k); [done|]. by apply list_elem_of_further, IH.
Qed.


Lemma elem_values res c l x : (c, l) ∈ res -> x ∈ l -> x ∈ values_of res.
Proof.
  unfold values_of. intros Hc Hx. apply list_elem_of_In, in_concat.
  exists l. split; [|by apply list_elem_of_In].
  apply in_map_iff. exists (c, l). split; [done|by apply list_elem_of_In].
Qed.

Lemma perm_elem (l1 l2 : list pyval) x : Permutation l1 l2 -> x ∈ l1 -> x ∈ l2.
Proof. intros Hp Hx. apply list_elem_of_In. eapply Permutation_in; [exact Hp|by apply list_elem_of_In]. Qed.

Lemma assign_step_assigning category_of P res k line rest :
  distinct_keys P ->
  distinct_keys (k :: rest) ->
  assigning P res (k :: rest) ->
  exists res', assign_step category_of res (k, line) = Ok res' /\ assigning P res' rest.
Proof.
  intros HP [Hk Hrest] (Hnd & Hperm & dl & Hdl & Hin & Hout).
  assert (Hkdl : k ∈ dl) by apply Hin, list_elem_of_here.
  unfold assign_step. set (c := category_of line).
  destruct (String.eqb c "Default") eqn:Hc.
  - (* assigned to "Default": nothing moves *)
    apply String.eqb_eq in Hc. rewrite Hc, Hdl.
    unfold getitem. rewrite Hdl. simpl.
    rewrite (contains_elem dl k Hkdl). simpl.
    exists res. split; [done|]. split; [done|]. split; [done|].
    exists dl. split; [done|]. split.
    + intros k' Hk'. by apply Hin, list_elem_of_further.
    + intros c' l x k' ? ? ? Hk'. eapply Hout; eauto. by apply list_elem_of_further.
  - (* assigned to a named category: appended there, removed from "Default" *)
    assert (Hne : c <> "Default") by (intros Heq; by rewrite Heq in Hc).
    set (res1 := match dict_get String.eqb res c with
                 | Some _ => res
                 | None => dict_set String.eqb res c []
                 end).
    assert (H1 : NoDup (map fst res1) /\ values_of res1 = values_of res /\
                 dict_get String.eqb res1 "Default" = Some dl /\
                 (forall c' l, (c', l) ∈ res1 -> (c', l) ∈ res \/ l = []) /\
                 exists members, dict_get String.eqb res1 c = Some members).
    { subst res1. destruct (dict_get String.eqb res c) as [m|] eqn:Hg.
      - repeat split; eauto.
      - split; [by apply sdict_set_NoDup|].
        split; [rewrite values_set_None by done; apply app_nil_r|].
        split; [by rewrite sdict_get_set_ne|].
        split; [|exists []; apply sdict_get_set_eq].
        intros c' l Hl. apply sdict_set_elem in Hl as [?|[_ ->]]; eauto. }
    destruct H1 as (Hnd1 & Hv1 & Hdl1 & Hel1 & members & Hm).
    unfold getitem. fold res1. rewrite Hm. simpl.
    assert (Hmem : forall x, x ∈ members -> key_eqb x k = false).
    { intros x Hx. apply sdict_get_elem in Hm.
      destruct (Hel1 _ _ Hm) as [Hr| ->]; [|by apply elem_of_nil in Hx].
      eapply Hout; eauto. apply list_elem_of_here. }
    rewrite (contains_none members k Hmem). simpl.
    set (res2 := dict_set String.eqb res1 c (members ++ [k])).
    assert (Hdl2 : dict_get String.eqb res2 "Default" = Some dl).
    { subst res2. by rewrite sdict_get_set_ne. }
    rewrite Hdl2. simpl. rewrite (contains_elem dl k Hkdl).
    eexists. split; [reflexivity|].
    destruct (values_set_Some res1 c members (members ++ [k]) Hm) as (pre & post & Hb & Ha).
    fold res2 in Ha.
    destruct (values_set_Some res2 "Default" dl (list_remove key_eqb dl k) Hdl2)
      as (pre' & post' & Hb' & Ha').
    destruct (remove_found dl k (contains_elem dl k Hkdl)) as (x & Hx & Hxk & Hrem).
    assert (x = k) as ->.
    { apply (distinct_keys_eq P); try done.
      - apply (perm_elem _ _ _ Hperm). eapply elem_values; [by apply sdict_get_elem|done].
      - apply (perm_elem _ _ _ Hperm). eapply elem_values; [by apply sdict_get_elem|done]. }
    split; [by do 2 apply sdict_set_NoDup|]. split.
    + rewrite Ha'. transitivity (values_of res); [|exact Hperm].
      rewrite <- Hv1, Hb.
      apply (Permutation_cons_inv (a := k)).
      transitivity (pre' ++ dl ++ post').
      { symmetry.
        etransitivity; [apply Permutation_app_head, Permutation_app_tail, Hrem|].
        simpl. symmetry. apply Permutation_middle. }
      rewrite <- Hb', Ha.
      rewrite <- !app_assoc. simpl. rewrite !app_assoc.
      symmetry. apply Permutation_middle.
    + exists (list_remove key_eqb dl k). split; [apply sdict_get_set_eq|]. split.
      * intros k' Hk'. apply remove_keeps; [by apply Hin, list_elem_of_further|].
        rewrite key_eqb_sym. by apply Hk.
      * intros c' l y k' Hl Hc' Hy Hk'.
        apply sdict_set_elem in Hl as [Hl|[-> _]]; [|done].
        apply sdict_set_elem in Hl as [Hl|[-> ->]].
        -- destruct (Hel1 _ _ Hl) as [Hr| ->]; [|by apply elem_of_nil in Hy].
           eapply Hout; eauto. by apply list_elem_of_further.
        -- apply elem_of_app in Hy as [Hy|Hy].
           ++ apply sdict_get_elem in Hm.
              destruct (Hel1 _ _ Hm) as [Hr| ->]; [|by apply elem_of_nil in Hy].
              eapply Hout; eauto. by apply list_elem_of_further.
           ++ apply list_elem_of_singleton in Hy as ->. by apply Hk.
Qed.

Lemma assign_all_assigning category_of P : forall items res,
  distinct_keys P ->
  distinct_keys (map fst items) ->
  assigning P res (map fst items) ->
  exists res', assign_all category_of res items = Ok res' /\ assigning P res' [].
Proof.
  induction items as [|[k line] rest IH]; intros res HP Hd Hinv.
  - exists res. by split.
  - simpl in Hd.
    destruct (assign_step_assigning category_of P res k line (map fst rest) HP Hd Hinv)
      as (res1 & Hs & Hinv1).
    destruct (IH res1 HP (proj2 Hd) Hinv1) as (res' & Ha & Hinv').
    exists res'. split; [|done]. cbn [assign_all]. rewrite Hs. exact Ha.
Qed.

(** *** What the loops start from *)

Lemma extract_items_distinct extract : forall values keys acc r,
  distinct_keys (map fst acc) ->
  extract_items extract keys values acc = Ok r ->
  distinct_keys (map fst r).
Proof.
  induction values as [|value_node values IH]; intros keys acc r Hd H.
  - simpl in H. injection H as <-. done.
  - destruct keys as [|key_node keys]; simpl in H; [injection H as <-; done|].
    destruct key_node as [[]|]; try (by eapply IH; eauto).
    destruct (extract value_node) as [v|]; simpl in H; [|done].
    eapply IH; [|exact H]. by apply dict_set_distinct.
Qed.

Lemma extract_parameters_distinct p params :
  extract_parameters p = Ok params -> distinct_keys (map fst params).
Proof.
  unfold extract_parameters, _extract_dict_value. intros H.
  destruct (first_assignment (walk (tree p))) as [[value lineno]|].
  - destruct value; try (injection H as <-; done).
    by eapply (extract_items_distinct _extract_value); [|exact H].
  - injection H as <-. done.
Qed.

Lemma find_parameter_lines_keys float_repr p start : forall param_keys acc,
  distinct_keys (map fst acc) ->
  let r := fold_left
             (fun param_lines key =>
                match find_from (mentions float_repr key) (drop start (lines p)) start with
                | Some i => dict_set key_eqb param_lines key i
                | None => param_lines
                end) param_keys acc in
  distinct_keys (map fst r) /\
  forall x, x ∈ map fst r -> x ∈ map fst acc \/ x ∈ param_keys.
Proof.
  induction param_keys as [|key rest IH]; intros acc Hd; simpl.
  - split; [done|]. by left.
  - destruct (find_from (mentions float_repr key) (drop start (lines p)) start) as [i|].
    + destruct (IH (dict_set key_eqb acc key i)) as [H1 H2]; [by apply dict_set_distinct|].
      split; [done|]. intros x Hx. destruct (H2 x Hx) as [Ha|Hr].
      * apply dict_set_keys_subset in Ha as [?| ->]; [by left|right; apply list_elem_of_here].
      * right. by apply list_elem_of_further.
    + destruct (IH acc Hd) as [H1 H2]. split; [done|].
      intros x Hx. destruct (H2 x Hx) as [?|?]; [by left|right; by apply list_elem_of_further].
Qed.

Lemma header_step_NoDup st line :
  NoDup (map fst (fst (fst st))) -> NoDup (map fst (fst (fst (header_step st line)))).
Proof.
  destruct st as [[categories current_category] current_params].
  unfold header_step. cbn [fst].
  destruct (search_group header_pattern line) as [g|]; [|done].
  match goal with |- context [existsb ?f keywords] => destruct (existsb f keywords) end;
    [|done]. cbn [fst].
  destruct (is_empty current_params); [done|]. intros H. by apply sdict_set_NoDup.
Qed.

Lemma scan_headers_NoDup p n : NoDup (map fst (scan_headers p n)).
Proof.
  unfold scan_headers.
  assert (H : forall ls st, NoDup (map fst (fst (fst st))) ->
                            NoDup (map fst (fst (fst (fold_left header_step ls st))))).
  { induction ls as [|l ls IH]; intros st Hst; [done|].
    simpl. by apply IH, header_step_NoDup. }
  specialize (H (drop n (lines p)) ([], "Default", []) (NoDup_nil_2)).
  destruct (fold_left header_step (drop n (lines p)) ([], "Default", []))
    as [[categories current_category] current_params].
  simpl in H. destruct (negb (is_empty current_params)); [by apply sdict_set_NoDup|].
  destruct (dict_get String.eqb categories current_category); [done|by apply sdict_set_NoDup].
Qed.

Lemma assigning_initially (categories : list (string * list pyval)) P remaining :
  NoDup (map fst categories) ->
  (forall k, k ∈ remaining -> k ∈ P) ->
  assigning P (dict_set String.eqb (map (fun c => (fst c, [])) categories) "Default" P)
            remaining.
Proof.
  intros Hnd Hrem. set (d := map (fun c => (fst c, [])) categories).
  assert (Hd : forall c l, (c, l) ∈ d -> l = []).
  { intros c l H. subst d. apply list_elem_of_fmap in H as ([c' l'] & [= -> ->] & _). done. }
  split; [|split].
  - apply sdict_set_NoDup. subst d. rewrite map_map. simpl. exact Hnd.
  - destruct (dict_get String.eqb d "Default") as [l0|] eqn:Hg.
    + destruct (values_set_Some d "Default" l0 P Hg) as (pre & post & Hb & Ha).
      rewrite Ha. subst d. rewrite values_all_empty in Hb.
      symmetry in Hb. apply app_eq_nil in Hb as [-> Hb]. apply app_eq_nil in Hb as [_ ->].
      simpl. by rewrite app_nil_r.
    + rewrite values_set_None by done. subst d. by rewrite values_all_empty.
  - exists P. split; [apply sdict_get_set_eq|]. split; [done|].
    intros c l x k Hl Hc Hx _. apply sdict_set_elem in Hl as [Hl|[-> _]]; [|done].
    apply Hd in Hl as ->. by apply elem_of_nil in Hx.
Qed.

(** C5.  Whenever the PARAMETERS literal can be extracted,
    [get_categories] returns a map whose lists, taken together, hold
    every extracted name exactly once and nothing else: the names are
    pairwise distinct, the category names are pairwise distinct, the
    concatenation of the lists is a permutation of the names, and no
    list is empty. *)
Theorem get_categories_partition float_repr p params :
  extract_parameters p = Ok params ->
  exists cats,
    get_categories float_repr p = Ok cats /\
    Permutation (concat (map snd cats)) (map fst params) /\
    NoDup (map fst params) /\
    NoDup (map fst cats) /\
    (forall c l, (c, l) ∈ cats -> l <> []).
Proof.
  intros He. pose proof (extract_parameters_distinct p params He) as Hd.
  pose proof (distinct_keys_NoDup _ Hd) as HndP.
  unfold get_categories. rewrite He. simpl.
  destruct params as [|kv params']; simpl is_empty; cbv iota.
  { exists []. repeat split; try done; try constructor.
    intros c l H. by apply elem_of_nil in H. }
  set (P := map fst (kv :: params')) in *.
  destruct (_find_parameters_line p) as [n|].
  2:{ exists [("Default", P)]. split; [done|]. simpl. rewrite app_nil_r.
      split; [done|]. split; [done|]. split; [apply NoDup_singleton|].
      intros c l H. apply list_elem_of_singleton in H as [= -> ->]. done. }
  destruct (find_parameter_lines_keys float_repr p n P [] I) as [Hdi Hsub].
  fold (_find_parameter_lines float_repr p P n) in Hdi, Hsub.
  set (items := _find_parameter_lines float_repr p P n) in *.
  destruct (assign_all_assigning (nearest_category (_extract_category_lines p n)) P items
              (dict_set String.eqb (map (fun c => (fst c, [])) (scan_headers p n)) "Default" P)
              Hd Hdi)
    as (res' & Ha & Hnd & Hperm & _).
  { apply assigning_initially; [apply scan_headers_NoDup|].
    intros k Hk. destruct (Hsub k Hk) as [H|H]; [by apply elem_of_nil in H|done]. }
  rewrite Ha. simpl. eexists. split; [reflexivity|].
  split; [|split; [done|split]].
  - fold (values_of (List.filter (fun c => negb (is_empty (snd c))) res')).
    by rewrite values_filter.
  - clear -Hnd. induction res' as [|[c l] r IH]; simpl; [constructor|].
    simpl in Hnd. apply NoDup_cons in Hnd as [Hc Hnd].
    destruct (negb (is_empty l)); simpl; [|by apply IH].
    apply NoDup_cons. split; [|by apply IH].
    intros Hin. apply Hc. clear -Hin.
    induction r as [|[c' l'] r IH]; simpl in *; [done|].
    destruct (negb (is_empty l')); simpl in *.
    + apply elem_of_cons in Hin as [->|Hin]; [apply list_elem_of_here|].
      by apply list_elem_of_further, IH.
    + by apply list_elem_of_further, IH.
  - intros c l Hl -> . apply list_elem_of_In, filter_In in Hl as [_ Hl]. done.
Qed.

Lemma get_categories_partition_witness :
  exists params cats,
    extract_parameters sample_script = Ok params /\
    get_categories (fun _ => EmptyString) sample_script = Ok cats /\
    Permutation (concat (map snd cats)) (map fst params) /\
    NoDup (map fst cats).
Proof.
  destruct (extract_parameters sample_script) as [params|e] eqn:He;
    [|vm_compute in He; discriminate].
  destruct (get_categories_partition (fun _ => EmptyString) sample_script params He)
    as (cats & Hc & Hp & _ & Hn & _).
  exists params, cats. split; [reflexivity|]. split; [exact Hc|]. split; [exact Hp|exact Hn].
Defined.

(** C6, at the failing script: the first loop does see the
    "Display Options" comment as a header, but the second scan, which
    decides the assignment, does not, and [label] lands under
    "Physical Parameters". *)
Theorem get_categories_misses_options float_repr :
  scan_headers sample_script 2 = [("Display Options", [])] /\
  _extract_category_lines sample_script 2 = [(3%nat, "Physical Parameters")] /\
  get_categories float_repr sample_script =
    Ok [("Physical Parameters",
         [VStr "amplitude"; VStr "damping"; VStr "show_grid"; VStr "label"])].
Proof. split; [|split]; vm_compute; reflexivity. Qed.

(** C7, as stated, fails: a script without any assignment to PARAMETERS
    is extracted without failure, as the empty dictionary. *)
Lemma extract_parameters_absent_is_empty :
  ~ (forall p, first_assignment (walk (tree p)) = None ->
               exists e, extract_parameters p = Raise e).
Proof.
  intros H. destruct (H plain_script) as [e He]; [reflexivity|].
  vm_compute in He. discriminate.
Qed.

(** C7, amended.  Building the parser object fails with [SyntaxError]
    when the text does not parse; for a text that parses and has no
    assignment to the name PARAMETERS, extraction succeeds and returns
    the empty dictionary, and so does the category map. *)
Theorem parse_parameters_absent ast_parse float_repr source :
  (ast_parse source = None ->
   parse_parameters ast_parse source = Raise SyntaxError) /\
  (forall t, ast_parse source = Some t ->
             first_assignment (walk t) = None ->
             parse_parameters ast_parse source = Ok [] /\
             exists p, new_parser ast_parse source = Ok p /\
                       extract_parameters p = Ok [] /\
                       get_categories float_repr p = Ok []).
Proof.
  unfold parse_parameters, new_parser. split.
  - by intros ->.
  - intros t -> Hnone. simpl. unfold extract_parameters. simpl. rewrite Hnone.
    split; [done|]. eexists. split; [reflexivity|].
    unfold get_categories, extract_parameters. simpl. by rewrite Hnone.
Qed.

Lemma parse_parameters_absent_witness :
  parse_parameters sample_ast_parse "x = (" = Raise SyntaxError /\
  parse_parameters sample_ast_parse "x = 1" = Ok [].
Proof.
  split.
  - apply (proj1 (parse_parameters_absent sample_ast_parse (fun _ => EmptyString) "x = (")).
    reflexivity.
  - apply (proj2 (parse_parameters_absent sample_ast_parse (fun _ => EmptyString) "x = 1")
             (tree plain_script)); reflexivity.
Defined.

End ParserFacts.

(** ** Process controller *)

Module RunnerFacts.
Import Runner.

(** C8, as stated, fails: with the status still [RUNNING] and the
    process already gone, [stop] goes straight to [STOPPED], returns
    [False], and neither sets the cancellation flag nor starts a
    worker. *)
Lemma stop_on_exited_process :
  status exited_run = RUNNING /\
  stop exited_run = (false, _set_status exited_run STOPPED) /\
  status (snd (stop exited_run)) = STOPPED /\
  stop_event (snd (stop exited_run)) = false /\
  threads (snd (stop exited_run)) = threads exited_run.
Proof. repeat split. Qed.

(** C8, amended.  [stop] returns [False] and changes nothing unless the
    status is [RUNNING]; when it is [RUNNING] and the process is alive,
    [stop] sets the cancellation flag, moves to [STOPPING], starts the
    cleanup worker and returns [True]; when it is [RUNNING] and there is
    no process or the process has exited, [stop] moves to [STOPPED] and
    returns [False], the flag and the workers being left as they were. *)
Theorem stop_spec r :
  (status r <> RUNNING -> stop r = (false, r)) /\
  (status r = RUNNING -> process r = Some None ->
   exists r', stop r = (true, r') /\
              status r' = STOPPING /\
              stop_event r' = true /\
              status_queue r' = status_queue r ++ [STOPPING] /\
              threads r' = threads r ++ ["ManimCleanupThread"] /\
              process r' = process r) /\
  (status r = RUNNING -> process r <> Some None ->
   stop r = (false, _set_status r STOPPED) /\
   stop_event (snd (stop r)) = stop_event r /\
   threads (snd (stop r)) = threads r).
Proof.
  unfold stop. split; [|split].
  - intros H. by rewrite bool_decide_eq_false_2.
  - intros H Hp. rewrite bool_decide_eq_true_2 by done. simpl. rewrite Hp.
    eexists. split; [reflexivity|]. simpl. done.
  - intros H Hp. rewrite bool_decide_eq_true_2 by done. simpl.
    destruct (process r) as [[rc|]|]; done.
Qed.

Lemma stop_spec_witness :
  exists r',
    stop live_run = (true, r') /\
    status r' = STOPPING /\
    stop_event r' = true /\
    status_queue r' = status_queue live_run ++ [STOPPING] /\
    threads r' = threads live_run ++ ["ManimCleanupThread"] /\
    process r' = process live_run.
Proof. apply (proj1 (proj2 (stop_spec live_run))); reflexivity. Defined.

End RunnerFacts.

(** ** Presets *)

Module PresetsFacts.
Import Text Presets.

Local Infix "+++" := String.append (at level 60, right associativity).

(** *** Characters and texts *)

Lemma code_inj c d : Text.code c = Text.code d -> c = d.
Proof.
  unfold Text.code. intros H.
  by rewrite <- (ascii_nat_embedding c), <- (ascii_nat_embedding d), H.
Qed.

Lemma code_bound c : (Text.code c < 256)%nat.
Proof. apply nat_ascii_bounded. Qed.

Lemma append_cons c a b : String c a +++ b = String c (a +++ b).
Proof. reflexivity. Qed.

Lemma append_nil_l a : EmptyString +++ a = a.
Proof. reflexivity. Qed.

Lemma append_nil_r a : a +++ EmptyString = a.
Proof. induction a as [|c a IH]; [done|]. by rewrite append_cons, IH. Qed.

Lemma append_assoc a b c : (a +++ b) +++ c = a +++ (b +++ c).
Proof. induction a as [|x a IH]; [done|]. by rewrite !append_cons, IH. Qed.

Lemma append_length a b :
  String.length (a +++ b) = (String.length a + String.length b)%nat.
Proof.
  induction a as [|c a IH]; [done|]. rewrite append_cons. simpl. by rewrite IH.
Qed.

(** *** Blanks *)

Lemma skip_ws_stop c r : is_ws c = false -> skip_ws (String c r) = String c r.
Proof. intros H. simpl. by rewrite H. Qed.

Lemma skip_ws_spaces n s : skip_ws (spaces n +++ s) = skip_ws s.
Proof. induction n as [|n IH]; [done|]. simpl. exact IH. Qed.

Lemma skip_ws_newline_indent level s : skip_ws (newline_indent level +++ s) = skip_ws s.
Proof. unfold newline_indent. simpl. apply skip_ws_spaces. Qed.

(** *** Strings *)

Lemma hex_value_digit k : (k < 16)%nat -> hex_value (hex_digit k) = Some k.
Proof.
  intros H. do 16 (destruct k as [|k]; [reflexivity|]). lia.
Qed.

Lemma parse_string_u00 h3 h4 r :
  parse_string (String bs (String "u" (String "0" (String "0" (String h3 (String h4 r)))))) =
  match hex_value h3, hex_value h4 with
  | Some x, Some y =>
      match parse_string r with
      | Some (t, rest) => Some (String (ascii_of_nat (16 * x + y)) t, rest)
      | None => None
      end
  | _, _ => None
  end.
Proof. reflexivity. Qed.

Lemma parse_string_plain c r :
  has_code c 34 = false -> has_code c 92 = false -> (code c <? 32)%nat = false ->
  parse_string (String c r) =
  match parse_string r with
  | Some (t, rest) => Some (String c t, rest)
  | None => None
  end.
Proof. intros H1 H2 H3. cbn [parse_string]. by rewrite H1, H2, H3. Qed.

Lemma parse_string_quote r : parse_string (String dq r) = Some (EmptyString, r).
Proof. reflexivity. Qed.

Lemma parse_escape_char c rest t rest' :
  parse_string rest = Some (t, rest') ->
  parse_string (escape_char c +++ rest) = Some (String c t, rest').
Proof.
  intros H. unfold escape_char.
  pose proof (code_bound c) as Hb.
  destruct (Nat.eqb_spec (code c) 34) as [H34|H34].
  { simpl. rewrite append_nil_l, H. do 2 f_equal. f_equal. by apply code_inj. }
  destruct (Nat.eqb_spec (code c) 92) as [H92|H92].
  { simpl. rewrite append_nil_l, H. do 2 f_equal. f_equal. by apply code_inj. }
  destruct (Nat.eqb_spec (code c) 8) as [H8|H8].
  { simpl. rewrite append_nil_l, H. do 2 f_equal. f_equal. by apply code_inj. }
  destruct (Nat.eqb_spec (code c) 12) as [H12|H12].
  { simpl. rewrite append_nil_l, H. do 2 f_equal. f_equal. by apply code_inj. }
  destruct (Nat.eqb_spec (code c) 10) as [H10|H10].
  { simpl. rewrite append_nil_l, H. do 2 f_equal. f_equal. by apply code_inj. }
  destruct (Nat.eqb_spec (code c) 13) as [H13|H13].
  { simpl. rewrite append_nil_l, H. do 2 f_equal. f_equal. by apply code_inj. }
  destruct (Nat.eqb_spec (code c) 9) as [H9|H9].
  { simpl. rewrite append_nil_l, H. do 2 f_equal. f_equal. by apply code_inj. }
  destruct ((code c <? 32)%nat || (126 <? code c)%nat) eqn:Hout.
  - rewrite !append_cons, append_nil_l, parse_string_u00.
    rewrite !hex_value_digit, H.
    + do 2 f_equal. f_equal. rewrite <- Nat.div_mod_eq. apply ascii_nat_embedding.
    + apply Nat.mod_upper_bound. lia.
    + apply Nat.Div0.div_lt_upper_bound. lia.
  - apply orb_false_iff in Hout as [Hlo _].
    rewrite append_cons, append_nil_l, parse_string_plain, H; trivial.
    + unfold has_code. by apply Nat.eqb_neq.
    + unfold has_code. by apply Nat.eqb_neq.
Qed.

Lemma parse_string_escape s rest :
  parse_string (escape s +++ String dq rest) = Some (s, rest).
Proof.
  induction s as [|c s IH]; [reflexivity|].
  cbn [escape]. rewrite append_assoc. by apply parse_escape_char.
Qed.

(** A quoted string is read back, whatever follows. *)
Lemma parse_string_quoted s rest :
  exists body, quote s = String dq body /\ parse_string (body +++ rest) = Some (s, rest).
Proof.
  exists (escape s +++ String dq EmptyString). split; [reflexivity|].
  rewrite append_assoc. apply parse_string_escape.
Qed.

(** *** Characters that end a value *)

Ltac codes :=
  unfold ends_value, is_ws, is_digit, has_code in *;
  repeat match goal with
  | H : _ || _ = true |- _ => apply orb_true_iff in H as [H|H]
  | H : _ || _ = false |- _ => apply orb_false_iff in H as [? H]
  | H : _ && _ = true |- _ => apply andb_true_iff in H as [? H]
  | H : (_ =? _)%nat = true |- _ => apply Nat.eqb_eq in H
  | H : (_ =? _)%nat = false |- _ => apply Nat.eqb_neq in H
  | H : (_ <=? _)%nat = true |- _ => apply Nat.leb_le in H
  end;
  repeat match goal with
  | |- _ /\ _ => split
  | |- _ || _ = false => apply orb_false_iff
  | |- _ && _ = false => apply andb_false_iff
  | |- (_ =? _)%nat = false => apply Nat.eqb_neq
  | |- (_ =? _)%nat = true => apply Nat.eqb_eq
  | |- _ && _ = true => apply andb_true_iff
  | |- (_ <=? _)%nat = true => apply Nat.leb_le
  end;
  try lia.

Lemma ends_value_head c r :
  ends_value (String c r) = true ->
  is_digit c = false /\ has_code c 46 = false /\ has_code c 101 = false /\
  has_code c 69 = false /\ has_code c 43 = false /\ has_code c 45 = false.
Proof.
  intros H. codes; (left; apply Nat.leb_gt; lia) || (right; apply Nat.leb_gt; lia).
Qed.

(** *** Digits *)

Lemma span_digits_end rest : ends_value rest = true -> span_digits rest = (EmptyString, rest).
Proof.
  destruct rest as [|c r]; [done|]. intros H.
  apply ends_value_head in H as [H _]. cbn [span_digits]. by rewrite H.
Qed.

Lemma span_digits_app s d r rest :
  span_digits s = (d, r) -> ends_value rest = true ->
  span_digits (s +++ rest) = (d, r +++ rest).
Proof.
  revert d r. induction s as [|c s IH]; intros d r H Hend.
  - injection H as <- <-. by apply span_digits_end.
  - rewrite append_cons. cbn [span_digits] in *. destruct (is_digit c).
    + destruct (span_digits s) as [d' r'] eqn:Hs. injection H as <- <-.
      by rewrite (IH d' r' eq_refl Hend).
    + by injection H as <- <-.
Qed.

Lemma span_digits_split s d r : span_digits s = (d, r) -> s = d +++ r.
Proof.
  revert d r. induction s as [|c s IH]; intros d r H.
  - by injection H as <- <-.
  - cbn [span_digits] in H. destruct (is_digit c).
    + destruct (span_digits s) as [d' r'] eqn:Hs. injection H as <- <-.
      by rewrite append_cons, <- (IH d' r' eq_refl).
    + by injection H as <- <-.
Qed.

Lemma digits_value_app acc a b :
  digits_value acc (a +++ b) = digits_value (digits_value acc a) b.
Proof. revert acc. induction a as [|c a IH]; intros acc; [done|]. rewrite append_cons. apply IH. Qed.

Lemma pretty_N_char_digit x :
  (x < 10)%N ->
  is_digit (pretty_N_char x) = true /\
  N.of_nat (code (pretty_N_char x) - 48) = x /\
  (x <> 0%N -> has_code (pretty_N_char x) 48 = false).
Proof.
  intros H.
  assert (x = 0 \/ x = 1 \/ x = 2 \/ x = 3 \/ x = 4 \/ x = 5 \/ x = 6 \/ x = 7 \/ x = 8 \/ x = 9)%N
    as Hx by lia.
  repeat destruct Hx as [->|Hx]; try subst x; repeat split; try reflexivity; intros; congruence.
Qed.

Lemma pretty_N_go_app x s : pretty_N_go x s = pretty_N_go x EmptyString +++ s.
Proof.
  revert s. induction (N.lt_wf_0 x) as [x _ IH]; intros s.
  assert (x = 0 \/ 0 < x)%N as [->|Hx] by lia; [done|].
  rewrite !(pretty_N_go_step x) by done.
  assert (x `div` 10 < x)%N as Hlt by (by apply N.div_lt).
  rewrite (IH _ Hlt (String _ s)), (IH _ Hlt (String _ EmptyString)).
  by rewrite append_assoc.
Qed.

Lemma pretty_N_go_digits x s :
  span_digits s = (s, EmptyString) ->
  span_digits (pretty_N_go x s) = (pretty_N_go x s, EmptyString).
Proof.
  revert s. induction (N.lt_wf_0 x) as [x _ IH]; intros s Hs.
  assert (x = 0 \/ 0 < x)%N as [->|Hx] by lia; [done|].
  rewrite pretty_N_go_step by done. apply IH; [by apply N.div_lt|].
  cbn [span_digits].
  destruct (pretty_N_char_digit (x `mod` 10)) as (-> & _); [by apply N.mod_lt|].
  by rewrite Hs.
Qed.

Lemma pretty_N_go_value x : digits_value 0 (pretty_N_go x EmptyString) = x.
Proof.
  induction (N.lt_wf_0 x) as [x _ IH].
  assert (x = 0 \/ 0 < x)%N as [->|Hx] by lia; [done|].
  rewrite pretty_N_go_step, pretty_N_go_app, digits_value_app by done.
  rewrite IH by (by apply N.div_lt). cbn [digits_value].
  destruct (pretty_N_char_digit (x `mod` 10)) as (_ & -> & _); [by apply N.mod_lt|].
  rewrite (N.div_mod x 10) at 3 by done. lia.
Qed.

Lemma pretty_N_go_head x :
  (0 < x)%N ->
  exists c r, pretty_N_go x EmptyString = String c r /\
    is_digit c = true /\ has_code c 48 = false.
Proof.
  induction (N.lt_wf_0 x) as [x _ IH]. intros Hx.
  rewrite pretty_N_go_step by done.
  assert (x < 10 \/ 10 <= x)%N as [Hs|Hl] by lia.
  - rewrite N.div_small, pretty_N_go_0 by done. rewrite N.mod_small by done.
    destruct (pretty_N_char_digit x) as (? & _ & ?); [done|].
    eexists _, _. split; [done|]. split; [done|]. apply H0. lia.
  - rewrite pretty_N_go_app.
    destruct (IH (x `div` 10)%N) as (c & r & -> & ? & ?).
    + by apply N.div_lt.
    + apply N.div_str_pos. lia.
    + rewrite append_cons. by eexists _, _.
Qed.

(** *** The parts of a number, with a value end after them *)

Lemma scan_int_app s i r rest :
  scan_int s = Some (i, r) -> ends_value rest = true ->
  scan_int (s +++ rest) = Some (i, r +++ rest).
Proof.
  destruct s as [|c s]; [done|]. rewrite append_cons. unfold scan_int.
  destruct (has_code c 48); [by intros [= <- <-]|].
  destruct (is_digit c); [|done]. intros [= H] Hend.
  rewrite <- append_cons. by rewrite (span_digits_app (String c s) i r rest H Hend).
Qed.

Lemma scan_int_split s i r : scan_int s = Some (i, r) -> s = i +++ r.
Proof.
  destruct s as [|c s]; [done|]. unfold scan_int.
  destruct (has_code c 48) eqn:H0.
  - intros [= <- <-]. rewrite append_cons, append_nil_l. f_equal.
    apply code_inj. by apply Nat.eqb_eq.
  - destruct (is_digit c); [|done]. intros [= H]. by apply (span_digits_split (String c s)).
Qed.

Lemma scan_frac_app s f r rest :
  scan_frac s = (f, r) -> ends_value rest = true ->
  scan_frac (s +++ rest) = (f, r +++ rest).
Proof.
  intros H Hend. destruct s as [|c [|d s]].
  - injection H as <- <-. rewrite append_nil_l.
    destruct rest as [|c [|d rest]]; try done.
    apply ends_value_head in Hend as (_ & Hc & _). unfold scan_frac. by rewrite Hc.
  - injection H as <- <-. rewrite append_cons, append_nil_l.
    destruct rest as [|d rest]; [done|].
    apply ends_value_head in Hend as (Hd & _). unfold scan_frac. rewrite Hd.
    by rewrite andb_false_r.
  - rewrite !append_cons. unfold scan_frac in *.
    destruct (has_code c 46 && is_digit d); [|by injection H as <- <-].
    destruct (span_digits (String d s)) as [ds r'] eqn:Hs. injection H as <- <-.
    rewrite <- append_cons. by rewrite (span_digits_app _ _ _ _ Hs Hend).
Qed.

Lemma scan_frac_split s f r : scan_frac s = (f, r) -> s = f +++ r.
Proof.
  destruct s as [|c [|d s]]; try by intros [= <- <-].
  unfold scan_frac. destruct (has_code c 46 && is_digit d); [|by intros [= <- <-]].
  destruct (span_digits (String d s)) as [ds r'] eqn:Hs. intros [= <- <-].
  rewrite append_cons. f_equal. by apply span_digits_split.
Qed.

Lemma scan_exp_app s e r rest :
  scan_exp s = (e, r) -> ends_value rest = true ->
  scan_exp (s +++ rest) = (e, r +++ rest).
Proof.
  intros H Hend. destruct s as [|c [|g s]].
  - injection H as <- <-. rewrite append_nil_l.
    destruct rest as [|c [|d rest]]; try done.
    apply ends_value_head in Hend as (_ & _ & H1 & H2 & _). unfold scan_exp.
    by rewrite H1, H2.
  - injection H as <- <-. rewrite append_cons, append_nil_l.
    destruct rest as [|d rest]; [done|].
    apply ends_value_head in Hend as (Hd & _ & _ & _ & H3 & H4). unfold scan_exp.
    rewrite H3, H4, Hd. cbn [orb]. by destruct (has_code c 101 || has_code c 69).
  - rewrite !append_cons. unfold scan_exp in *.
    destruct (has_code c 101 || has_code c 69); [|by injection H as <- <-].
    destruct (has_code g 43 || has_code g 45).
    + destruct s as [|d s].
      * injection H as <- <-. rewrite append_nil_l.
        destruct rest as [|d rest]; [done|].
        apply ends_value_head in Hend as (Hd & _). by rewrite Hd.
      * rewrite append_cons. destruct (is_digit d); [|by injection H as <- <-].
        destruct (span_digits (String d s)) as [ds r'] eqn:Hs. injection H as <- <-.
        rewrite <- append_cons. by rewrite (span_digits_app _ _ _ _ Hs Hend).
    + destruct (is_digit g); [|by injection H as <- <-].
      destruct (span_digits (String g s)) as [ds r'] eqn:Hs. injection H as <- <-.
      rewrite <- append_cons. by rewrite (span_digits_app _ _ _ _ Hs Hend).
Qed.

Lemma scan_exp_split s e r : scan_exp s = (e, r) -> s = e +++ r.
Proof.
  destruct s as [|c [|g s]]; try by intros [= <- <-].
  unfold scan_exp. destruct (has_code c 101 || has_code c 69); [|by intros [= <- <-]].
  destruct (has_code g 43 || has_code g 45).
  - destruct s as [|d s]; [by intros [= <- <-]|].
    destruct (is_digit d); [|by intros [= <- <-]].
    destruct (span_digits (String d s)) as [ds r'] eqn:Hs. intros [= <- <-].
    rewrite !append_cons. do 2 f_equal. by apply span_digits_split.
  - destruct (is_digit g); [|by intros [= <- <-]].
    destruct (span_digits (String g s)) as [ds r'] eqn:Hs. intros [= <- <-].
    rewrite append_cons. f_equal. by apply span_digits_split.
Qed.

Lemma scan_frac_end rest : ends_value rest = true -> scan_frac rest = (EmptyString, rest).
Proof. intros H. by apply (scan_frac_app EmptyString EmptyString EmptyString rest). Qed.

Lemma scan_exp_end rest : ends_value rest = true -> scan_exp rest = (EmptyString, rest).
Proof. intros H. by apply (scan_exp_app EmptyString EmptyString EmptyString rest). Qed.

(** *** Numbers *)

Section Numbers.
Variable float_repr : spec_float -> string.
Variable float_parse : string -> spec_float.

Lemma parse_number_unsigned c r :
  has_code c 45 = false ->
  parse_number float_parse (String c r) =
  match scan_int (String c r) with
  | None => None
  | Some (int, r1) =>
      let '(frac, r2) := scan_frac r1 in
      let '(exp, r3) := scan_exp r2 in
      match frac, exp with
      | EmptyString, EmptyString => Some (VInt (Z.of_N (digits_value 0 int)), r3)
      | _, _ => Some (VFloat (float_parse (EmptyString +++ int +++ frac +++ exp)), r3)
      end
  end.
Proof. intros H. unfold parse_number. by rewrite H. Qed.

Lemma parse_number_signed c r :
  has_code c 45 = true ->
  parse_number float_parse (String c r) =
  match scan_int r with
  | None => None
  | Some (int, r1) =>
      let '(frac, r2) := scan_frac r1 in
      let '(exp, r3) := scan_exp r2 in
      match frac, exp with
      | EmptyString, EmptyString => Some (VInt (- Z.of_N (digits_value 0 int)), r3)
      | _, _ => Some (VFloat (float_parse ("-" +++ int +++ frac +++ exp)), r3)
      end
  end.
Proof. intros H. unfold parse_number. by rewrite H. Qed.

(** The digits of a positive number and a value end. *)
Lemma scan_int_pretty x rest :
  (0 < x)%N -> ends_value rest = true ->
  scan_int (pretty_N_go x EmptyString +++ rest) = Some (pretty_N_go x EmptyString, rest).
Proof.
  intros Hx Hend.
  rewrite (scan_int_app _ (pretty_N_go x EmptyString) EmptyString rest); trivial.
  destruct (pretty_N_go_head x Hx) as (c & r & Ht & Hd & Hz).
  pose proof (pretty_N_go_digits x EmptyString eq_refl) as Hs.
  rewrite Ht in *. unfold scan_int. by rewrite Hz, Hd, Hs.
Qed.

Lemma parse_number_pretty (n : Z) rest :
  ends_value rest = true ->
  parse_number float_parse (pretty n +++ rest) = Some (VInt n, rest).
Proof.
  intros Hend. destruct n as [|p|p].
  - change (pretty 0%Z) with "0". rewrite append_cons, append_nil_l.
    rewrite (parse_number_unsigned "0" rest eq_refl). cbn [scan_int].
    change (has_code "0" 48) with true. cbv iota.
    by rewrite (scan_frac_end _ Hend), (scan_exp_end _ Hend).
  - change (pretty (Z.pos p)) with (pretty_N_go (N.pos p) EmptyString).
    destruct (pretty_N_go_head (N.pos p)) as (c & r & Ht & Hd & Hz); [done|].
    pose proof (scan_int_pretty (N.pos p) rest eq_refl Hend) as Hs.
    rewrite Ht in *. rewrite append_cons in *.
    rewrite parse_number_unsigned by (clear -Hd; codes).
    rewrite Hs, (scan_frac_end _ Hend), (scan_exp_end _ Hend).
    rewrite <- Ht, pretty_N_go_value. done.
  - change (pretty (Z.neg p)) with ("-" +++ pretty_N_go (N.pos p) EmptyString).
    rewrite append_cons, append_nil_l, append_cons.
    rewrite parse_number_signed by (vm_compute; reflexivity).
    rewrite (scan_int_pretty (N.pos p) rest eq_refl Hend).
    rewrite (scan_frac_end _ Hend), (scan_exp_end _ Hend).
    rewrite pretty_N_go_value. done.
Qed.

Lemma pretty_head (n : Z) :
  exists c r, pretty n = String c r /\ (is_digit c || has_code c 45) = true.
Proof.
  destruct n as [|p|p].
  - by exists "0"%char, EmptyString.
  - change (pretty (Z.pos p)) with (pretty_N_go (N.pos p) EmptyString).
    destruct (pretty_N_go_head (N.pos p)) as (c & r & Ht & Hd & Hz); [done|].
    exists c, r. by rewrite Hd.
  - by exists "-"%char, (pretty_N_go (N.pos p) EmptyString).
Qed.

Lemma scan_int_head s i r :
  scan_int s = Some (i, r) -> exists c s', s = String c s' /\ is_digit c = true.
Proof.
  destruct s as [|c s]; [done|]. unfold scan_int. intros H. exists c, s. split; [done|].
  destruct (has_code c 48) eqn:H0; [clear H; codes|]. by destruct (is_digit c).
Qed.

Lemma float_literal_head t :
  float_literal t = true ->
  exists c r, t = String c r /\ (is_digit c || has_code c 45) = true.
Proof.
  unfold float_literal. destruct t as [|c r]; [done|].
  intros H. exists c, r. split; [done|].
  destruct (has_code c 45); [by rewrite orb_true_r|].
  destruct (scan_int (String c r)) as [[i r1]|] eqn:Hi; [|done].
  apply scan_int_head in Hi as (c' & s' & [= <- <-] & ->). done.
Qed.

Lemma is_empty_true s : is_empty s = true -> s = EmptyString.
Proof. by destruct s. Qed.

Lemma parse_number_float t rest :
  float_literal t = true -> ends_value rest = true ->
  parse_number float_parse (t +++ rest) = Some (VFloat (float_parse t), rest).
Proof.
  intros Hlit Hend. unfold float_literal in Hlit.
  destruct t as [|c r]; [done|]. rewrite append_cons.
  destruct (has_code c 45) eqn:Hsign.
  - rewrite parse_number_signed by done.
    destruct (scan_int r) as [[i r1]|] eqn:Hi; [|done].
    destruct (scan_frac r1) as [f r2] eqn:Hf. destruct (scan_exp r2) as [e r3] eqn:He.
    apply andb_true_iff in Hlit as [H3 Hfe]. apply is_empty_true in H3 as ->.
    rewrite (scan_int_app _ _ _ _ Hi Hend), (scan_frac_app _ _ _ _ Hf Hend),
      (scan_exp_app _ _ _ _ He Hend), append_nil_l.
    apply scan_int_split in Hi. apply scan_frac_split in Hf. apply scan_exp_split in He.
    rewrite append_nil_r in He.
    assert (String c r = "-" +++ i +++ f +++ e) as ->.
    { rewrite append_cons, append_nil_l. f_equal; [apply code_inj; by apply Nat.eqb_eq|].
      by rewrite Hi, Hf, He. }
    destruct f, e; done.
  - rewrite parse_number_unsigned by done.
    destruct (scan_int (String c r)) as [[i r1]|] eqn:Hi; [|done].
    destruct (scan_frac r1) as [f r2] eqn:Hf. destruct (scan_exp r2) as [e r3] eqn:He.
    apply andb_true_iff in Hlit as [H3 Hfe]. apply is_empty_true in H3 as ->.
    rewrite <- append_cons.
    rewrite (scan_int_app _ _ _ _ Hi Hend), (scan_frac_app _ _ _ _ Hf Hend),
      (scan_exp_app _ _ _ _ He Hend), append_nil_l.
    apply scan_int_split in Hi. apply scan_frac_split in Hf. apply scan_exp_split in He.
    rewrite append_nil_r in He.
    assert (String c r = EmptyString +++ i +++ f +++ e) as ->.
    { by rewrite append_nil_l, Hi, Hf, He. }
    destruct f, e; done.
Qed.

(** *** Scalars *)

Lemma drop_prefix_number c r :
  (is_digit c || has_code c 45) = true ->
  drop_prefix "null" (String c r) = None /\
  drop_prefix "true" (String c r) = None /\
  drop_prefix "false" (String c r) = None.
Proof.
  intros H. cbn [drop_prefix].
  change (code "n") with 110%nat. change (code "t") with 116%nat.
  change (code "f") with 102%nat.
  assert ((110 =? code c)%nat = false /\ (116 =? code c)%nat = false /\
          (102 =? code c)%nat = false) as (-> & -> & ->); [|done].
  clear -H. codes.
Qed.

Lemma parse_scalar_number t rest v :
  (exists c r, t = String c r /\ (is_digit c || has_code c 45) = true) ->
  parse_number float_parse (t +++ rest) = Some (v, rest) ->
  parse_scalar float_parse (t +++ rest) = Some (v, rest).
Proof.
  intros (c & r & -> & Hc) H. rewrite append_cons in *. unfold parse_scalar.
  destruct (drop_prefix_number c (r +++ rest) Hc) as (-> & -> & ->). by rewrite H.
Qed.

(** The head of a number is none of the characters that open a string,
    a dictionary or a list, and no blank. *)
Lemma number_head c :
  (is_digit c || has_code c 45) = true ->
  is_ws c = false /\ has_code c 34 = false /\ has_code c 123 = false /\ has_code c 91 = false.
Proof. intros H. codes. Qed.

(** *** Values *)

Lemma parse_value_scalar f c s :
  has_code c 34 = false -> has_code c 123 = false -> has_code c 91 = false ->
  parse_value float_parse (S f) (String c s) =
  match parse_scalar float_parse (String c s) with
  | Some (v, rest) => Some (JVal v, rest)
  | None => None
  end.
Proof. intros H1 H2 H3. cbn [parse_value]. by rewrite H1, H2, H3. Qed.

Lemma fuel_pos (fuel : nat) s : (String.length s < fuel)%nat -> exists f, fuel = S f.
Proof. destruct fuel as [|f]; [lia|]. by exists f. Qed.

Lemma number_round_trips level v t :
  dumps_at float_repr level (JVal v) = Some t ->
  (exists c r, t = String c r /\ (is_digit c || has_code c 45) = true) ->
  (forall rest, ends_value rest = true ->
     parse_number float_parse (t +++ rest) = Some (v, rest)) ->
  round_trips float_repr float_parse level (JVal v).
Proof.
  intros Hd Hhead Hnum. pose proof Hhead as (c & r & -> & Hc).
  destruct (number_head c Hc) as (Hws & H1 & H2 & H3).
  exists c, r. split; [done|]. split; [done|].
  intros fuel rest Hlen Hend. destruct (fuel_pos _ _ Hlen) as [f ->].
  rewrite append_cons, parse_value_scalar by done. rewrite <- append_cons.
  by rewrite (parse_scalar_number _ rest v Hhead (Hnum rest Hend)).
Qed.

(** A scalar that reads back is read as itself at every level. *)
Lemma scalar_round_trips level v :
  reads_back float_repr float_parse v ->
  round_trips float_repr float_parse level (JVal v).
Proof.
  destruct v as [| b | n | x | s | t]; cbn [reads_back]; intros Hv.
  - exists "n"%char, "ull". split; [done|]. split; [done|].
    intros fuel rest Hlen _. by destruct (fuel_pos _ _ Hlen) as [f ->].
  - destruct b.
    + exists "t"%char, "rue". split; [done|]. split; [done|].
      intros fuel rest Hlen _. by destruct (fuel_pos _ _ Hlen) as [f ->].
    + exists "f"%char, "alse". split; [done|]. split; [done|].
      intros fuel rest Hlen _. by destruct (fuel_pos _ _ Hlen) as [f ->].
  - apply (number_round_trips level (VInt n) (pretty n)); [done|apply pretty_head|].
    apply parse_number_pretty.
  - destruct x as [sg | sg | | sg m e]; try done.
    + destruct Hv as [Hlit Hback].
      apply (number_round_trips level _ (float_repr (S754_zero sg))); [done| |].
      * by apply float_literal_head.
      * intros rest Hend. by rewrite (parse_number_float _ rest Hlit Hend), Hback.
    + destruct sg.
      * exists "-"%char, "Infinity". split; [done|]. split; [done|].
        intros fuel rest Hlen _. by destruct (fuel_pos _ _ Hlen) as [f ->].
      * exists "I"%char, "nfinity". split; [done|]. split; [done|].
        intros fuel rest Hlen _. by destruct (fuel_pos _ _ Hlen) as [f ->].
    + destruct Hv as [Hlit Hback].
      apply (number_round_trips level _ (float_repr (S754_finite sg m e))); [done| |].
      * by apply float_literal_head.
      * intros rest Hend. by rewrite (parse_number_float _ rest Hlit Hend), Hback.
  - exists dq, (escape s +++ String dq EmptyString). split; [done|]. split; [done|].
    intros fuel rest Hlen _. destruct (fuel_pos _ _ Hlen) as [f ->].
    rewrite append_cons, append_assoc, append_cons, append_nil_l.
    cbn [parse_value]. change (has_code dq 34) with true. cbv iota.
    by rewrite parse_string_escape.
  - done.
Qed.

(** *** Dictionaries *)

Ltac lens H :=
  repeat first [rewrite append_length in H | progress cbn [String.length] in H];
  repeat first [rewrite append_length | progress cbn [String.length]];
  lia.

Lemma dict_set_new_key (acc : list (string * json)) k v :
  k ∉ acc.*1 -> dict_set String.eqb acc k v = acc ++ [(k, v)].
Proof.
  induction acc as [|[k' v'] acc IH]; [done|]. cbn [fmap list_fmap fst dict_set app].
  intros Hk. apply not_elem_of_cons in Hk as [Hne Hk].
  destruct (String.eqb_spec k' k) as [->|_]; [done|]. by rewrite (IH Hk).
Qed.

(** One member: its key, the colon, its value, and then the closing
    brace or a comma and the next key. *)
Lemma parse_members_step f k c r acc :
  is_ws c = false ->
  parse_members float_parse (S f)
    (escape k +++ String dq (String ":" (String " " (String c r)))) acc =
  match parse_value float_parse f (String c r) with
  | None => None
  | Some (v, r2) =>
      match skip_ws r2 with
      | String c2 r3 =>
          if has_code c2 125 then Some (JObj (dict_set String.eqb acc k v), r3)
          else if has_code c2 44 then
            match skip_ws r3 with
            | String c3 r4 =>
                if has_code c3 34
                then parse_members float_parse f r4 (dict_set String.eqb acc k v)
                else None
            | EmptyString => None
            end
          else None
      | EmptyString => None
      end
  end.
Proof.
  intros Hws. cbn [parse_members]. rewrite parse_string_escape.
  rewrite (skip_ws_stop ":") by done. change (has_code ":" 58) with true. cbv iota.
  change (skip_ws (String " " (String c r))) with (skip_ws (String c r)).
  by rewrite (skip_ws_stop c r Hws).
Qed.

Lemma closing_brace level tail :
  ends_value (newline_indent level +++ String "}" tail) = true /\
  skip_ws (newline_indent level +++ String "}" tail) = String "}" tail.
Proof. split; [done|]. by rewrite skip_ws_newline_indent. Qed.

Lemma members_round_trip level items :
  items <> [] -> NoDup items.*1 ->
  Forall (fun kv => round_trips float_repr float_parse (S level) kv.2) items ->
  exists body,
    dumps_items (dumps_at float_repr (S level)) (newline_indent (S level)) items
      = Some (String dq body) /\
    forall fuel acc tail,
      (String.length (body +++ newline_indent level +++ String "}" tail) < fuel)%nat ->
      (forall k, k ∈ items.*1 -> k ∉ acc.*1) ->
      parse_members float_parse fuel (body +++ newline_indent level +++ String "}" tail) acc
        = Some (JObj (acc ++ items), tail).
Proof.
  induction items as [|[k v] items IH]; [done|]. intros _ Hnd Hall.
  apply Forall_cons in Hall as [(c & tv & Hd & Hws & Hp) Hall].
  apply NoDup_cons in Hnd as [Hk Hnd]. cbn [snd] in *.
  destruct items as [|item items].
  - exists (escape k +++ String dq (String ":" (String " " (String c tv)))).
    split.
    { cbn [dumps_items]. rewrite Hd. unfold quote.
      by rewrite !append_cons, !append_assoc, !append_cons, !append_nil_l. }
    intros fuel acc tail Hlen Hacc. destruct (fuel_pos _ _ Hlen) as [f ->].
    destruct (closing_brace level tail) as [Hend Hskip].
    rewrite append_assoc, !append_cons in *.
    rewrite parse_members_step by done.
    rewrite <- append_cons, Hp; trivial.
    + rewrite Hskip. change (has_code "}" 125) with true. cbv iota.
      rewrite dict_set_new_key; [done|]. apply Hacc. by left.
    + lens Hlen.
  - destruct (IH ltac:(done) Hnd Hall) as (tr & Hdr & Hpr).
    exists (escape k +++ String dq (String ":" (String " " (String c
              (tv +++ String "," (newline_indent (S level) +++ String dq tr)))))).
    split.
    { change (dumps_items ?d ?sep ((k, v) :: item :: items)) with
        (match d v with
         | None => None
         | Some tv =>
             match dumps_items d sep (item :: items) with
             | None => None
             | Some tr => Some (quote k +++ ": " +++ tv +++ "," +++ sep +++ tr)
             end
         end).
      rewrite Hd, Hdr. unfold quote.
      by rewrite !append_cons, !append_assoc, !append_cons, !append_nil_l. }
    intros fuel acc tail Hlen Hacc. destruct (fuel_pos _ _ Hlen) as [f ->].
    rewrite append_assoc, !append_cons, append_assoc, append_cons, append_assoc,
      append_cons in *.
    rewrite parse_members_step by done.
    rewrite <- append_cons, Hp; [|..].
    + rewrite (skip_ws_stop ",") by done.
      change (has_code "," 125) with false. change (has_code "," 44) with true. cbv iota.
      rewrite skip_ws_newline_indent, (skip_ws_stop dq) by done.
      change (has_code dq 34) with true. cbv iota.
      rewrite dict_set_new_key by (apply Hacc; by left).
      rewrite Hpr.
      * by rewrite <- app_assoc.
      * lens Hlen.
      * intros k' Hk'. rewrite fmap_app. cbn [fmap list_fmap fst].
        intros Hin. apply elem_of_app in Hin as [Hin|Hin].
        -- revert Hin. apply Hacc. by right.
        -- apply list_elem_of_singleton in Hin as ->. done.
    + lens Hlen.
    + done.
Qed.

(** A dictionary whose names are distinct and whose values are read
    back is read back. *)
Lemma object_round_trips level items :
  NoDup items.*1 ->
  Forall (fun kv => round_trips float_repr float_parse (S level) kv.2) items ->
  round_trips float_repr float_parse level (JObj items).
Proof.
  intros Hnd Hall. destruct items as [|item items].
  - exists "{"%char, "}". split; [done|]. split; [done|].
    intros fuel rest Hlen _. by destruct (fuel_pos _ _ Hlen) as [f ->].
  - destruct (members_round_trip level (item :: items) ltac:(done) Hnd Hall)
      as (body & Hd & Hp).
    exists "{"%char, (newline_indent (S level) +++ String dq body +++ newline_indent level +++ "}").
    split.
    { cbn [dumps_at]. rewrite Hd. by rewrite !append_cons, !append_nil_l. }
    split; [done|].
    intros fuel rest Hlen _. destruct (fuel_pos _ _ Hlen) as [f ->].
    repeat first [rewrite append_assoc | rewrite append_cons | rewrite append_nil_l].
    cbn [parse_value]. change (has_code "{" 34) with false.
    change (has_code "{" 123) with true. cbv iota.
    rewrite skip_ws_newline_indent, (skip_ws_stop dq) by done.
    change (has_code dq 125) with false. change (has_code dq 34) with true. cbv iota.
    rewrite Hp; [done| |].
    + clear -Hlen. lens Hlen.
    + intros k _. cbn. apply not_elem_of_nil.
Qed.

(** *** Documents *)

Lemma parameters_round_trip level parameters :
  saveable float_repr float_parse parameters ->
  round_trips float_repr float_parse level
    (JObj (map (fun kv => (kv.1, JVal kv.2)) parameters)).
Proof.
  intros [Hnd Hall]. apply object_round_trips.
  - replace ((map (fun kv => (kv.1, JVal kv.2)) parameters).*1) with (map fst parameters);
      [done|].
    clear. induction parameters as [|[k v] ps IH]; [done|]. cbn. by f_equal.
  - apply Forall_forall. intros [k j] Hin.
    change (map ?f ?l) with (f <$> l) in Hin.
    apply list_elem_of_fmap in Hin as ([k' v] & [= -> ->] & Hin).
    apply scalar_round_trips. by apply (Hall k' v).
Qed.

Lemma loads_dumps j :
  round_trips float_repr float_parse 0 j ->
  exists text, dumps float_repr j = Some text /\ loads float_parse text = Some j.
Proof.
  intros (c & t & Hd & Hws & Hp). exists (String c t). split; [done|].
  unfold loads. rewrite (skip_ws_stop c t Hws).
  specialize (Hp (S (String.length (String c t))) EmptyString).
  rewrite append_nil_r in Hp. rewrite Hp; [done|lia|done].
Qed.

(** The document of a preset is written, and read back as written. *)
Lemma preset_data_round_trip pm now preset_name parameters :
  saveable float_repr float_parse parameters ->
  exists text,
    dumps float_repr (preset_data pm now preset_name parameters) = Some text /\
    loads float_parse text = Some (preset_data pm now preset_name parameters).
Proof.
  intros Hs. apply loads_dumps, object_round_trips.
  - by apply (bool_decide_unpack _).
  - repeat apply Forall_cons_2; try (by apply scalar_round_trips); [|done].
    by apply parameters_round_trip.
Qed.


End Numbers.

Lemma sample_values_saveable : saveable no_repr no_parse sample_values.
Proof.
  split; [by apply (bool_decide_unpack _)|]. intros k v Hin. unfold sample_values in Hin.
  repeat (apply elem_of_cons in Hin as [[= -> ->]|Hin];
          [cbn [reads_back]; first [exact I|by split|by vm_compute]|]).
  by apply elem_of_nil in Hin.
Qed.





End PresetsFacts.

(** ** Parameter store: invariants, frames, edges *)

Module StoreExtra.
Import Store StoreFacts.

Lemma pop_Some_inv {A} (l : list A) x r : pop l = Some (x, r) -> l = r ++ [x].
Proof.
  unfold pop. destruct (rev l) as [|y t] eqn:Hr; [done|].
  intros [= -> <-]. rewrite <- (rev_involutive l), Hr. reflexivity.
Qed.

Lemma pop_None_inv {A} (l : list A) : pop l = None -> l = [].
Proof.
  unfold pop. destruct (rev l) as [|y t] eqn:Hr; [|done].
  intros _. rewrite <- (rev_involutive l), Hr. reflexivity.
Qed.

(** What one assignment does to the two maps. *)
Lemma assign_inv st name value st1 :
  assign st name value = Ok st1 ->
  exists pd,
    parameters st !! name = Some pd /\
    parameters st1 = <[name := <["value" := value]> pd]> (parameters st) /\
    current_values st1 = <[name := value]> (current_values st) /\
    undo_stack st1 = undo_stack st /\
    redo_stack st1 = redo_stack st.
Proof.
  unfold assign. destruct (parameters st !! name) as [pd|]; [|done].
  intros [= <-]. by exists pd.
Qed.

Lemma assign_synced st name value st1 :
  assign st name value = Ok st1 -> synced st -> synced st1.
Proof.
  intros Ha Hs. apply assign_inv in Ha as (pd & Hp & Hp1 & Hc1 & _ & _).
  intros n v. rewrite Hc1, Hp1.
  destruct (decide (name = n)) as [->|Hne].
  - rewrite !lookup_insert_eq. intros [= ->]. eexists. split; [done|].
    apply lookup_insert_eq.
  - rewrite !lookup_insert_ne by done. apply Hs.
Qed.

Lemma assign_known st name value st1 k :
  assign st name value = Ok st1 ->
  is_Some (parameters st !! k) -> is_Some (parameters st1 !! k).
Proof.
  intros Ha Hk. apply assign_inv in Ha as (pd & Hp & Hp1 & _).
  rewrite Hp1. apply lookup_insert_is_Some'. by right.
Qed.

Lemma apply_all_keeps results : forall updates st changes0 st' changes,
  apply_all st updates results changes0 = Ok (st', changes) ->
  (synced st -> synced st') /\
  (forall k, is_Some (parameters st !! k) -> is_Some (parameters st' !! k)) /\
  undo_stack st' = undo_stack st /\
  redo_stack st' = redo_stack st /\
  ((forall c, c ∈ changes0 -> is_Some (parameters st !! param_name c)) ->
   forall c, c ∈ changes -> is_Some (parameters st' !! param_name c)).
Proof.
  induction updates as [|[name value] rest IH]; intros st changes0 st' changes H.
  - simpl in H. injection H as <- <-. by repeat split.
  - simpl in H. destruct (results !! name) as [[]|]; [| |done].
    + destruct (current_values st !! name) as [old|]; [|done].
      destruct (assign st name value) as [st1|] eqn:Ha; [|done]. simpl in H.
      apply IH in H as (Hs & Hk & Hu & Hr & Hc).
      pose proof (assign_inv _ _ _ _ Ha) as (pd & Hp & Hp1 & Hc1 & Hu1 & Hr1).
      split; [|split; [|split; [|split]]].
      * intros Hsy. apply Hs. intros n v. simpl. by apply (assign_synced st name value st1).
      * intros k Hks. apply Hk. simpl. by apply (assign_known st name value).
      * simpl in Hu. congruence.
      * simpl in Hr. congruence.
      * intros H0. apply Hc. intros c Hin. simpl.
        apply elem_of_app in Hin as [Hin|Hin].
        -- apply (assign_known st name value); [done|]. by apply H0.
        -- apply list_elem_of_singleton in Hin as ->. simpl.
           rewrite Hp1. rewrite lookup_insert_eq. eauto.
    + by apply IH in H.
Qed.

Lemma replay_keeps forward : forall changes st st',
  replay forward st changes = Ok st' ->
  (synced st -> synced st') /\
  (forall k, is_Some (parameters st !! k) -> is_Some (parameters st' !! k)) /\
  undo_stack st' = undo_stack st /\
  redo_stack st' = redo_stack st.
Proof.
  induction changes as [|c rest IH]; intros st st' H.
  - simpl in H. injection H as <-. by repeat split.
  - simpl in H.
    destruct (assign st (param_name c) (if forward then new_value c else old_value c))
      as [st1|] eqn:Ha; [|done]. simpl in H.
    apply IH in H as (Hs & Hk & Hu & Hr).
    pose proof (assign_inv _ _ _ _ Ha) as (pd & Hp & Hp1 & Hc1 & Hu1 & Hr1).
    split; [|split; [|split]].
    + intros Hsy. apply Hs. intros n v. simpl. by apply (assign_synced _ _ _ _ Ha).
    + intros k Hks. apply Hk. simpl. by apply (assign_known _ _ _ _ _ Ha).
    + simpl in Hu. congruence.
    + simpl in Hr. congruence.
Qed.

(** With every name known, the loop of [undo] and [redo] does not raise. *)
Lemma replay_total forward : forall changes st,
  (forall c, c ∈ changes -> is_Some (parameters st !! param_name c)) ->
  exists st',
    replay forward st changes = Ok st' /\
    current_values st' = replay_values forward (current_values st) changes.
Proof.
  induction changes as [|c rest IH]; intros st Hk.
  - exists st. by split.
  - destruct (Hk c) as [pd Hp]; [apply list_elem_of_here|].
    simpl. unfold assign. rewrite Hp. simpl.
    match goal with |- context [replay forward ?s rest] => destruct (IH s) as (st' & Hr & Hc) end.
    { intros c' Hc'. simpl. apply lookup_insert_is_Some'. right.
      by apply Hk, list_elem_of_further. }
    exists st'. split; [done|]. rewrite Hc. reflexivity.
Qed.

Lemma set_parameter_false_inv st name value st' :
  set_parameter st name value = Ok (false, st') -> st' = st.
Proof.
  unfold set_parameter. intros H.
  destruct (current_values st !! name); [|congruence].
  destruct (py_eq p value); [congruence|].
  destruct (_validate_type st name value); simpl in H; [|congruence].
  destruct (_validate_bounds st name value) as [[]|]; simpl in H; try congruence.
  destruct (assign st name value); simpl in H; congruence.
Qed.

Lemma batch_inv st updates results st' :
  set_parameters_batch st updates = Ok (results, st') ->
  exists st1 changes,
    apply_all st updates results [] = Ok (st1, changes) /\
    parameters st' = parameters st1 /\
    current_values st' = current_values st1 /\
    (changes = [] /\ undo_stack st' = undo_stack st1 /\ redo_stack st' = redo_stack st1 \/
     changes <> [] /\ undo_stack st' = undo_stack st1 ++ [changes] /\ redo_stack st' = []).
Proof.
  unfold set_parameters_batch. intros H.
  destruct (validate_all st updates ∅) as [res|]; [|done]. simpl in H.
  destruct (apply_all st updates res []) as [[st1 changes]|] eqn:Ha; [|done]. simpl in H.
  destruct changes as [|c cs]; injection H as <- <-.
  - exists st1, []. split; [done|]. split; [done|]. split; [done|]. by left.
  - exists st1, (c :: cs). split; [done|]. split; [done|]. split; [done|]. by right.
Qed.

Lemma undo_inv st b st' :
  undo st = Ok (b, st') ->
  b = false /\ st' = st /\ undo_stack st = [] \/
  exists changes remaining st1,
    b = true /\
    undo_stack st = remaining ++ [changes] /\
    replay false
      {| parameters := parameters st; current_values := current_values st;
         undo_stack := remaining; redo_stack := redo_stack st;
         is_modified := is_modified st; events := events st |} changes = Ok st1 /\
    parameters st' = parameters st1 /\
    current_values st' = current_values st1 /\
    undo_stack st' = undo_stack st1 /\
    redo_stack st' = redo_stack st1 ++ [changes].
Proof.
  unfold undo. intros H.
  destruct (pop (undo_stack st)) as [[changes remaining]|] eqn:Hp.
  - apply pop_Some_inv in Hp.
    match type of H with context [replay false ?s changes] =>
      destruct (replay false s changes) as [st1|] eqn:Hr end; [|done].
    simpl in H. injection H as <- <-. right.
    exists changes, remaining, st1. by repeat split.
  - apply pop_None_inv in Hp. injection H as <- <-. by left.
Qed.

Lemma redo_inv st b st' :
  redo st = Ok (b, st') ->
  b = false /\ st' = st /\ redo_stack st = [] \/
  exists changes remaining st1,
    b = true /\
    redo_stack st = remaining ++ [changes] /\
    replay true
      {| parameters := parameters st; current_values := current_values st;
         undo_stack := undo_stack st; redo_stack := remaining;
         is_modified := is_modified st; events := events st |} changes = Ok st1 /\
    parameters st' = parameters st1 /\
    current_values st' = current_values st1 /\
    undo_stack st' = undo_stack st1 ++ [changes] /\
    redo_stack st' = redo_stack st1.
Proof.
  unfold redo. intros H.
  destruct (pop (redo_stack st)) as [[changes remaining]|] eqn:Hp.
  - apply pop_Some_inv in Hp.
    match type of H with context [replay true ?s changes] =>
      destruct (replay true s changes) as [st1|] eqn:Hr end; [|done].
    simpl in H. injection H as <- <-. right.
    exists changes, remaining, st1. by repeat split.
  - apply pop_None_inv in Hp. injection H as <- <-. by left.
Qed.

Lemma known_insert (m : gmap string (gmap string pyval)) n pd k :
  is_Some (m !! k) -> is_Some (<[n := pd]> m !! k).
Proof. intros H. apply lookup_insert_is_Some'. by right. Qed.

(** X1.  On every store built by [__init__] and driven through
    [set_parameter], [set_parameters_batch], [undo], [redo] and
    [clear_history], each current value is the ["value"] field of the
    spec of the same name. *)
Theorem reachable_synced st : reachable st -> synced st.
Proof.
  induction 1 as [params|st name value b st' Hr IH Hs|st updates results st' Hr IH Hb
                 |st b st' Hr IH Hu|st b st' Hr IH Hd|st Hr IH].
  - intros n v. simpl. rewrite lookup_omap.
    destruct (params !! n) as [pd|]; simpl; [|done]. eauto.
  - destruct b.
    + apply set_parameter_true_inv in Hs as (old & pd & Hc & Hp & He & ->).
      intros n v. simpl.
      destruct (decide (name = n)) as [->|Hne].
      * rewrite !lookup_insert_eq. intros [= ->]. eexists. split; [done|].
        apply lookup_insert_eq.
      * rewrite !lookup_insert_ne by done. apply IH.
    + by apply set_parameter_false_inv in Hs as ->.
  - apply batch_inv in Hb as (st1 & changes & Ha & Hp & Hc & _).
    apply apply_all_keeps in Ha as (Hs & _).
    intros n v. rewrite Hp, Hc. by apply Hs.
  - apply undo_inv in Hu as [(_ & -> & _)|(changes & remaining & st1 & _ & _ & Hrp & Hp & Hc & _)];
      [done|].
    apply replay_keeps in Hrp as (Hs & _).
    intros n v. rewrite Hp, Hc. by apply Hs.
  - apply redo_inv in Hd as [(_ & -> & _)|(changes & remaining & st1 & _ & _ & Hrp & Hp & Hc & _)];
      [done|].
    apply replay_keeps in Hrp as (Hs & _).
    intros n v. rewrite Hp, Hc. by apply Hs.
  - exact IH.
Qed.

Lemma sample_after_set_reachable :
  reachable (after_set sample "amplitude" (sample_parameters !!! "amplitude")
                       (VFloat f1_0) (VFloat f2_5)).
Proof.
  apply (reach_set sample "amplitude" (VFloat f2_5) true); [apply reach_init|].
  vm_compute. reflexivity.
Qed.

Lemma reachable_synced_witness :
  synced (after_set sample "amplitude" (sample_parameters !!! "amplitude")
                    (VFloat f1_0) (VFloat f2_5)).
Proof. apply reachable_synced. apply sample_after_set_reachable. Defined.

Lemma reachable_stacks_known st : reachable st -> stacks_known st.
Proof.
  induction 1 as [params|st name value b st' Hr IH Hs|st updates results st' Hr IH Hb
                 |st b st' Hr IH Hu|st b st' Hr IH Hd|st Hr IH].
  - intros batch c [H|H]; simpl in H; by apply elem_of_nil in H.
  - destruct b.
    + apply set_parameter_true_inv in Hs as (old & pd & Hc & Hp & He & ->).
      intros batch c [H|H] Hin; simpl in *; [|by apply elem_of_nil in H].
      apply elem_of_app in H as [H|H].
      * apply known_insert. by eapply IH; eauto.
      * apply list_elem_of_singleton in H as ->.
        apply list_elem_of_singleton in Hin as ->. simpl.
        rewrite lookup_insert_eq. eauto.
    + by apply set_parameter_false_inv in Hs as ->.
  - apply batch_inv in Hb as (st1 & changes & Ha & Hp & Hc & Hst).
    apply apply_all_keeps in Ha as (_ & Hk & Hu1 & Hr1 & Hch).
    assert (Hold : forall batch c, batch ∈ undo_stack st1 \/ batch ∈ redo_stack st1 ->
                                   c ∈ batch -> is_Some (parameters st' !! param_name c)).
    { intros batch c Hb Hin. rewrite Hp. apply Hk. rewrite Hu1, Hr1 in Hb. by eapply IH; eauto. }
    assert (Hnew : forall c, c ∈ changes -> is_Some (parameters st' !! param_name c)).
    { intros c Hin. rewrite Hp. apply Hch; [|done]. intros c' Hc'. by apply elem_of_nil in Hc'. }
    intros batch c Hb Hin.
    destruct Hst as [(_ & Hu & Hrd)|(_ & Hu & Hrd)]; rewrite Hu, Hrd in Hb.
    + by eapply Hold; eauto.
    + destruct Hb as [Hb|Hb]; [|by apply elem_of_nil in Hb].
      apply elem_of_app in Hb as [Hb|Hb]; [by eapply Hold; eauto|].
      apply list_elem_of_singleton in Hb as ->. by apply Hnew.
  - apply undo_inv in Hu as [(_ & -> & _)|(changes & remaining & st1 & _ & Hst & Hrp & Hp & Hc & Hu1 & Hr1)];
      [done|].
    apply replay_keeps in Hrp as (_ & Hk & Hu2 & Hr2). simpl in *.
    intros batch c Hb Hin. rewrite Hp. apply Hk. simpl.
    apply (IH batch c); [|done].
    rewrite Hu1, Hr1, Hu2, Hr2 in Hb. rewrite Hst.
    destruct Hb as [Hb|Hb].
    + left. apply elem_of_app. by left.
    + apply elem_of_app in Hb as [Hb|Hb]; [by right|].
      left. apply elem_of_app. by right.
  - apply redo_inv in Hd as [(_ & -> & _)|(changes & remaining & st1 & _ & Hst & Hrp & Hp & Hc & Hu1 & Hr1)];
      [done|].
    apply replay_keeps in Hrp as (_ & Hk & Hu2 & Hr2). simpl in *.
    intros batch c Hb Hin. rewrite Hp. apply Hk. simpl.
    apply (IH batch c); [|done].
    rewrite Hu1, Hr1, Hu2, Hr2 in Hb. rewrite Hst.
    destruct Hb as [Hb|Hb].
    + apply elem_of_app in Hb as [Hb|Hb]; [by left|].
      right. apply elem_of_app. by right.
    + right. apply elem_of_app. by left.
  - intros batch c [H|H]; simpl in H; by apply elem_of_nil in H.
Qed.

(** X2.  On every such store [undo] and [redo] return without raising,
    and what they return is [can_undo()], respectively [can_redo()]. *)
Theorem undo_redo_never_raise st :
  reachable st ->
  (exists st', undo st = Ok (can_undo st, st')) /\
  (exists st', redo st = Ok (can_redo st, st')).
Proof.
  intros Hr. pose proof (reachable_stacks_known st Hr) as Hk. split.
  - unfold undo, can_undo.
    destruct (pop (undo_stack st)) as [[changes remaining]|] eqn:Hp.
    + apply pop_Some_inv in Hp.
      match goal with |- context [replay false ?s changes] =>
        destruct (replay_total false changes s) as (st1 & Hrp & _) end.
      { intros c Hc. simpl. apply (Hk changes c); [|done].
        left. rewrite Hp. apply elem_of_app. right. apply list_elem_of_here. }
      rewrite Hrp. simpl. rewrite Hp, length_app. simpl.
      replace (length remaining + 1 =? 0)%nat with false
        by (symmetry; apply Nat.eqb_neq; lia).
      eauto.
    + apply pop_None_inv in Hp. rewrite Hp. simpl. eauto.
  - unfold redo, can_redo.
    destruct (pop (redo_stack st)) as [[changes remaining]|] eqn:Hp.
    + apply pop_Some_inv in Hp.
      match goal with |- context [replay true ?s changes] =>
        destruct (replay_total true changes s) as (st1 & Hrp & _) end.
      { intros c Hc. simpl. apply (Hk changes c); [|done].
        right. rewrite Hp. apply elem_of_app. right. apply list_elem_of_here. }
      rewrite Hrp. simpl. rewrite Hp, length_app. simpl.
      replace (length remaining + 1 =? 0)%nat with false
        by (symmetry; apply Nat.eqb_neq; lia).
      eauto.
    + apply pop_None_inv in Hp. rewrite Hp. simpl. eauto.
Qed.

Lemma undo_redo_never_raise_witness :
  let st := after_set sample "amplitude" (sample_parameters !!! "amplitude")
                      (VFloat f1_0) (VFloat f2_5) in
  (exists st', undo st = Ok (can_undo st, st')) /\
  (exists st', redo st = Ok (can_redo st, st')).
Proof. apply undo_redo_never_raise. apply sample_after_set_reachable. Defined.

(** *** What a successful call leaves alone *)

(** X3.  A successful [set_parameter] touches one parameter only: every
    other current value and spec is as before, the spec of the
    parameter itself differs in its ["value"] field alone, the set of
    names is the same, and every later check of a name and value gives
    the verdict it gave before. *)
Theorem set_parameter_frame st name value st' :
  set_parameter st name value = Ok (true, st') ->
  (forall other, other <> name ->
     current_values st' !! other = current_values st !! other /\
     parameters st' !! other = parameters st !! other) /\
  (exists pd, parameters st !! name = Some pd /\
              parameters st' !! name = Some (<["value" := value]> pd)) /\
  dom (current_values st') = dom (current_values st) /\
  (forall n v, validate_entry st' n v = validate_entry st n v).
Proof.
  intros H. apply set_parameter_true_inv in H as (old & pd & Hc & Hp & He & ->).
  split; [|split; [|split]].
  - intros other Hne. simpl. by rewrite !lookup_insert_ne.
  - exists pd. split; [done|]. simpl. apply lookup_insert_eq.
  - simpl. apply dom_insert_lookup_L. eauto.
  - intros n v. unfold validate_entry, _validate_type, _validate_bounds. simpl.
    destruct (decide (name = n)) as [->|Hne].
    + rewrite !lookup_insert_eq, Hc, Hp. simpl.
      by rewrite !lookup_insert_ne.
    + by rewrite !lookup_insert_ne.
Qed.

Lemma set_parameter_frame_witness :
  exists st',
    set_parameter sample "amplitude" (VFloat f2_5) = Ok (true, st') /\
    current_values st' !! "damping" = current_values sample !! "damping" /\
    validate_entry st' "amplitude" (VInt 11) = validate_entry sample "amplitude" (VInt 11).
Proof.
  eexists. split; [vm_compute; reflexivity|].
  match goal with |- context [current_values ?s !! "damping"] =>
    destruct (set_parameter_frame sample "amplitude" (VFloat f2_5) s) as (Ho & _ & _ & Hv)
  end.
  - vm_compute. reflexivity.
  - split; [by apply Ho|apply Hv].
Defined.

(** *** Undoing a batch *)

Lemma replay_values_notin forward k : forall changes m,
  k ∉ map param_name changes -> replay_values forward m changes !! k = m !! k.
Proof.
  induction changes as [|c rest IH]; intros m Hk; [done|].
  simpl in Hk. apply not_elem_of_cons in Hk as [Hne Hk].
  change (replay_values forward m (c :: rest))
    with (replay_values forward (<[param_name c := target_of forward c]> m) rest).
  rewrite IH by done. by rewrite lookup_insert_ne.
Qed.

Lemma replay_values_in forward c : forall changes m,
  NoDup (map param_name changes) -> c ∈ changes ->
  replay_values forward m changes !! param_name c = Some (target_of forward c).
Proof.
  induction changes as [|c' rest IH]; intros m Hnd Hin.
  - by apply elem_of_nil in Hin.
  - simpl in Hnd. apply NoDup_cons in Hnd as [Hnotin Hnd].
    apply elem_of_cons in Hin as [->|Hin].
    + change (replay_values forward m (c' :: rest))
        with (replay_values forward (<[param_name c' := target_of forward c']> m) rest).
      rewrite replay_values_notin by done. apply lookup_insert_eq.
    + change (replay_values forward m (c' :: rest))
        with (replay_values forward (<[param_name c' := target_of forward c']> m) rest).
      by apply IH.
Qed.

Lemma applied_keys_NoDup st updates : NoDup updates.*1 -> NoDup (applied st updates).*1.
Proof.
  unfold applied. induction updates as [|e l IH]; simpl; [done|].
  intros Hnd. apply NoDup_cons in Hnd as [Hnotin Hnd].
  destruct (entry_passes st e); simpl; [|by apply IH].
  apply NoDup_cons. split; [|by apply IH].
  intros Hin. by apply filter_keys_subset in Hin.
Qed.

Lemma changes_names st (l : list (string * pyval)) :
  map param_name (map (change_of st) l) = l.*1.
Proof. induction l as [|e l IH]; simpl; [done|]. by rewrite IH. Qed.

Lemma replay_forward_values st : forall (l : list (string * pyval)) m,
  replay_values true m (map (change_of st) l) = foldl apply_entry m l.
Proof.
  induction l as [|e l IH]; intros m; [done|].
  unfold replay_values in *. simpl. by rewrite IH.
Qed.

Lemma applied_known st updates e :
  e ∈ applied st updates ->
  is_Some (current_values st !! e.1) /\ is_Some (parameters st !! e.1).
Proof.
  unfold applied. intros H. apply list_elem_of_In, filter_In in H as [_ Hp].
  unfold entry_passes in Hp.
  apply andb_prop in Hp as [Hp _]. apply andb_prop in Hp as [Hc Ht].
  split; [by apply bool_decide_eq_true_1 in Hc|].
  unfold _validate_type in Ht. destruct (parameters st !! e.1); [eauto|done].
Qed.

(** [undo] and [redo] on a stack whose top batch names known parameters. *)
Lemma undo_top s rest changes :
  undo_stack s = rest ++ [changes] ->
  (forall c, c ∈ changes -> is_Some (parameters s !! param_name c)) ->
  exists s',
    undo s = Ok (true, s') /\
    current_values s' = replay_values false (current_values s) changes /\
    undo_stack s' = rest /\
    redo_stack s' = redo_stack s ++ [changes] /\
    (forall k, is_Some (parameters s !! k) -> is_Some (parameters s' !! k)).
Proof.
  intros Hu Hk. unfold undo. rewrite Hu, pop_snoc.
  match goal with |- context [replay false ?s0 changes] =>
    destruct (replay_total false changes s0 Hk) as (s1 & Hr & Hc);
    destruct (replay_keeps false changes s0 s1 Hr) as (_ & Hm & Hu1 & Hr1)
  end.
  rewrite Hr. simpl. eexists. split; [reflexivity|]. simpl in *.
  rewrite Hc, Hu1, Hr1. by repeat split.
Qed.

Lemma redo_top s rest changes :
  redo_stack s = rest ++ [changes] ->
  (forall c, c ∈ changes -> is_Some (parameters s !! param_name c)) ->
  exists s',
    redo s = Ok (true, s') /\
    current_values s' = replay_values true (current_values s) changes /\
    undo_stack s' = undo_stack s ++ [changes] /\
    redo_stack s' = rest.
Proof.
  intros Hu Hk. unfold redo. rewrite Hu, pop_snoc.
  match goal with |- context [replay true ?s0 changes] =>
    destruct (replay_total true changes s0 Hk) as (s1 & Hr & Hc);
    destruct (replay_keeps true changes s0 s1 Hr) as (_ & Hm & Hu1 & Hr1)
  end.
  rewrite Hr. simpl. eexists. split; [reflexivity|]. simpl in *.
  rewrite Hc, Hu1, Hr1. by repeat split.
Qed.

(** X4.  A batch is one unit of history: after a batch that applied at
    least one entry (a dictionary of updates, on a schema whose bound
    comparisons cannot raise), one [undo] puts every current value back
    to what it was before the batch and moves the whole batch to the
    redo stack, and one [redo] then brings back exactly the values and
    the undo stack the batch had left. *)
Theorem batch_undo_redo st updates results st' :
  NoDup updates.*1 ->
  schema_ok st ->
  set_parameters_batch st updates = Ok (results, st') ->
  applied st updates <> [] ->
  exists sU sR,
    undo st' = Ok (true, sU) /\
    current_values sU = current_values st /\
    undo_stack sU = undo_stack st /\
    redo_stack sU = [map (change_of st) (applied st updates)] /\
    redo sU = Ok (true, sR) /\
    current_values sR = current_values st' /\
    undo_stack sR = undo_stack st' /\
    redo_stack sR = [].
Proof.
  intros Hnd Hs Hb Happ.
  destruct (batch_spec st updates Hnd Hs) as (results' & st'' & Hb' & _ & _ & Hcv & Hu & Hr).
  rewrite Hb in Hb'. injection Hb' as <- <-.
  apply batch_inv in Hb as (st1 & changes & Ha & Hp & _ & _).
  apply apply_all_keeps in Ha as (_ & Hmono & _).
  set (A := applied st updates) in *.
  destruct A as [|e0 A0] eqn:HA; [done|]. rewrite <- HA in *. clear Happ.
  assert (Hknown : forall c, c ∈ map (change_of st) A ->
                             is_Some (parameters st' !! param_name c)).
  { intros c Hc. apply list_elem_of_fmap in Hc as (e & -> & He). simpl.
    rewrite Hp. apply Hmono. subst A. by apply (applied_known st updates e). }
  assert (HuA : undo_stack st' = undo_stack st ++ [map (change_of st) A]) by by rewrite HA in *.
  assert (HrA : redo_stack st' = []) by by rewrite HA in *.
  destruct (undo_top st' _ _ HuA Hknown) as (sU & HU & HcU & HuU & HrU & HmU).
  assert (HcU' : current_values sU = current_values st).
  { rewrite HcU, Hcv. apply map_eq. intros k.
    destruct (decide (k ∈ A.*1)) as [Hin|Hout].
    - apply list_elem_of_fmap in Hin as (e & -> & He).
      pose proof (replay_values_in false (change_of st e) (map (change_of st) A)
                    (foldl apply_entry (current_values st) A)) as Hl.
      simpl in Hl. rewrite Hl.
      + unfold get_parameter.
        destruct (applied_known st updates e) as [[v Hv] _]; [by subst A|].
        by rewrite Hv.
      + rewrite changes_names. subst A. by apply applied_keys_NoDup.
      + by apply (list_elem_of_fmap_2 (change_of st)).
    - rewrite replay_values_notin by (by rewrite changes_names).
      by apply foldl_apply_notin. }
  destruct (redo_top sU [] (map (change_of st) A)) as (sR & HR & HcR & HuR & HrR).
  { by rewrite HrU, HrA. }
  { intros c Hc. by apply HmU, Hknown. }
  exists sU, sR. split; [done|]. split; [done|]. split; [done|].
  split; [by rewrite HrU, HrA|]. split; [done|].
  split; [by rewrite HcR, HcU', replay_forward_values, Hcv|].
  split; [by rewrite HuR, HuU, HuA|done].
Qed.

Lemma batch_undo_redo_witness :
  exists results st' sU sR,
    set_parameters_batch sample sample_updates = Ok (results, st') /\
    undo st' = Ok (true, sU) /\
    current_values sU = current_values sample /\
    redo sU = Ok (true, sR) /\
    current_values sR = current_values st'.
Proof.
  destruct (set_parameters_batch sample sample_updates) as [[results st']|e] eqn:Hb;
    [|vm_compute in Hb; discriminate].
  destruct (batch_undo_redo sample sample_updates results st'
              sample_updates_NoDup sample_schema_ok Hb)
    as (sU & sR & H1 & H2 & _ & _ & H3 & H4 & _).
  - vm_compute. discriminate.
  - exists results, st', sU, sR. by repeat split.
Defined.

(** *** Edges of the bounds check *)

Lemma py_eq_nan v : py_eq v (VFloat S754_nan) = false.
Proof.
  unfold py_eq. simpl. destruct (num_of v) as [x|] eqn:Hv.
  - by destruct x.
  - by destruct v.
Qed.

Lemma py_compare_nan w : num_of w <> None -> py_compare (VFloat S754_nan) w = Ok None.
Proof.
  unfold py_compare. simpl. destruct (num_of w) as [y|]; [|done]. by destruct y.
Qed.

(** X5.  A not-a-number is never out of bounds: on a [float] parameter
    with numeric bounds, [set_parameter] with NaN returns [True] and
    stores it, whatever the bounds and the current value are. *)
Theorem nan_passes_bounds st name pd old :
  current_values st !! name = Some old ->
  parameters st !! name = Some pd ->
  pd !! "type" = Some (VType PyFloat) ->
  numeric_bounds pd = true ->
  exists st',
    set_parameter st name (VFloat S754_nan) = Ok (true, st') /\
    get_parameter st' name = VFloat S754_nan.
Proof.
  intros Hc Hp Ht Hn. exists (after_set st name pd old (VFloat S754_nan)). split.
  - apply set_parameter_passes; try done.
    + apply py_eq_nan.
    + by rewrite (validate_type_marker st name pd PyFloat).
    + unfold _validate_bounds. rewrite Hp. simpl.
      unfold numeric_bounds in Hn. apply andb_prop in Hn as [Hlo Hhi].
      unfold py_lt, py_gt.
      destruct (pd !! "min") as [lo|]; simpl.
      * rewrite py_compare_nan by by apply is_number_num_of. simpl.
        destruct (pd !! "max") as [hi|]; simpl; [|done].
        by rewrite py_compare_nan by by apply is_number_num_of.
      * destruct (pd !! "max") as [hi|]; simpl; [|done].
        by rewrite py_compare_nan by by apply is_number_num_of.
  - unfold get_parameter. simpl. by rewrite lookup_insert_eq.
Qed.

Lemma nan_passes_bounds_witness :
  exists st',
    set_parameter sample "damping" (VFloat S754_nan) = Ok (true, st') /\
    get_parameter st' "damping" = VFloat S754_nan.
Proof.
  apply (nan_passes_bounds sample "damping" (sample_parameters !!! "damping") (VFloat f0_5));
    vm_compute; reflexivity.
Defined.

Lemma validate_entry_raises_TypeError st name v e :
  validate_entry st name v = Raise e -> e = TypeError.
Proof.
  unfold validate_entry, _validate_bounds, py_lt, py_gt, py_compare. intros H.
  destruct (current_values st !! name); [|done].
  destruct (_validate_type st name v); simpl in H; [|done].
  repeat match type of H with
         | context [match ?x with _ => _ end] => destruct x; simpl in H; try done
         end; congruence.
Qed.

Lemma validate_all_raises st name v : forall updates results0,
  (name, v) ∈ updates ->
  validate_entry st name v = Raise TypeError ->
  validate_all st updates results0 = Raise TypeError.
Proof.
  induction updates as [|[n w] rest IH]; intros results0 Hin Hv.
  - by apply elem_of_nil in Hin.
  - simpl. apply elem_of_cons in Hin as [[= <- <-]|Hin].
    + by rewrite Hv.
    + destruct (validate_entry st n w) as [b|e] eqn:He; simpl.
      * by apply IH.
      * by apply validate_entry_raises_TypeError in He as ->.
Qed.

(** X6.  A bound that is not a string makes every change of a [str]
    parameter raise: with a ["min"] entry present whose value is not a
    string ([None], say), [set_parameter] with a new string raises
    [TypeError] instead of returning, and a batch that holds such an
    entry raises before anything is applied. *)
Theorem bound_of_other_kind_raises st name pd old lo s :
  current_values st !! name = Some old ->
  parameters st !! name = Some pd ->
  pd !! "type" = Some (VType PyStr) ->
  pd !! "min" = Some lo ->
  (forall t, lo <> VStr t) ->
  py_eq old (VStr s) = false ->
  set_parameter st name (VStr s) = Raise TypeError /\
  forall updates, (name, VStr s) ∈ updates ->
                  set_parameters_batch st updates = Raise TypeError.
Proof.
  intros Hc Hp Ht Hlo Hns He.
  assert (Hb : _validate_bounds st name (VStr s) = Raise TypeError).
  { unfold _validate_bounds. rewrite Hp. simpl. rewrite Hlo.
    unfold py_lt, py_compare. simpl.
    destruct lo; simpl; try done. by destruct (Hns s0). }
  assert (Hty : _validate_type st name (VStr s) = true)
    by by rewrite (validate_type_marker st name pd PyStr).
  split.
  - unfold set_parameter. rewrite Hc, He, Hty. simpl. by rewrite Hb.
  - intros updates Hin. unfold set_parameters_batch.
    rewrite (validate_all_raises st name (VStr s)); [done|done|].
    unfold validate_entry. rewrite Hc, Hty. simpl. by rewrite Hb.
Qed.

Lemma bound_of_other_kind_raises_witness :
  set_parameter sample_unbounded_label "label" (VStr "pulse") = Raise TypeError /\
  forall updates, ("label", VStr "pulse") ∈ updates ->
                  set_parameters_batch sample_unbounded_label updates = Raise TypeError.
Proof.
  apply (bound_of_other_kind_raises sample_unbounded_label "label"
           (parameters sample_unbounded_label !!! "label") (VStr "wave") VNone "pulse");
    try (vm_compute; reflexivity).
  intros t. discriminate.
Defined.

End StoreExtra.

(** ** The bounds check and what depends on it *)

Module StoreBounds.
Import Store StoreFacts StoreExtra.

Lemma py_lt_None v : py_lt v VNone = Raise TypeError.
Proof. unfold py_lt, py_compare. simpl. destruct (num_of v); by destruct v. Qed.

Lemma py_gt_None v : py_gt v VNone = Raise TypeError.
Proof. unfold py_gt, py_compare. simpl. destruct (num_of v); by destruct v. Qed.

Lemma py_lt_raises v lo e : py_lt v lo = Raise e -> e = TypeError.
Proof.
  unfold py_lt, py_compare.
  destruct (num_of v), (num_of lo); simpl; try done; destruct v, lo; simpl; congruence.
Qed.

Lemma py_gt_raises v hi e : py_gt v hi = Raise e -> e = TypeError.
Proof.
  unfold py_gt, py_compare.
  destruct (num_of v), (num_of hi); simpl; try done; destruct v, hi; simpl; congruence.
Qed.

(** The three outcomes of [_validate_bounds]. *)
Lemma validate_bounds_cases st name pd v :
  parameters st !! name = Some pd ->
  _validate_bounds st name v =
    if out_of_bounds pd v then Ok false
    else if bound_unordered pd v then Raise TypeError
    else Ok true.
Proof.
  intros Hp. unfold _validate_bounds, out_of_bounds, bound_unordered,
    below_min, min_passed, above_max. rewrite Hp. simpl.
  destruct (pd !! "min") as [lo|]; simpl.
  - destruct (py_lt v lo) as [[]|e] eqn:Hlo; simpl; [done| |].
    + destruct (pd !! "max") as [hi|]; simpl; [|done].
      destruct (py_gt v hi) as [[]|e] eqn:Hhi; simpl; [done|done|].
      by rewrite (py_gt_raises _ _ _ Hhi).
    + by rewrite (py_lt_raises _ _ _ Hlo).
  - destruct (pd !! "max") as [hi|]; simpl; [|done].
    destruct (py_gt v hi) as [[]|e] eqn:Hhi; simpl; [done|done|].
    by rewrite (py_gt_raises _ _ _ Hhi).
Qed.

Lemma none_bound_unordered pd v :
  pd !! "min" = Some VNone \/ (pd !! "min" = None /\ pd !! "max" = Some VNone) ->
  out_of_bounds pd v = false /\ bound_unordered pd v = true.
Proof.
  unfold out_of_bounds, bound_unordered, below_min, min_passed, above_max.
  intros [Hlo|[Hlo Hhi]].
  - rewrite Hlo, py_lt_None. simpl. done.
  - rewrite Hlo, Hhi, py_gt_None. simpl. done.
Qed.

(** C1.  The claim fails where a declared bound is [None]: for a known
    name whose spec carries [None] as its minimum (or no minimum and
    [None] as its maximum), [set_parameter] with a value of the declared
    kind that differs from the current value raises [TypeError] from the
    comparison with the bound; it does not return [True] and stores
    nothing. *)
Theorem set_parameter_raises_on_none_bound st name pd t old value :
  current_values st !! name = Some old ->
  parameters st !! name = Some pd ->
  pd !! "type" = Some (VType t) ->
  kind_matches t value = true ->
  py_eq old value = false ->
  pd !! "min" = Some VNone \/ (pd !! "min" = None /\ pd !! "max" = Some VNone) ->
  set_parameter st name value = Raise TypeError.
Proof.
  intros Hc Hp Ht Hk He Hb. unfold set_parameter. rewrite Hc, He.
  rewrite (validate_type_marker st name pd t) by done.
  rewrite (kind_matches_accepts t value Hk). simpl.
  rewrite (validate_bounds_cases st name pd) by done.
  destruct (none_bound_unordered pd value Hb) as [-> ->]. reflexivity.
Qed.

Lemma set_parameter_raises_on_none_bound_witness :
  set_parameter declared "show_grid" (VBool false) = Raise TypeError.
Proof.
  apply (set_parameter_raises_on_none_bound declared "show_grid"
           (declared_parameters !!! "show_grid") PyBool (VBool true) (VBool false));
    try (vm_compute; reflexivity).
  left. vm_compute. reflexivity.
Defined.



(** *** Batches *)

Lemma validate_entry_Ok st name v b :
  validate_entry st name v = Ok b -> b = entry_passes st (name, v).
Proof.
  unfold validate_entry, entry_passes. simpl.
  destruct (current_values st !! name) as [old|] eqn:Hc.
  2:{ intros [= <-]. rewrite bool_decide_eq_false_2; [done|]. by intros [? ?]. }
  rewrite bool_decide_eq_true_2 by eauto. simpl.
  destruct (_validate_type st name v); simpl; [|congruence].
  destruct (_validate_bounds st name v) as [[]|]; simpl; congruence.
Qed.

Lemma validate_all_returns st : forall updates results0 results,
  NoDup updates.*1 ->
  validate_all st updates results0 = Ok results ->
  (forall e, e ∈ updates -> validate_entry st e.1 e.2 = Ok (entry_passes st e)) /\
  (forall e, e ∈ updates -> results !! e.1 = Some (entry_passes st e)) /\
  (forall n, n ∉ updates.*1 -> results !! n = results0 !! n).
Proof.
  induction updates as [|[name v] rest IH]; intros results0 results Hnd H.
  - simpl in H. injection H as <-.
    split; [|split]; try done; intros e He; by apply elem_of_nil in He.
  - simpl in Hnd. apply NoDup_cons in Hnd as [Hnotin Hnd]. simpl in H.
    destruct (validate_entry st name v) as [b|] eqn:Hv; simpl in H; [|done].
    pose proof (validate_entry_Ok st name v b Hv) as ->.
    destruct (IH _ _ Hnd H) as (Hall & Hin & Hout).
    split; [|split].
    + intros e He. apply elem_of_cons in He as [->|He]; [done|by apply Hall].
    + intros e He. apply elem_of_cons in He as [->|He]; [|by apply Hin].
      simpl. rewrite Hout by done. apply lookup_insert_eq.
    + intros n Hn. simpl in Hn. apply not_elem_of_cons in Hn as [Hne Hn].
      rewrite Hout by done. by apply lookup_insert_ne.
Qed.

Lemma validate_all_total st : forall updates results0,
  (forall e, e ∈ updates -> exists b, validate_entry st e.1 e.2 = Ok b) ->
  exists results, validate_all st updates results0 = Ok results.
Proof.
  induction updates as [|[name v] rest IH]; intros results0 H; [by eexists|].
  destruct (H (name, v)) as [b Hb]; [apply list_elem_of_here|]. simpl in Hb.
  simpl. rewrite Hb. simpl. apply IH. intros e He. apply H. by apply list_elem_of_further.
Qed.

Lemma entry_passes_known st e :
  entry_passes st e = true ->
  is_Some (current_values st !! e.1) /\ is_Some (parameters st !! e.1).
Proof.
  unfold entry_passes. intros Hp.
  apply andb_prop in Hp as [Hp _]. apply andb_prop in Hp as [Hc Ht].
  split; [by apply bool_decide_eq_true_1 in Hc|].
  unfold _validate_type in Ht. destruct (parameters st !! e.1); [eauto|done].
Qed.

(** What a batch that validates leaves. *)
Lemma batch_after_validation st updates results :
  NoDup updates.*1 ->
  validate_all st updates ∅ = Ok results ->
  exists st',
    set_parameters_batch st updates = Ok (results, st') /\
    (forall e, e ∈ updates -> results !! e.1 = Some (entry_passes st e)) /\
    (forall n, n ∉ updates.*1 -> results !! n = None) /\
    current_values st' = foldl apply_entry (current_values st) (applied st updates) /\
    undo_stack st' =
      match applied st updates with
      | [] => undo_stack st
      | _ :: _ => undo_stack st ++ [map (change_of st) (applied st updates)]
      end /\
    redo_stack st' =
      match applied st updates with
      | [] => redo_stack st
      | _ :: _ => []
      end.
Proof.
  intros Hnd Hv.
  destruct (validate_all_returns st updates ∅ results Hnd Hv) as (_ & Hin & Hout).
  destruct (apply_all_spec results (entry_passes st) updates st [] Hnd)
    as (st1 & Ha & Hcv & Hu & Hr).
  { intros e He. split; [by apply Hin|]. apply entry_passes_known. }
  simpl in Ha. fold (applied st updates) in Ha, Hcv.
  unfold set_parameters_batch. rewrite Hv. simpl. rewrite Ha. simpl.
  destruct (applied st updates) as [|e l] eqn:Happ; simpl.
  - exists st1.
    split; [done|]. split; [done|]. split; [intros n Hn; by rewrite Hout|]. done.
  - eexists. split; [reflexivity|]. simpl.
    split; [done|]. split; [intros n Hn; by rewrite Hout|].
    split; [done|]. split; [by rewrite Hu|done].
Qed.

(** C4.  The claim fails where a declared bound is [None]: when an entry
    of the update dictionary has a known name and a value the type check
    accepts, and the spec of that name carries [None] as its minimum (or
    no minimum and [None] as its maximum), [set_parameters_batch] raises
    [TypeError] in its first loop; it returns no result map and applies
    no entry. *)
Theorem set_parameters_batch_raises_on_none_bound st updates name value pd :
  (name, value) ∈ updates ->
  is_Some (current_values st !! name) ->
  parameters st !! name = Some pd ->
  _validate_type st name value = true ->
  pd !! "min" = Some VNone \/ (pd !! "min" = None /\ pd !! "max" = Some VNone) ->
  set_parameters_batch st updates = Raise TypeError.
Proof.
  intros Hin [old Hc] Hp Ht Hb. unfold set_parameters_batch.
  rewrite (validate_all_raises st name value); [done|done|].
  unfold validate_entry. rewrite Hc, Ht. simpl.
  rewrite (validate_bounds_cases st name pd) by done.
  by destruct (none_bound_unordered pd value Hb) as [-> ->].
Qed.

Lemma set_parameters_batch_raises_on_none_bound_witness :
  set_parameters_batch declared declared_defaults = Raise TypeError.
Proof.
  apply (set_parameters_batch_raises_on_none_bound declared declared_defaults
           "show_grid" (VBool true) (declared_parameters !!! "show_grid")).
  - in_list.
  - eexists. vm_compute. reflexivity.
  - vm_compute. reflexivity.
  - vm_compute. reflexivity.
  - left. vm_compute. reflexivity.
Defined.

(** X18.  Whenever [set_parameters_batch] returns, which it does exactly
    when the check of no entry raises, it has given each entry of the
    update dictionary the verdict of its own name, type and bounds
    check, applied the entries that passed in their original order,
    reported [True] for exactly those names and [False] for the others,
    and pushed one batch with all applied changes (none when nothing
    passed), clearing the redo stack only when something was applied. *)
Theorem set_parameters_batch_applies_valid st updates :
  NoDup updates.*1 ->
  ((exists results st', set_parameters_batch st updates = Ok (results, st')) <->
   (forall e, e ∈ updates -> exists b, validate_entry st e.1 e.2 = Ok b)) /\
  forall results st',
    set_parameters_batch st updates = Ok (results, st') ->
    (forall e, e ∈ updates -> results !! e.1 = Some (entry_passes st e)) /\
    (forall n, n ∉ updates.*1 -> results !! n = None) /\
    current_values st' = foldl apply_entry (current_values st) (applied st updates) /\
    undo_stack st' =
      match applied st updates with
      | [] => undo_stack st
      | _ :: _ => undo_stack st ++ [map (change_of st) (applied st updates)]
      end /\
    redo_stack st' =
      match applied st updates with
      | [] => redo_stack st
      | _ :: _ => []
      end.
Proof.
  intros Hnd. split; [split|].
  - intros (results & st' & Hb) e He. unfold set_parameters_batch in Hb.
    destruct (validate_all st updates ∅) as [results0|] eqn:Hv; [|done].
    destruct (validate_all_returns st updates ∅ results0 Hnd Hv) as (Hall & _ & _).
    eexists. by apply Hall.
  - intros Hall. destruct (validate_all_total st updates ∅ Hall) as [results Hv].
    destruct (batch_after_validation st updates results Hnd Hv) as (st' & Hb & _).
    by exists results, st'.
  - intros results st' Hb.
    assert (Hv : validate_all st updates ∅ = Ok results).
    { unfold set_parameters_batch in Hb.
      destruct (validate_all st updates ∅) as [results0|]; simpl in Hb; [|done].
      destruct (apply_all st updates results0 []) as [[st1 changes]|]; simpl in Hb; [|done].
      destruct changes; injection Hb as <- _; done. }
    destruct (batch_after_validation st updates results Hnd Hv) as (st'' & Hb' & H).
    rewrite Hb in Hb'. injection Hb' as <-. exact H.
Qed.

Lemma set_parameters_batch_applies_valid_witness :
  exists results st',
    set_parameters_batch sample sample_updates = Ok (results, st') /\
    results !! "amplitude" = Some true /\
    results !! "count" = Some false /\
    results !! "volume" = Some false /\
    results !! "show_grid" = Some true /\
    results !! "damping" = Some false /\
    undo_stack st' =
      [[{| param_name := "amplitude"; old_value := VFloat f1_0; new_value := VFloat f2_5 |};
        {| param_name := "show_grid"; old_value := VBool true; new_value := VBool true |}]].
Proof.
  destruct (set_parameters_batch sample sample_updates) as [[results st']|e] eqn:Hb;
    [|vm_compute in Hb; discriminate].
  destruct (set_parameters_batch_applies_valid sample sample_updates sample_updates_NoDup)
    as [_ H].
  destruct (H results st' Hb) as (Hin & _ & _ & Hu & _).
  exists results, st'. split; [reflexivity|].
  split; [etrans; [apply (Hin ("amplitude", VFloat f2_5)); in_list | vm_compute; reflexivity]|].
  split; [etrans; [apply (Hin ("count", VInt 9)); in_list | vm_compute; reflexivity]|].
  split; [etrans; [apply (Hin ("volume", VInt 1)); in_list | vm_compute; reflexivity]|].
  split; [etrans; [apply (Hin ("show_grid", VBool true)); in_list | vm_compute; reflexivity]|].
  split; [etrans; [apply (Hin ("damping", VStr "high")); in_list | vm_compute; reflexivity]|].
  exact Hu.
Defined.

(** C10.  [set_parameters_batch] has no no-op check: in every call that
    returns, an entry for a known name whose new value equals the
    current one and passes the type and bounds checks is reported
    [True], is stored, shows up in the pushed batch as a change whose old
    and new values are equal, and the redo stack is cleared; the same
    update through [set_parameter] returns [False] and changes
    nothing. *)
Theorem batch_applies_equal_value st updates results st' name value old :
  NoDup updates.*1 ->
  set_parameters_batch st updates = Ok (results, st') ->
  (name, value) ∈ updates ->
  current_values st !! name = Some old ->
  py_eq old value = true ->
  entry_passes st (name, value) = true ->
  (exists batch,
     results !! name = Some true /\
     current_values st' !! name = Some value /\
     undo_stack st' = undo_stack st ++ [batch] /\
     {| param_name := name; old_value := old; new_value := value |} ∈ batch /\
     py_eq old value = true /\
     redo_stack st' = []) /\
  set_parameter st name value = Ok (false, st).
Proof.
  intros Hnd Hb Hin Hc He Hp. split.
  - assert (Hv : validate_all st updates ∅ = Ok results).
    { unfold set_parameters_batch in Hb.
      destruct (validate_all st updates ∅) as [results0|]; simpl in Hb; [|done].
      destruct (apply_all st updates results0 []) as [[st1 changes]|]; simpl in Hb; [|done].
      destruct changes; injection Hb as <- _; done. }
    destruct (batch_after_validation st updates results Hnd Hv)
      as (st'' & Hb' & Hres & _ & Hcv & Hu & Hr).
    rewrite Hb in Hb'. injection Hb' as <-.
    pose proof (applied_elem st updates _ Hin Hp) as Happ.
    exists (map (change_of st) (applied st updates)).
    split; [|split; [|split; [|split; [|split]]]].
    + rewrite <- Hp. apply (Hres (name, value) Hin).
    + rewrite Hcv. by apply foldl_applied_lookup.
    + destruct (applied st updates); [by apply elem_of_nil in Happ|done].
    + assert (Hch : change_of st (name, value) =
                    {| param_name := name; old_value := old; new_value := value |}).
      { unfold change_of, get_parameter. simpl. by rewrite Hc. }
      rewrite <- Hch. by apply (list_elem_of_fmap_2 (change_of st)).
    + done.
    + destruct (applied st updates); [by apply elem_of_nil in Happ|done].
  - unfold set_parameter. by rewrite Hc, He.
Qed.

Lemma batch_applies_equal_value_witness :
  exists results st',
    set_parameters_batch sample_unbounded_label [("amplitude", VFloat f1_0)]
      = Ok (results, st') /\
    results !! "amplitude" = Some true /\
    redo_stack st' = [] /\
    set_parameter sample_unbounded_label "amplitude" (VFloat f1_0)
      = Ok (false, sample_unbounded_label).
Proof.
  destruct (set_parameters_batch sample_unbounded_label [("amplitude", VFloat f1_0)])
    as [[results st']|e] eqn:Hb; [|vm_compute in Hb; discriminate].
  destruct (batch_applies_equal_value sample_unbounded_label [("amplitude", VFloat f1_0)]
              results st' "amplitude" (VFloat f1_0) (VFloat f1_0))
    as [(batch & Hr & _ & _ & _ & _ & Hredo) Hset].
  - by apply (bool_decide_unpack _).
  - exact Hb.
  - in_list.
  - vm_compute. reflexivity.
  - vm_compute. reflexivity.
  - vm_compute. reflexivity.
  - exists results, st'. split; [reflexivity|]. split; [exact Hr|]. split; [exact Hredo|exact Hset].
Defined.

End StoreBounds.

(** ** More on the extractor *)

Module ParserExtra.
Import Text Parser ParserFacts.

(** *** [ast.walk] *)

Lemma height_pos s : (1 <= height s)%nat.
Proof. destruct s; simpl; lia. Qed.

Lemma height_le_max (l : list stmt) s :
  s ∈ l -> (height s <= fold_right (fun c h => Nat.max (height c) h) 0%nat l)%nat.
Proof.
  induction l as [|a l IH]; intros H; [by apply elem_of_nil in H|].
  simpl. apply elem_of_cons in H as [->|H]; [lia|]. specialize (IH H). lia.
Qed.

Lemma height_children (level : list stmt) fuel c :
  (forall s, s ∈ level -> (height s <= S fuel)%nat) ->
  c ∈ flat_map children level -> (height c <= fuel)%nat.
Proof.
  intros Hl Hc. apply list_elem_of_In, in_flat_map in Hc as (s & Hs & Hc).
  apply list_elem_of_In in Hs, Hc. specialize (Hl s Hs).
  destruct s as [| body |]; simpl in Hc; try by apply elem_of_nil in Hc.
  pose proof (height_le_max body c Hc) as Hm. simpl in Hl. lia.
Qed.

Lemma nodes_children s : nodes s = s :: flat_map nodes (children s).
Proof. by destruct s. Qed.

Lemma nodes_levels (level : list stmt) :
  flat_map nodes level ≡ₚ level ++ flat_map nodes (flat_map children level).
Proof.
  induction level as [|a l IH]; [done|].
  cbn [flat_map]. rewrite nodes_children, flat_map_app, IH. simpl.
  constructor. rewrite !app_assoc. apply Permutation_app_tail, Permutation_app_comm.
Qed.

Lemma walk_levels_nodes : forall fuel (level : list stmt),
  (forall s, s ∈ level -> (height s <= fuel)%nat) ->
  walk_levels fuel level ≡ₚ flat_map nodes level.
Proof.
  induction fuel as [|fuel IH]; intros level Hh.
  - destruct level as [|a l]; [done|].
    pose proof (Hh a (list_elem_of_here _ _)) as H0. pose proof (height_pos a). lia.
  - destruct level as [|a l]; [done|].
    cbn [walk_levels]. rewrite nodes_levels. apply Permutation_app_head.
    apply IH. intros c Hc. by apply (height_children (a :: l)).
Qed.

Lemma first_assignment_app l1 l2 :
  first_assignment (l1 ++ l2) =
    match first_assignment l1 with
    | Some a => Some a
    | None => first_assignment l2
    end.
Proof.
  induction l1 as [|s l1 IH]; [done|].
  destruct s as [targets value lineno| |]; simpl; try done.
  by destruct (existsb is_parameters_target targets).
Qed.

Lemma first_assignment_None l :
  first_assignment l = None <-> forall s, s ∈ l -> assigns_parameters s = false.
Proof.
  induction l as [|s l IH]; simpl.
  - split; [|done]. intros _ s H. by apply elem_of_nil in H.
  - destruct s as [targets value lineno| |]; simpl.
    + destruct (existsb is_parameters_target targets) eqn:He.
      * split; [done|]. intros H.
        specialize (H (Assign targets value lineno) (list_elem_of_here _ _)).
        simpl in H. congruence.
      * rewrite IH. split.
        -- intros H s Hs. apply elem_of_cons in Hs as [->|Hs]; [done|by apply H].
        -- intros H s Hs. by apply H, list_elem_of_further.
    + rewrite IH. split.
      * intros H s Hs. apply elem_of_cons in Hs as [->|Hs]; [done|by apply H].
      * intros H s Hs. by apply H, list_elem_of_further.
    + rewrite IH. split.
      * intros H s Hs. apply elem_of_cons in Hs as [->|Hs]; [done|by apply H].
      * intros H s Hs. by apply H, list_elem_of_further.
Qed.

(** X7.  The walk over the tree visits every statement, at whatever
    depth, exactly once; so the search for the [PARAMETERS] assignment
    comes back empty exactly when no plain assignment statement
    ([targets = value], the node [ast.Assign]) anywhere in the tree has
    the bare name [PARAMETERS] among its targets.  Other statements that
    bind the name, such as an annotated assignment, are not plain
    assignments and are never found.  A plain assignment at the top
    level of the module is preferred to any nested one, also to one that
    comes earlier in the text. *)
Theorem walk_reaches_every_statement p :
  walk (tree p) ≡ₚ flat_map nodes (tree p) /\
  (_find_parameters_line p = None <->
   forall s, s ∈ flat_map nodes (tree p) -> assigns_parameters s = false) /\
  (forall value lineno,
     first_assignment (tree p) = Some (value, lineno) ->
     _find_parameters_line p = Some (lineno - 1)%nat /\
     extract_parameters p = _extract_dict_value value).
Proof.
  assert (Hw : walk (tree p) ≡ₚ flat_map nodes (tree p)).
  { apply walk_levels_nodes. intros s Hs. by apply height_le_max. }
  split; [done|]. split.
  - unfold _find_parameters_line.
    destruct (first_assignment (walk (tree p))) as [[value lineno]|] eqn:Hf.
    + split; [done|]. intros H.
      assert (Hn : first_assignment (walk (tree p)) = None).
      { apply first_assignment_None. intros s Hs. apply H. by rewrite <- Hw. }
      congruence.
    + split; [|done]. intros _ s Hs.
      apply (proj1 (first_assignment_None _) Hf). by rewrite Hw.
  - intros value lineno Hf.
    assert (Htop : first_assignment (walk (tree p)) = Some (value, lineno)).
    { unfold walk. destruct (tree p) as [|a l] eqn:Ht; [done|].
      pose proof (height_pos a) as Ha.
      destruct (fold_right (fun c h => Nat.max (height c) h) 0%nat (a :: l)) as [|fuel] eqn:Hfuel;
        [simpl in Hfuel; lia|].
      cbn [walk_levels]. by rewrite first_assignment_app, Hf. }
    unfold _find_parameters_line, extract_parameters. by rewrite Htop.
Qed.

Lemma walk_reaches_every_statement_witness :
  _find_parameters_line nested_script = Some 4%nat /\
  exists params, extract_parameters nested_script = Ok params /\ map fst params = [VStr "n"].
Proof.
  destruct (walk_reaches_every_statement nested_script) as (_ & _ & Htop).
  destruct (Htop _ 5%nat eq_refl) as [Hl He].
  split; [exact Hl|]. rewrite He. eexists. split; reflexivity.
Defined.

(** *** What extraction raises *)

Lemma negate_raises o e : negate o = Raise e -> e = TypeError.
Proof. destruct o as [[]| | |]; simpl; congruence. Qed.

Lemma posate_raises o e : posate o = Raise e -> e = TypeError.
Proof. destruct o as [[]| | |]; simpl; congruence. Qed.

Lemma extract_value_raises : forall node e, _extract_value node = Raise e -> e = TypeError.
Proof.
  fix IH 1. intros node e.
  destruct node as [keys values|elts|elts|value|id|op operand|]; simpl.
  - assert (Hitems : forall keys acc,
              extract_items _extract_value keys values acc = Raise e -> e = TypeError).
    { induction values as [|value_node values IHv]; intros ks acc H; [done|].
      destruct ks as [|key_node ks]; [done|]. simpl in H.
      destruct key_node as [[ | | |key| | | ]|]; try by apply (IHv _ _ H).
      destruct (_extract_value value_node) as [o|e0] eqn:Hv; simpl in H.
      - by apply (IHv _ _ H).
      - injection H as <-. by apply (IH value_node). }
    destruct (extract_items _extract_value keys values []) eqn:Hi; simpl; [done|].
    intros [= <-]. by apply (Hitems keys []).
  - assert (Heach : forall r, extract_each _extract_value elts = Raise r -> r = TypeError).
    { induction elts as [|x elts IHe]; intros r H; [done|]. simpl in H.
      destruct (_extract_value x) as [o|e0] eqn:Hv; simpl in H.
      - destruct (extract_each _extract_value elts) as [os|e1]; simpl in H; [done|].
        injection H as <-. by apply IHe.
      - injection H as <-. by apply (IH x). }
    destruct (extract_each _extract_value elts) eqn:Hi; simpl; [done|].
    intros [= <-]. by apply Heach.
  - assert (Heach : forall r, extract_each _extract_value elts = Raise r -> r = TypeError).
    { induction elts as [|x elts IHe]; intros r H; [done|]. simpl in H.
      destruct (_extract_value x) as [o|e0] eqn:Hv; simpl in H.
      - destruct (extract_each _extract_value elts) as [os|e1]; simpl in H; [done|].
        injection H as <-. by apply IHe.
      - injection H as <-. by apply (IH x). }
    destruct (extract_each _extract_value elts) eqn:Hi; simpl; [done|].
    intros [= <-]. by apply Heach.
  - done.
  - done.
  - destruct (_extract_value operand) as [o|e0] eqn:Hv; simpl.
    + destruct op; try done; [apply negate_raises|apply posate_raises].
    + intros [= <-]. by apply (IH operand).
  - done.
Qed.

Lemma extract_items_raises_at k v : forall values keys acc i,
  keys !! i = Some (Some (EConstant k)) ->
  values !! i = Some v ->
  _extract_value v = Raise TypeError ->
  extract_items _extract_value keys values acc = Raise TypeError.
Proof.
  induction values as [|value_node values IH]; intros keys acc i Hk Hv He; [done|].
  destruct keys as [|key_node keys]; [done|].
  destruct i as [|i]; simpl in Hk, Hv.
  - injection Hk as ->. injection Hv as ->. simpl. by rewrite He.
  - simpl. destruct key_node as [[ | | |key| | | ]|]; try by apply (IH _ _ i).
    destruct (_extract_value value_node) as [o|e0] eqn:Hvn; simpl.
    + by apply (IH _ _ i).
    + by rewrite (extract_value_raises _ _ Hvn).
Qed.

Lemma signed_name_raises op id :
  op = USub \/ op = UAdd -> id <> "True" -> id <> "False" ->
  _extract_value (EUnaryOp op (EName id)) = Raise TypeError.
Proof.
  intros Hop Ht Hf. simpl. unfold extract_name.
  apply String.eqb_neq in Ht, Hf. rewrite Ht, Hf.
  destruct Hop as [-> | ->];
    repeat match goal with |- context [String.eqb id ?x] => destruct (String.eqb id x) end;
    reflexivity.
Qed.

(** X8.  A field written as a signed name breaks the whole extraction:
    when a declaration in [PARAMETERS] has, under a constant key, a
    value of the form [-name] or [+name] (a name other than [True] and
    [False]), [extract_parameters] raises [TypeError] and returns no
    parameter at all, and [get_categories] and [validate_parameters]
    raise with it. *)
Theorem signed_name_fails_extraction float_repr p keys values lineno i k
    inner_keys inner_values j field op id :
  first_assignment (walk (tree p)) = Some (EDict keys values, lineno) ->
  keys !! i = Some (Some (EConstant k)) ->
  values !! i = Some (EDict inner_keys inner_values) ->
  inner_keys !! j = Some (Some (EConstant field)) ->
  inner_values !! j = Some (EUnaryOp op (EName id)) ->
  op = USub \/ op = UAdd ->
  id <> "True" -> id <> "False" ->
  extract_parameters p = Raise TypeError /\
  get_categories float_repr p = Raise TypeError /\
  validate_parameters p = Raise TypeError.
Proof.
  intros Hf Hk Hv Hik Hiv Hop Ht Hfa.
  assert (He : extract_parameters p = Raise TypeError).
  { unfold extract_parameters. rewrite Hf. simpl.
    apply (extract_items_raises_at k (EDict inner_keys inner_values) values keys [] i);
      try done.
    simpl.
    rewrite (extract_items_raises_at field (EUnaryOp op (EName id))
               inner_values inner_keys [] j); try done.
    by apply signed_name_raises. }
  split; [done|]. unfold get_categories, validate_parameters. by rewrite He.
Qed.

Lemma signed_name_fails_extraction_witness :
  extract_parameters signed_script = Raise TypeError /\
  get_categories (fun _ => EmptyString) signed_script = Raise TypeError /\
  validate_parameters signed_script = Raise TypeError.
Proof.
  eapply (signed_name_fails_extraction) with
    (i := 0%nat) (j := 1%nat) (op := USub) (id := "LIMIT"); try reflexivity.
  - by left.
  - discriminate.
  - discriminate.
Defined.

(** *** [validate_parameters] *)

Lemma check_parameter_app errors item :
  check_parameter errors item = errors ++ problems_of item.
Proof.
  unfold problems_of, check_parameter. destruct item as [param_name param_data].
  destruct param_data as [v|fields|elts|elts]; try done.
  destruct (is_empty (List.filter (fun f => negb (has_field fields f)) required_fields));
    destruct (dict_get key_eqb fields (VStr "type")) as [param_type|];
    try destruct (is_type_object param_type); simpl;
    rewrite ?app_nil_r, <- ?app_assoc; done.
Qed.

Lemma check_all_app : forall parameters errors,
  fold_left check_parameter parameters errors = errors ++ flat_map problems_of parameters.
Proof.
  induction parameters as [|item rest IH]; intros errors; simpl.
  - by rewrite app_nil_r.
  - by rewrite IH, check_parameter_app, <- app_assoc.
Qed.

Lemma filter_nil_iff {A} (f : A -> bool) (l : list A) :
  List.filter f l = [] <-> forall x, x ∈ l -> f x = false.
Proof.
  induction l as [|a l IH]; simpl.
  - split; [|done]. intros _ x H. by apply elem_of_nil in H.
  - destruct (f a) eqn:Ha.
    + split; [done|]. intros H. specialize (H a (list_elem_of_here _ _)). congruence.
    + rewrite IH. split.
      * intros H x Hx. apply elem_of_cons in Hx as [->|Hx]; [done|by apply H].
      * intros H x Hx. by apply H, list_elem_of_further.
Qed.

Lemma problems_of_nil param_name param_data :
  problems_of (param_name, param_data) = [] <-> well_formed param_data.
Proof.
  unfold problems_of, check_parameter, well_formed.
  destruct param_data as [v|fields|elts|elts];
    try (split; [by destruct v|intros (fields & ? & _); done]);
    try (split; [done|intros (fields & ? & _); done]).
  destruct (List.filter (fun f => negb (has_field fields f)) required_fields) as [|m ms] eqn:Hm.
  - assert (Hall : forall f, f ∈ required_fields -> has_field fields f = true).
    { intros f Hf. apply (proj1 (filter_nil_iff _ _) Hm) in Hf. by destruct (has_field fields f). }
    pose proof (Hall "type") as Hty. unfold has_field in Hty.
    destruct (dict_get key_eqb fields (VStr "type")) as [param_type|] eqn:Hg.
    + simpl. destruct param_type as [[]| | |]; simpl;
        try (split; [done|intros (fields' & [= <-] & _ & t' & Ht'); congruence]).
      split; [|done]. intros _. exists fields. split; [done|]. split; [done|]. by eexists.
    + exfalso. assert (Hin : "type" ∈ required_fields) by (unfold required_fields; set_solver).
      specialize (Hty Hin). done.
  - split.
    + simpl. destruct (dict_get key_eqb fields (VStr "type")) as [param_type|];
        [destruct (is_type_object param_type)|]; done.
    + intros (fields' & [= <-] & Hall & _). exfalso.
      assert (Hin : m ∈ List.filter (fun f => negb (has_field fields f)) required_fields)
        by (rewrite Hm; apply list_elem_of_here).
      apply list_elem_of_In, filter_In in Hin as [Hin Hneg]. apply list_elem_of_In in Hin.
      rewrite (Hall m Hin) in Hneg. done.
Qed.

(** X9.  [validate_parameters] answers valid, with no message, exactly
    when [PARAMETERS] is found non-empty and every declaration in it is a
    dictionary that has the six fields [value], [type], [unit],
    [description], [min] and [max], its [type] being one of the type
    objects [int], [float], [bool] and [str]; the values of the other
    fields are not looked at. *)
Theorem validate_parameters_accepts p parameters :
  extract_parameters p = Ok parameters ->
  exists errors,
    validate_parameters p = Ok (is_empty errors, errors) /\
    (errors = [] <->
     parameters <> [] /\ forall name data, (name, data) ∈ parameters -> well_formed data).
Proof.
  intros He. unfold validate_parameters. rewrite He. simpl.
  destruct parameters as [|item rest] eqn:Hp.
  - exists [NotFound]. split; [done|]. split; [done|]. by intros [? _].
  - rewrite <- Hp. assert (Hne : is_empty parameters = false) by by rewrite Hp.
    rewrite Hne. eexists. split; [reflexivity|].
    rewrite check_all_app. simpl. split.
    + intros Hnil. split; [by rewrite Hp|]. intros name data Hin.
      apply (problems_of_nil name). 
      destruct (problems_of (name, data)) as [|x xs] eqn:Hx; [done|].
      assert (Hx' : x ∈ flat_map problems_of parameters).
      { apply list_elem_of_In, in_flat_map. exists (name, data).
        split; [by apply list_elem_of_In|]. rewrite Hx. by left. }
      rewrite Hnil in Hx'. by apply elem_of_nil in Hx'.
    + intros [_ Hall]. clear Hp Hne He.
      induction parameters as [|[name data] l IH]; [done|]. cbn [flat_map].
      rewrite (proj2 (problems_of_nil name data)) by (apply (Hall name); apply list_elem_of_here).
      simpl. apply IH. intros n d Hin. apply (Hall n). by apply list_elem_of_further.
Qed.

Lemma validate_parameters_accepts_witness :
  validate_parameters complete_script = Ok (true, []) /\
  exists errors, validate_parameters sample_script = Ok (false, errors) /\ errors <> [].
Proof.
  split.
  - destruct (extract_parameters complete_script) as [parameters|e] eqn:He;
      [|vm_compute in He; discriminate].
    destruct (validate_parameters_accepts complete_script parameters He) as (errors & Hv & Hiff).
    assert (Hnil : errors = []).
    { apply Hiff. split; [by intros ->; vm_compute in He|].
      intros name data Hin. vm_compute in He. injection He as <-.
      apply list_elem_of_singleton in Hin as [= -> ->].
      eexists. split; [reflexivity|]. split; [|by eexists].
      intros f Hf. unfold required_fields in Hf.
      repeat (apply elem_of_cons in Hf as [->|Hf]; [reflexivity|]).
      by apply elem_of_nil in Hf. }
    by rewrite Hv, Hnil.
  - eexists. split; [vm_compute; reflexivity|discriminate].
Defined.

(** *** The nearest category comment *)

Lemma insert_desc_perm x l : insert_desc x l ≡ₚ x :: l.
Proof.
  induction l as [|y r IH]; simpl; [done|].
  destruct (fst y <=? fst x)%nat; [done|]. rewrite IH. apply perm_swap.
Qed.

Lemma sorted_desc_perm l : sorted_desc l ≡ₚ l.
Proof.
  induction l as [|x l IH]; simpl; [done|]. by rewrite insert_desc_perm, IH.
Qed.

Lemma insert_desc_descending x l : descending l -> descending (insert_desc x l).
Proof.
  induction l as [|y r IH]; simpl; intros Hd.
  - split; [|done]. intros z Hz. by apply elem_of_nil in Hz.
  - destruct Hd as [Hy Hr]. destruct (fst y <=? fst x)%nat eqn:Hle.
    + apply Nat.leb_le in Hle. simpl. split; [|done].
      intros z Hz. apply elem_of_cons in Hz as [->|Hz]; [done|].
      specialize (Hy z Hz). lia.
    + apply Nat.leb_gt in Hle. simpl. split; [|by apply IH].
      intros z Hz. rewrite insert_desc_perm in Hz.
      apply elem_of_cons in Hz as [->|Hz]; [lia|by apply Hy].
Qed.

Lemma sorted_desc_descending l : descending (sorted_desc l).
Proof. induction l as [|x l IH]; simpl; [done|]. by apply insert_desc_descending. Qed.

Lemma find_descending i : forall l x,
  descending l ->
  List.find (fun c : nat * string => (fst c <? i)%nat) l = Some x ->
  x ∈ l /\ (fst x < i)%nat /\ forall y, y ∈ l -> (fst y < i)%nat -> (fst y <= fst x)%nat.
Proof.
  induction l as [|a l IH]; simpl; intros x Hd Hf; [done|].
  destruct Hd as [Ha Hd]. destruct (fst a <? i)%nat eqn:Hlt.
  - injection Hf as <-. apply Nat.ltb_lt in Hlt.
    split; [apply list_elem_of_here|]. split; [done|].
    intros y Hy _. apply elem_of_cons in Hy as [->|Hy]; [done|by apply Ha].
  - apply Nat.ltb_ge in Hlt. destruct (IH x Hd Hf) as (Hx & Hxi & Hmax).
    split; [by apply list_elem_of_further|]. split; [done|].
    intros y Hy Hyi. apply elem_of_cons in Hy as [->|Hy]; [lia|by apply Hmax].
Qed.

Lemma NoDup_fst_eq (l : list (nat * string)) n a b :
  NoDup (map fst l) -> (n, a) ∈ l -> (n, b) ∈ l -> a = b.
Proof.
  induction l as [|[m c] l IH]; simpl; intros Hnd Ha Hb; [by apply elem_of_nil in Ha|].
  apply NoDup_cons in Hnd as [Hm Hnd].
  apply elem_of_cons in Ha as [Ha|Ha]; apply elem_of_cons in Hb as [Hb|Hb].
  - congruence.
  - injection Ha as -> ->. exfalso. apply Hm. by apply (list_elem_of_fmap_2 fst l (m, b)).
  - injection Hb as -> ->. exfalso. apply Hm. by apply (list_elem_of_fmap_2 fst l (m, a)).
  - by apply IH.
Qed.

(** X10.  [nearest_category] answers with the category comment closest
    above the given line: among the recorded comment lines (one entry
    per line) strictly below the line number, the one with the greatest
    number; a comment on the line itself or further down does not count,
    and with no comment above the answer is ["Default"]. *)
Theorem nearest_category_closest categories_by_line param_line :
  NoDup (map fst categories_by_line) ->
  (forall cat_line cat_name,
     (cat_line, cat_name) ∈ categories_by_line ->
     (cat_line < param_line)%nat ->
     (forall other name, (other, name) ∈ categories_by_line ->
                         (other < param_line)%nat -> (other <= cat_line)%nat) ->
     nearest_category categories_by_line param_line = cat_name) /\
  ((forall cat_line cat_name, (cat_line, cat_name) ∈ categories_by_line ->
                              (param_line <= cat_line)%nat) ->
   nearest_category categories_by_line param_line = "Default").
Proof.
  intros Hnd. unfold nearest_category.
  pose proof (sorted_desc_perm categories_by_line) as Hperm.
  pose proof (sorted_desc_descending categories_by_line) as Hdesc.
  split.
  - intros cat_line cat_name Hin Hlt Hmax.
    destruct (List.find _ (sorted_desc categories_by_line)) as [[l' name']|] eqn:Hf.
    + apply find_descending in Hf as (Hx & Hxi & Hbest); [|done]. simpl in *.
      rewrite Hperm in Hx.
      assert (Hle : (cat_line <= l')%nat).
      { apply (Hbest (cat_line, cat_name)); [by rewrite Hperm|done]. }
      assert (Hge : (l' <= cat_line)%nat) by by apply (Hmax l' name').
      assert (l' = cat_line) as -> by lia.
      by apply (NoDup_fst_eq categories_by_line cat_line).
    + exfalso. apply find_none with (x := (cat_line, cat_name)) in Hf.
      * simpl in Hf. apply Nat.ltb_ge in Hf. lia.
      * apply list_elem_of_In. by rewrite Hperm.
  - intros Hall.
    destruct (List.find _ (sorted_desc categories_by_line)) as [[l' name']|] eqn:Hf; [|done].
    apply find_some in Hf as [Hx Hlt]. simpl in Hlt. apply Nat.ltb_lt in Hlt.
    apply list_elem_of_In in Hx. rewrite Hperm in Hx. specialize (Hall l' name' Hx). lia.
Qed.

Lemma nearest_category_closest_witness :
  nearest_category [(3%nat, "Physical Parameters"); (7%nat, "Display Settings")] 8 =
    "Display Settings" /\
  nearest_category [(3%nat, "Physical Parameters"); (7%nat, "Display Settings")] 3 = "Default".
Proof.
  destruct (nearest_category_closest
              [(3%nat, "Physical Parameters"); (7%nat, "Display Settings")] 8) as [Hnear _].
  { by apply (bool_decide_unpack _). }
  destruct (nearest_category_closest
              [(3%nat, "Physical Parameters"); (7%nat, "Display Settings")] 3) as [_ Hnone].
  { by apply (bool_decide_unpack _). }
  split.
  - apply (Hnear 7%nat).
    + set_solver.
    + lia.
    + intros other name Hin _.
      apply elem_of_cons in Hin as [[= -> _]|Hin]; [lia|].
      apply list_elem_of_singleton in Hin as [= -> _]. lia.
  - apply Hnone. intros cat_line cat_name Hin.
    apply elem_of_cons in Hin as [[= -> _]|Hin]; [lia|].
    apply list_elem_of_singleton in Hin as [= -> _]. lia.
Defined.

(** *** Scripts without category comments *)

Lemma assign_all_default category_of dl : forall items res,
  (forall line, category_of line = "Default") ->
  dict_get String.eqb res "Default" = Some dl ->
  (forall k, k ∈ map fst items -> k ∈ dl) ->
  assign_all category_of res items = Ok res.
Proof.
  induction items as [|[k line] rest IH]; intros res Hc Hd Hin; [done|].
  cbn [assign_all]. unfold assign_step. rewrite Hc, Hd. unfold getitem. rewrite Hd. simpl.
  rewrite (contains_elem dl k) by (apply Hin; apply list_elem_of_here). simpl.
  apply IH; try done. intros k' Hk'. apply Hin. by apply list_elem_of_further.
Qed.

Lemma filter_all_empty (cs : list (string * list pyval)) :
  List.filter (fun c : string * list pyval => negb (is_empty (snd c)))
              (map (fun c => (fst c, [])) cs) = [].
Proof. induction cs as [|c cs IH]; simpl; [done|apply IH]. Qed.

Lemma filter_default_only (cs : list (string * list pyval)) keys :
  keys <> [] ->
  List.filter (fun c : string * list pyval => negb (is_empty (snd c)))
              (dict_set String.eqb (map (fun c => (fst c, [])) cs) "Default" keys)
    = [("Default", keys)].
Proof.
  intros Hk. induction cs as [|[c l] cs IH]; simpl.
  - by destruct keys.
  - destruct (String.eqb c "Default") eqn:He; simpl.
    + apply String.eqb_eq in He as ->. destruct keys; [done|]. simpl.
      by rewrite filter_all_empty.
    + apply IH.
Qed.

(** X11.  When no line from the [PARAMETERS] line on is a category
    comment for [_extract_category_lines] (no comment at all, or only
    comments that its pattern does not take), [get_categories] returns
    the single category ["Default"], holding every parameter in
    declaration order. *)
Theorem get_categories_all_default float_repr p params n :
  extract_parameters p = Ok params ->
  params <> [] ->
  _find_parameters_line p = Some n ->
  _extract_category_lines p n = [] ->
  get_categories float_repr p = Ok [("Default", map fst params)].
Proof.
  intros He Hne Hl Hc. unfold get_categories. rewrite He. simpl.
  destruct params as [|kv params'] eqn:Hp; [done|]. rewrite <- Hp in *. 
  assert (Hemp : is_empty params = false) by by rewrite Hp.
  rewrite Hemp, Hl, Hc.
  destruct (find_parameter_lines_keys float_repr p n (map fst params) [] I) as [_ Hsub].
  rewrite (assign_all_default _ (map fst params)).
  - simpl. f_equal. apply filter_default_only. by rewrite Hp.
  - done.
  - apply sdict_get_set_eq.
  - intros k Hk. destruct (Hsub k Hk) as [H|H]; [by apply elem_of_nil in H|done].
Qed.

Lemma get_categories_all_default_witness :
  get_categories (fun _ => EmptyString) options_script =
    Ok [("Default", [VStr "amplitude"; VStr "damping"; VStr "show_grid"; VStr "label"])].
Proof.
  destruct (extract_parameters options_script) as [params|e] eqn:He;
    [|vm_compute in He; discriminate].
  rewrite (get_categories_all_default (fun _ => EmptyString) options_script params 2 He).
  - vm_compute in He. injection He as <-. reflexivity.
  - intros ->. vm_compute in He. discriminate.
  - reflexivity.
  - vm_compute. reflexivity.
Defined.

(** *** Which category a key ends up in *)

Lemma dict_get_fresh {V} (acc : list (pyval * V)) key :
  (forall x, x ∈ map fst acc -> key_eqb x key = false) -> dict_get key_eqb acc key = None.
Proof.
  induction acc as [|[k v] acc IH]; simpl; intros H; [done|].
  rewrite (H k) by apply list_elem_of_here.
  apply IH. intros x Hx. by apply H, list_elem_of_further.
Qed.

Lemma dict_set_fresh {V} (acc : list (pyval * V)) key v :
  dict_get key_eqb acc key = None -> dict_set key_eqb acc key v = acc ++ [(key, v)].
Proof.
  induction acc as [|[k w] acc IH]; simpl; intros H; [done|].
  destruct (key_eqb k key); [done|]. by rewrite IH.
Qed.

Lemma find_parameter_lines_mentions float_repr p start : forall param_keys acc,
  distinct_keys param_keys ->
  (forall x y, x ∈ map fst acc -> y ∈ param_keys -> key_eqb x y = false) ->
  fold_left
    (fun param_lines key =>
       match find_from (mentions float_repr key) (drop start (lines p)) start with
       | Some i => dict_set key_eqb param_lines key i
       | None => param_lines
       end) param_keys acc
  = acc ++ flat_map (mention_of float_repr p start) param_keys.
Proof.
  induction param_keys as [|key rest IH]; intros acc Hd Hacc; cbn [fold_left flat_map].
  - by rewrite app_nil_r.
  - destruct Hd as [Hkey Hd]. unfold mention_of at 1.
    destruct (find_from (mentions float_repr key) (drop start (lines p)) start) as [i|].
    + rewrite dict_set_fresh.
      * rewrite IH; [by rewrite <- app_assoc|done|].
        intros x y Hx Hy. rewrite map_app in Hx. apply elem_of_app in Hx as [Hx|Hx].
        -- apply Hacc; [done|by apply list_elem_of_further].
        -- apply list_elem_of_singleton in Hx as ->. by apply Hkey.
      * apply dict_get_fresh. intros x Hx. apply Hacc; [done|apply list_elem_of_here].
    + simpl. apply IH; [done|].
      intros x y Hx Hy. apply Hacc; [done|by apply list_elem_of_further].
Qed.

Lemma grows_refl k res : grows k res res.
Proof. intros c l x Hg Hx _. eauto. Qed.

Lemma grows_trans k r1 r2 r3 : grows k r1 r2 -> grows k r2 r3 -> grows k r1 r3.
Proof.
  intros H12 H23 c l x Hg Hx He.
  destruct (H12 c l x Hg Hx He) as (l' & Hg' & Hx'). by apply (H23 c l' x).
Qed.

Lemma grows_set k res c0 l0 :
  (forall l x, dict_get String.eqb res c0 = Some l -> x ∈ l -> key_eqb x k = false -> x ∈ l0) ->
  grows k res (dict_set String.eqb res c0 l0).
Proof.
  intros H c l x Hg Hx He. destruct (decide (c0 = c)) as [<-|Hne].
  - rewrite sdict_get_set_eq. eexists. split; [done|]. by apply (H l).
  - rewrite sdict_get_set_ne by done. eauto.
Qed.

(** One round of the loop, taken apart: up to [res2] lists only grow and
    the list of the category holds the key; then the key is, at most,
    taken out of ["Default"]. *)
Lemma assign_step_inv category_of res k line res' :
  assign_step category_of res (k, line) = Ok res' ->
  exists res2 m2,
    grows k res res2 /\
    dict_get String.eqb res2 (category_of line) = Some m2 /\
    (exists x, x ∈ m2 /\
               (x = k \/ exists m, dict_get String.eqb res (category_of line) = Some m /\
                                   x ∈ m /\ key_eqb x k = true)) /\
    (res' = res2 \/
     (category_of line <> "Default" /\
      exists dl, dict_get String.eqb res2 "Default" = Some dl /\
                 res' = dict_set String.eqb res2 "Default" (list_remove key_eqb dl k))).
Proof.
  unfold assign_step. set (cat := category_of line).
  set (res1 := match dict_get String.eqb res cat with
               | None => dict_set String.eqb res cat []
               | Some _ => res
               end).
  assert (H1 : grows k res res1 /\
               exists members, dict_get String.eqb res1 cat = Some members /\
                 forall x, x ∈ members -> dict_get String.eqb res cat = Some members).
  { subst res1. destruct (dict_get String.eqb res cat) as [m|] eqn:Hg.
    - split; [apply grows_refl|]. exists m. by split.
    - split.
      + apply grows_set. intros l x Hl. congruence.
      + exists []. split; [apply sdict_get_set_eq|]. intros x Hx. by apply elem_of_nil in Hx. }
  destruct H1 as (Hg1 & members & Hm & Hfrom).
  unfold getitem at 1. rewrite Hm. simpl.
  set (res2 := if list_contains key_eqb members k then res1
               else dict_set String.eqb res1 cat (members ++ [k])).
  assert (H2 : grows k res1 res2 /\
               exists m2, dict_get String.eqb res2 cat = Some m2 /\
                 exists x, x ∈ m2 /\
                   (x = k \/ exists m, dict_get String.eqb res cat = Some m /\
                                       x ∈ m /\ key_eqb x k = true)).
  { subst res2. destruct (list_contains key_eqb members k) eqn:Hc.
    - split; [apply grows_refl|]. exists members. split; [done|].
      unfold list_contains in Hc. apply existsb_exists in Hc as (x & Hx & He).
      apply list_elem_of_In in Hx. exists x. split; [done|]. right.
      exists members. split; [by apply (Hfrom x)|done].
    - split.
      + apply grows_set. intros l x Hl Hx _. rewrite Hm in Hl. injection Hl as <-.
        apply elem_of_app. by left.
      + exists (members ++ [k]). split; [apply sdict_get_set_eq|].
        exists k. split; [|by left]. apply elem_of_app. right. apply list_elem_of_here. }
  destruct H2 as (Hg2 & m2 & Hm2 & Hx).
  intros H. exists res2, m2. split; [by apply (grows_trans k res res1 res2)|].
  split; [done|]. split; [done|].
  destruct (String.eqb cat "Default") eqn:Hd; simpl in H.
  - left. congruence.
  - apply String.eqb_neq in Hd. unfold getitem in H.
    destruct (dict_get String.eqb res2 "Default") as [dl|] eqn:Hdl; simpl in H; [|done].
    destruct (list_contains key_eqb dl k).
    + right. split; [done|]. exists dl. split; [done|]. congruence.
    + left. congruence.
Qed.

Lemma assign_step_keeps category_of res k line res' :
  assign_step category_of res (k, line) = Ok res' -> grows k res res'.
Proof.
  intros H. apply assign_step_inv in H as (res2 & m2 & Hg & _ & _ & [->|(_ & dl & Hdl & ->)]);
    [done|].
  apply (grows_trans k res res2); [done|].
  apply grows_set. intros l x Hl Hx He. rewrite Hdl in Hl. injection Hl as <-.
  by apply remove_keeps.
Qed.

Lemma assign_step_adds category_of res k line res' :
  assign_step category_of res (k, line) = Ok res' ->
  (forall c l x, dict_get String.eqb res c = Some l -> x ∈ l -> key_eqb x k = true -> x = k) ->
  exists l, dict_get String.eqb res' (category_of line) = Some l /\ k ∈ l.
Proof.
  intros H Heq.
  apply assign_step_inv in H as (res2 & m2 & _ & Hm2 & (x & Hx & Hk) & Hres).
  assert (Hin : k ∈ m2).
  { destruct Hk as [->|(m & Hm & Hxm & He)]; [done|].
    by rewrite <- (Heq _ m x Hm Hxm He). }
  exists m2. split; [|done].
  destruct Hres as [->|(Hne & dl & _ & ->)]; [done|].
  rewrite sdict_get_set_ne; [done|congruence].
Qed.

Lemma distinct_keys_ne P x k :
  distinct_keys P -> x ∈ P -> k ∈ P -> x <> k -> key_eqb x k = false.
Proof.
  intros HP Hx Hk Hne. destruct (key_eqb x k) eqn:He; [|done].
  by apply (distinct_keys_eq P x k HP Hx Hk) in He.
Qed.

Lemma assign_all_placed category_of P category : forall items res res',
  distinct_keys P ->
  distinct_keys (map fst items) ->
  (forall k, k ∈ map fst items -> k ∈ P) ->
  (forall k line, (k, line) ∈ items -> category k = category_of line) ->
  assigning P res (map fst items) ->
  placed P category res (map fst items) ->
  assign_all category_of res items = Ok res' ->
  placed P category res' [].
Proof.
  induction items as [|[k line] rest IH]; intros res res' HP Hd Hsub Hcat Hinv Hpl Hall.
  - simpl in Hall. by injection Hall as <-.
  - cbn [assign_all] in Hall.
    destruct (assign_step_assigning category_of P res k line (map fst rest) HP Hd Hinv)
      as (res1 & Hstep & Hinv1).
    rewrite Hstep in Hall. simpl in Hall.
    assert (HkP : k ∈ P) by (apply Hsub; apply list_elem_of_here).
    assert (Hk_rest : k ∉ map fst rest).
    { intros Hin. destruct Hd as [Hk _]. specialize (Hk k Hin).
      by rewrite key_eqb_refl in Hk. }
    apply (IH res1 res'); try done.
    + by destruct Hd.
    + intros k' Hk'. apply Hsub. by apply list_elem_of_further.
    + intros k' line' Hin. apply Hcat. by apply list_elem_of_further.
    + intros k' Hk'. destruct (decide (k' = k)) as [->|Hne].
      * rewrite bool_decide_eq_false_2 by done.
        rewrite (Hcat k line) by apply list_elem_of_here.
        apply (assign_step_adds category_of res k line res1 Hstep).
        intros c l x Hg Hx He.
        apply (distinct_keys_eq P x k HP); [|done|done].
        destruct Hinv as (_ & Hperm & _).
        apply (perm_elem (values_of res) P x Hperm).
        apply (elem_values res c l x); [by apply sdict_get_elem|done].
      * destruct (Hpl k' Hk') as (l & Hg & Hin).
        assert (Hsame : bool_decide (k' ∈ map fst ((k, line) :: rest))
                        = bool_decide (k' ∈ map fst rest)).
        { apply bool_decide_ext. simpl. rewrite elem_of_cons.
          split; [intros [Heq|Hr]; [by destruct Hne|done]|by right]. }
        rewrite Hsame in Hg.
        apply (assign_step_keeps category_of res k line res1 Hstep _ l k' Hg Hin).
        by apply (distinct_keys_ne P).
Qed.

(** X12.  Where [get_categories] puts a parameter: every key of
    [PARAMETERS] is listed under the category comment nearest above the
    first line, from the [PARAMETERS] line on, that mentions the key in
    quotes, and under ["Default"] when no comment precedes that line or
    no line mentions the key. *)
Theorem get_categories_places float_repr p params n k :
  extract_parameters p = Ok params ->
  _find_parameters_line p = Some n ->
  k ∈ map fst params ->
  exists cats l,
    get_categories float_repr p = Ok cats /\
    (category_of_key float_repr p n k, l) ∈ cats /\
    k ∈ l.
Proof.
  intros He Hl Hk. pose proof (extract_parameters_distinct p params He) as Hd.
  unfold get_categories. rewrite He. simpl.
  destruct params as [|kv params'] eqn:Hp; [by apply elem_of_nil in Hk|].
  rewrite <- Hp in *. assert (Hemp : is_empty params = false) by by rewrite Hp.
  rewrite Hemp, Hl. clear Hemp Hp kv params'.
  set (P := map fst params) in *.
  destruct (find_parameter_lines_keys float_repr p n P [] I) as [Hdi Hsub].
  fold (_find_parameter_lines float_repr p P n) in Hdi, Hsub.
  assert (Hitems : _find_parameter_lines float_repr p P n
                   = flat_map (mention_of float_repr p n) P).
  { unfold _find_parameter_lines. rewrite find_parameter_lines_mentions; [done|done|].
    intros x y Hx. by apply elem_of_nil in Hx. }
  set (items := _find_parameter_lines float_repr p P n) in *.
  set (res0 := dict_set String.eqb (map (fun c => (fst c, [])) (scan_headers p n)) "Default" P).
  assert (Hsub' : forall x, x ∈ map fst items -> x ∈ P).
  { intros x Hx. destruct (Hsub x Hx) as [H|H]; [by apply elem_of_nil in H|done]. }
  assert (Hinv : assigning P res0 (map fst items)).
  { apply assigning_initially; [apply scan_headers_NoDup|done]. }
  destruct (assign_all_assigning (nearest_category (_extract_category_lines p n)) P items
              res0 Hd Hdi Hinv) as (res' & Ha & _).
  rewrite Ha. simpl.
  assert (Hpl : placed P (category_of_key float_repr p n) res' []).
  { apply (assign_all_placed (nearest_category (_extract_category_lines p n)) P
             (category_of_key float_repr p n) items res0 res'); try done.
    - intros k' line Hin. rewrite Hitems in Hin.
      apply list_elem_of_In, in_flat_map in Hin as (k0 & _ & Hin).
      unfold mention_of in Hin. unfold category_of_key.
      destruct (find_from (mentions float_repr k0) (drop n (lines p)) n) as [i|] eqn:Hf;
        [|done].
      destruct Hin as [[= <- <-]|[]]. by rewrite Hf.
    - intros k' Hk'. exists P. split; [|done].
      destruct (bool_decide (k' ∈ map fst items)) eqn:Hb; [apply sdict_get_set_eq|].
      apply bool_decide_eq_false_1 in Hb.
      assert (Hnone : category_of_key float_repr p n k' = "Default").
      { unfold category_of_key.
        destruct (find_from (mentions float_repr k') (drop n (lines p)) n) as [i|] eqn:Hf;
          [|done].
        exfalso. apply Hb. rewrite Hitems.
        apply (list_elem_of_fmap_2 fst _ (k', i)).
        apply list_elem_of_In, in_flat_map. exists k'.
        split; [by apply list_elem_of_In|]. unfold mention_of. rewrite Hf. by left. }
      rewrite Hnone. apply sdict_get_set_eq. }
  destruct (Hpl k Hk) as (l & Hg & Hin). simpl in Hg.
  eexists. exists l. split; [reflexivity|]. split; [|done].
  apply list_elem_of_In, filter_In. split.
  - apply list_elem_of_In. by apply sdict_get_elem.
  - simpl. by destruct l; [apply elem_of_nil in Hin|].
Qed.

Lemma get_categories_places_witness :
  exists cats l,
    get_categories (fun _ => EmptyString) sample_script = Ok cats /\
    ("Physical Parameters", l) ∈ cats /\
    VStr "damping" ∈ l.
Proof.
  destruct (extract_parameters sample_script) as [params|e] eqn:He;
    [|vm_compute in He; discriminate].
  apply (get_categories_places (fun _ => EmptyString) sample_script params 2 (VStr "damping") He).
  - reflexivity.
  - vm_compute in He. injection He as <-. simpl.
    apply list_elem_of_further, list_elem_of_here.
Defined.

End ParserExtra.

(** ** More on the presets *)

Module PresetsExtra.
Import Presets.

Ltac char_eq :=
  first [reflexivity
        |apply PresetsFacts.code_inj; change (Text.code "_"%char) with 95%nat; lia].
Ltac char_ne H :=
  apply (f_equal Text.code) in H; change (Text.code "_"%char) with 95%nat in H; lia.

Lemma safe_char_eq c d :
  safe_char c = safe_char d <->
  ((Text.code c =? Text.code d)%nat || blank_like c && blank_like d) = true.
Proof.
  unfold safe_char, blank_like.
  change (Text.code " "%char) with 32%nat. change (Text.code "/"%char) with 47%nat.
  destruct (Nat.eqb_spec (Text.code c) 32) as [Hc1|Hc1];
    destruct (Nat.eqb_spec (Text.code d) 32) as [Hd1|Hd1];
    change (Text.code "_"%char) with 95%nat; cbn [Nat.eqb orb andb];
    destruct (Nat.eqb_spec (Text.code c) 47) as [Hc2|Hc2];
    destruct (Nat.eqb_spec (Text.code d) 47) as [Hd2|Hd2];
    destruct (Nat.eqb_spec (Text.code c) 95) as [Hc3|Hc3];
    destruct (Nat.eqb_spec (Text.code d) 95) as [Hd3|Hd3];
    destruct (Nat.eqb_spec (Text.code c) (Text.code d)) as [Hcd|Hcd];
    cbn [orb andb]; try (exfalso; lia);
    (split; [intros H; first [reflexivity|char_ne H]|intros H; first [discriminate|char_eq]]).
Qed.

Lemma safe_name_cons c r : safe_name (String c r) = String (safe_char c) (safe_name r).
Proof. reflexivity. Qed.

Lemma safe_name_eq_iff : forall a b,
  safe_name a = safe_name b <-> interchangeable a b = true.
Proof.
  induction a as [|c a IH]; intros [|d b]; try (split; done).
  rewrite !safe_name_cons. cbn [interchangeable]. rewrite andb_true_iff, <- safe_char_eq, <- IH.
  split; [intros [= H1 H2]; done|intros [-> ->]; done].
Qed.

Lemma append_inj_r s : forall a b, String.append a s = String.append b s -> a = b.
Proof.
  induction a as [|c a IH]; intros [|d b] H; [done| | |].
  - apply (f_equal String.length) in H. rewrite !PresetsFacts.append_length in H.
    simpl in H. lia.
  - apply (f_equal String.length) in H. rewrite !PresetsFacts.append_length in H.
    simpl in H. lia.
  - change (String c (String.append a s) = String d (String.append b s)) in H.
    injection H as -> H. f_equal. by apply IH.
Qed.

Lemma preset_path_eq_iff pm a b :
  preset_path pm a = preset_path pm b <-> interchangeable a b = true.
Proof.
  rewrite <- safe_name_eq_iff. unfold preset_path. split; [|by intros ->].
  intros H. do 4 apply (inj (String.append _)) in H. by apply append_inj_r in H.
Qed.





(** X14.  Deleting a saved preset: after [save_preset] has written a
    preset, [delete_preset] under the same name, or under any name that
    shares its file, returns [True] when the file system takes the
    removal; the preset can then no longer be loaded and a second
    [delete_preset] returns [False].  If no file of that name existed
    before the save, the files are exactly as before it, and presets
    under all other file names load as they did.  Where the file system
    refuses the removal, [delete_preset] returns [False] and the preset
    stays. *)
Theorem delete_preset_after_save float_repr float_parse fs_ok pm files now n n' ps :
  saveable float_repr float_parse ps ->
  fs_ok (preset_path pm n) = true ->
  interchangeable n n' = true ->
  exists files1 files2,
    save_preset float_repr fs_ok pm files now n ps = (true, files1) /\
    delete_preset fs_ok pm files1 n' = (true, files2) /\
    load_preset float_parse pm files2 n = None /\
    delete_preset fs_ok pm files2 n' = (false, files2) /\
    (files !! preset_path pm n = None -> files2 = files) /\
    (forall m, interchangeable m n = false ->
               load_preset float_parse pm files2 m = load_preset float_parse pm files m) /\
    (forall refusing, refusing (preset_path pm n) = false ->
               delete_preset refusing pm files1 n' = (false, files1)).
Proof.
  intros Hs Hf Hi. apply (preset_path_eq_iff pm) in Hi.
  destruct (PresetsFacts.preset_data_round_trip float_repr float_parse pm now n ps Hs)
    as (t & Hd & _).
  exists (<[preset_path pm n := t]> files), (delete (preset_path pm n) files).
  unfold save_preset, delete_preset.
  rewrite Hd, <- Hi, Hf, lookup_insert_eq, delete_insert_eq.
  split; [reflexivity|]. split; [reflexivity|]. split; [|split; [|split; [|split]]].
  - unfold load_preset. by rewrite lookup_delete_eq.
  - by rewrite lookup_delete_eq.
  - intros Hnone. by apply delete_id.
  - intros m Hm. unfold load_preset. rewrite lookup_delete_ne; [done|].
    intros Heq. symmetry in Heq. apply preset_path_eq_iff in Heq. congruence.
  - intros refusing ->. done.
Qed.

Lemma delete_preset_after_save_witness :
  exists files1 files2,
    save_preset no_repr any_path sample_manager ∅ "2024-01-01T00:00:00" "low energy"
      sample_values = (true, files1) /\
    delete_preset any_path sample_manager files1 "low_energy" = (true, files2) /\
    load_preset no_parse sample_manager files2 "low energy" = None /\
    delete_preset any_path sample_manager files2 "low_energy" = (false, files2) /\
    files2 = ∅.
Proof.
  destruct (delete_preset_after_save no_repr no_parse any_path sample_manager ∅
              "2024-01-01T00:00:00" "low energy" "low_energy" sample_values)
    as (files1 & files2 & H1 & H2 & H3 & H4 & H5 & _).
  - apply PresetsFacts.sample_values_saveable.
  - reflexivity.
  - reflexivity.
  - exists files1, files2. split; [exact H1|]. split; [exact H2|]. split; [exact H3|].
    split; [exact H4|]. apply H5. reflexivity.
Defined.



End PresetsExtra.

(** ** Writing a value back to the script *)

Module PatchExtra.
Import Text Patch.

Local Infix "+++" := String.append (at level 60, right associativity).

(** *** Splitting and joining lines *)

Lemma split_lines_cons s : exists h t, split_lines s = h :: t.
Proof.
  induction s as [|c r (h & t & IH)]; simpl; [by eexists _, _|].
  destruct (code c =? 10)%nat; [by eexists _, _|]. rewrite IH. by eexists _, _.
Qed.

Lemma join_nl_cons c h t : join_nl (String c h :: t) = String c (join_nl (h :: t)).
Proof. by destruct t. Qed.

Lemma join_nl_more l h t :
  join_nl (l :: h :: t) = l +++ String (ascii_of_nat 10) (join_nl (h :: t)).
Proof. reflexivity. Qed.

Lemma join_split s : join_nl (split_lines s) = s.
Proof.
  induction s as [|c r IH]; [done|]. simpl.
  destruct (split_lines_cons r) as (h & t & Hr). rewrite Hr in *.
  destruct (Nat.eqb_spec (code c) 10) as [Hc|Hc].
  - rewrite join_nl_more, IH.
    change (String (ascii_of_nat 10) r = String c r). f_equal.
    by apply PresetsFacts.code_inj.
  - by rewrite join_nl_cons, IH.
Qed.

(** *** The two search loops *)

Section Loops.
Variable float_repr : spec_float -> string.
Variable expand : string -> option (string -> string).

Lemma patch_from_spec new_value (lines : list string) : forall count j lines',
  patch_from float_repr expand new_value lines j count = Some lines' ->
  lines' = lines \/
  exists k line new_line,
    (j <= k < j + count)%nat /\
    (forall m l, (j <= m < k)%nat -> lines !! m = Some l -> names float_repr "value" l = false) /\
    lines !! k = Some line /\
    names float_repr "value" line = true /\
    _replace_parameter_value float_repr expand line new_value = Some new_line /\
    lines' = <[k := new_line]> lines.
Proof.
  induction count as [|n IH]; intros j lines' H; simpl in H.
  - left. congruence.
  - destruct (lines !! j) as [line|] eqn:Hl; [|done].
    destruct (names float_repr "value" line) eqn:Hv.
    + destruct (_replace_parameter_value float_repr expand line new_value) as [new_line|] eqn:Hr;
        [|done].
      injection H as <-. right. exists j, line, new_line.
      split; [lia|]. split; [intros m l Hm; lia|]. done.
    + destruct (IH (S j) lines' H) as [->|(k & lk & new_line & Hk & Hbefore & Hlk & Hvk & Hr & ->)];
        [by left|].
      right. exists k, lk, new_line. split; [lia|]. split; [|done].
      intros m l Hm Hlm. destruct (decide (m = j)) as [->|Hne].
      * congruence.
      * apply (Hbefore m l); [lia|done].
Qed.

Lemma find_and_patch_spec param_name new_value params_end (lines : list string) :
  forall count i lines',
  find_and_patch float_repr expand param_name new_value params_end lines i count = Some lines' ->
  lines' = lines \/
  exists i0 li,
    (i <= i0 < i + count)%nat /\
    (forall m l, (i <= m < i0)%nat -> lines !! m = Some l ->
                 names float_repr param_name l = false) /\
    lines !! i0 = Some li /\
    names float_repr param_name li = true /\
    patch_from float_repr expand new_value lines i0 (Nat.min (i0 + 20) params_end - i0)
      = Some lines'.
Proof.
  induction count as [|n IH]; intros i lines' H; simpl in H.
  - left. congruence.
  - destruct (lines !! i) as [line|] eqn:Hl; [|done].
    destruct (names float_repr param_name line) eqn:Hv.
    + right. exists i, line. split; [lia|]. split; [intros m l Hm; lia|]. done.
    + destruct (IH (S i) lines' H) as [->|(i0 & li & Hi & Hbefore & Hli & Hvi & Hp)];
        [by left|].
      right. exists i0, li. split; [lia|]. split; [|done].
      intros m l Hm Hlm. destruct (decide (m = i)) as [->|Hne].
      * congruence.
      * apply (Hbefore m l); [lia|done].
Qed.
End Loops.

(** X16.  What [_update_file] writes.  When the script is written, the
    new text has the lines of the old one with at most one line
    replaced.  Either the text is exactly the old text, or the
    replaced line is the first line holding the word [value] in quotes
    at or after the first line, from the [PARAMETERS] line on, that
    holds the parameter's name in quotes; it lies inside the
    [PARAMETERS] assignment and less than 20 lines after that first
    mention, and it is replaced by what [_replace_parameter_value]
    makes of it. *)
Theorem update_file_changes_one_line float_repr ast_parse expand source param_name
    new_value text' :
  _update_file float_repr ast_parse expand source param_name new_value = Some text' ->
  exists tree params_start params_end lines',
    ast_parse source = Some tree /\
    span_of (walk tree) = Some (params_start, params_end) /\
    text' = join_nl lines' /\
    length lines' = length (split_lines source) /\
    (text' = source \/
     exists i j li lj new_line,
       (params_start <= i <= j)%nat /\ (j < params_end)%nat /\ (j < i + 20)%nat /\
       split_lines source !! i = Some li /\
       names float_repr param_name li = true /\
       (forall m l, (params_start <= m < i)%nat -> split_lines source !! m = Some l ->
                    names float_repr param_name l = false) /\
       split_lines source !! j = Some lj /\
       names float_repr "value" lj = true /\
       (forall m l, (i <= m < j)%nat -> split_lines source !! m = Some l ->
                    names float_repr "value" l = false) /\
       _replace_parameter_value float_repr expand lj new_value = Some new_line /\
       lines' = <[j := new_line]> (split_lines source) /\
       forall m, m <> j -> lines' !! m = split_lines source !! m).
Proof.
  unfold _update_file. intros H.
  destruct (ast_parse source) as [tree|] eqn:Ha; [|done].
  destruct (span_of (walk tree)) as [[params_start params_end]|] eqn:Hs; [|done].
  destruct (find_and_patch float_repr expand param_name new_value params_end
              (split_lines source) params_start (params_end - params_start))
    as [lines'|] eqn:Hf; [|done].
  injection H as <-. exists tree, params_start, params_end, lines'.
  split; [done|]. split; [done|]. split; [done|].
  apply find_and_patch_spec in Hf as [->|(i & li & Hi & Hbefore & Hli & Hni & Hp)].
  { split; [done|]. left. apply join_split. }
  apply patch_from_spec in Hp as [->|(j & lj & new_line & Hj & Hvbefore & Hlj & Hvj & Hr & ->)].
  { split; [done|]. left. apply join_split. }
  split; [apply length_insert|]. right.
  exists i, j, li, lj, new_line.
  split; [lia|]. split; [lia|]. split; [lia|].
  repeat (split; [done|]).
  intros m Hm. by apply list_lookup_insert_ne.
Qed.

Lemma update_file_changes_one_line_witness :
  exists text' lines',
    _update_file (fun _ => "2.5") wave_parse plain_expand wave_source "amplitude"
      (VFloat Store.f2_5) = Some text' /\
    text' = join_nl lines' /\
    length lines' = length (split_lines wave_source).
Proof.
  destruct (_update_file (fun _ => "2.5") wave_parse plain_expand wave_source "amplitude"
              (VFloat Store.f2_5)) as [text'|] eqn:Hu; [|vm_compute in Hu; discriminate].
  destruct (update_file_changes_one_line _ _ _ _ _ _ _ Hu)
    as (tree & ps & pe & lines' & _ & _ & Ht & Hlen & _).
  exists text', lines'. split; [reflexivity|]. split; [exact Ht|exact Hlen].
Defined.

End PatchExtra.
